(** * todo-backend: a shallow embedding of the task / project / auth routes

    The Express handlers of [src/routes/tasks.js], [src/routes/projects.js],
    [src/routes/user.js] and the Passport verify callbacks of
    [config/passport.js] are written as functions over an explicit store
    (the three Prisma tables).  Every handler is one atomic step: it reads
    the store, possibly writes it, and produces the HTTP response.

    Clock readings ([new Date()]), the host's time zone and generated primary
    keys come from an explicit environment.  Request bodies and query strings are the values
    left by the express-validator chain (enums already constrained). *)

From Stdlib Require Import ZArith Lia String Ascii.
From stdpp Require Import base tactics option list sorting strings.

Local Open Scope string_scope.
Local Open Scope Z_scope.

(** ** JavaScript string helpers (ASCII fragment) *)

Definition lower_ascii (c : ascii) : ascii :=
  let n := nat_of_ascii c in
  if ((65 <=? n) && (n <=? 90))%nat then ascii_of_nat (n + 32) else c.

Fixpoint toLowerCase (s : string) : string :=
  match s with
  | EmptyString => EmptyString
  | String c r => String (lower_ascii c) (toLowerCase r)
  end.

Definition is_space (c : ascii) : bool :=
  let n := nat_of_ascii c in
  ((9 <=? n) && (n <=? 13) || (n =? 32))%nat.

Fixpoint trimStart (s : string) : string :=
  match s with
  | String c r => if is_space c then trimStart r else s
  | EmptyString => EmptyString
  end.

Fixpoint trimEnd (s : string) : string :=
  match s with
  | EmptyString => EmptyString
  | String c r =>
      match trimEnd r with
      | EmptyString => if is_space c then EmptyString else String c EmptyString
      | r' => String c r'
      end
  end.

Definition trim (s : string) : string := trimEnd (trimStart s).


(** ** Text patterns of the store

    The store compares text with a pattern ([LIKE], and [ILIKE] when letter
    case is ignored): [%] stands for any text, also none, [_] for any one
    character, and a backslash makes the character after it stand for
    itself.  A pattern that ends in a lone backslash is refused. *)
Definition backslash : ascii := "092".

Inductive LikeToken :=
| like_any
| like_one
| like_char (c : ascii).

Fixpoint like_tokens (pattern : string) : option (list LikeToken) :=
  match pattern with
  | EmptyString => Some []
  | String c rest =>
      if Ascii.eqb c "%" then cons like_any <$> like_tokens rest
      else if Ascii.eqb c "_" then cons like_one <$> like_tokens rest
      else if Ascii.eqb c backslash then
        match rest with
        | EmptyString => None
        | String c' rest' => cons (like_char c') <$> like_tokens rest'
        end
      else cons (like_char c) <$> like_tokens rest
  end.

(** Matching the whole of [text], letters compared without their case (the
    letters A to Z, as in [toLowerCase] above). *)
Fixpoint ilike_match (tokens : list LikeToken) : string → bool :=
  match tokens with
  | [] => λ text, match text with EmptyString => true | String _ _ => false end
  | like_any :: rest =>
      fix skip (text : string) : bool :=
        ilike_match rest text ||
        match text with
        | EmptyString => false
        | String _ text' => skip text'
        end
  | like_one :: rest =>
      λ text,
        match text with
        | EmptyString => false
        | String _ text' => ilike_match rest text'
        end
  | like_char c :: rest =>
      λ text,
        match text with
        | EmptyString => false
        | String d text' =>
            Ascii.eqb (lower_ascii c) (lower_ascii d) && ilike_match rest text'
        end
  end.

(** A token of the pattern written in lower case. *)
Definition lower_token (t : LikeToken) : LikeToken :=
  match t with
  | like_char c => like_char (lower_ascii c)
  | t => t
  end.

(** [text ILIKE pattern]; [None] when the pattern is refused. *)
Definition ilike (pattern text : string) : option bool :=
  (λ tokens, ilike_match tokens text) <$> like_tokens pattern.



(** Truthiness of a JS string: the empty string is falsy. *)
Definition truthy (s : string) : bool := negb (bool_decide (s = "")).

(** ** Data model *)

Inductive Priority := LOW | MEDIUM | HIGH.

#[global] Instance Priority_eq_dec : EqDecision Priority.
Proof. solve_decision. Defined.

(** Modelled from the spec: the Prisma schema (prisma/schema.prisma) is not
    among the sources; the three tables carry the fields the handlers read
    and write, as listed in the data model (section 3).  Timestamps are
    milliseconds since the epoch. *)
Module User.
Record t := mk {
  id : string;
  email : string;
  password : option string;
  googleId : option string;
  name : string;
  avatar : option string;
  createdAt : Z
}.
End User.

Module Project.
Record t := mk {
  id : string;
  name : string;
  color : string;
  userId : string;
  createdAt : Z
}.
End Project.

Module Task.
Record t := mk {
  id : string;
  title : string;
  description : option string;
  dueDate : option Z;
  priority : Priority;
  isComplete : bool;
  isDeleted : bool;
  deletedAt : option Z;
  projectId : option string;
  userId : string;
  createdAt : Z
}.

(** The [data] object of [prisma.task.update]: an absent key ([None])
    leaves the column alone, a present key overwrites it. *)
Record data := mkData {
  d_title : option string;
  d_description : option (option string);
  d_dueDate : option (option Z);
  d_priority : option Priority;
  d_isComplete : option bool;
  d_isDeleted : option bool;
  d_deletedAt : option (option Z);
  d_projectId : option (option string)
}.

Definition no_data : data := mkData None None None None None None None None.

Definition apply (d : data) (r : t) : t :=
  mk (id r)
     (default (title r) (d_title d))
     (default (description r) (d_description d))
     (default (dueDate r) (d_dueDate d))
     (default (priority r) (d_priority d))
     (default (isComplete r) (d_isComplete d))
     (default (isDeleted r) (d_isDeleted d))
     (default (deletedAt r) (d_deletedAt d))
     (default (projectId r) (d_projectId d))
     (userId r)
     (createdAt r).
End Task.

#[global] Instance User_eq_dec : EqDecision User.t.
Proof. solve_decision. Defined.
#[global] Instance Project_eq_dec : EqDecision Project.t.
Proof. solve_decision. Defined.
#[global] Instance Task_eq_dec : EqDecision Task.t.
Proof. solve_decision. Defined.

Record Store := mkStore {
  users : list User.t;
  projects : list Project.t;
  tasks : list Task.t
}.

Definition empty_store : Store := mkStore [] [] [].

(** The host's time zone as a JS [Date] sees it (ECMAScript's [LocalTZA]): the
    offset of local time from UTC in milliseconds, at the instant [t] when
    [isUTC] holds and at the local time [t] otherwise.  Where the zone has
    daylight saving the offset changes with [t]; a local time that a change
    skips or repeats gets the offset the host picks for it. *)
Definition TimeZone : Type := Z → bool → Z.

(** A zone without changes of offset. *)
Definition fixed_zone (offset : Z) : TimeZone := λ _ _, offset.

(** What a handler takes from its surroundings: the clock, the host's time
    zone and the key the store generates for a row created by the request. *)
Record Env := mkEnv {
  now : Z;
  LocalTZA : TimeZone;
  newId : string
}.

Definition msPerDay : Z := 86400000.
Definition msPerHour : Z := 3600000.

(** A zone one hour ahead of UTC that goes two hours ahead at the instant
    [change].  The local times of the hour that is left out are read with
    the offset before the change. *)
Definition spring_forward (change : Z) : TimeZone :=
  λ t isUTC,
    if isUTC
    then (if t <? change then msPerHour else 2 * msPerHour)
    else (if t <? change + 2 * msPerHour then msPerHour else 2 * msPerHour).

Definition LocalTime (e : Env) (t : Z) : Z := t + LocalTZA e t true.
Definition UTC (e : Env) (t : Z) : Z := t - LocalTZA e t false.

(** [d.setHours(0, 0, 0, 0)]: the local time of [d] cut down to its day, read
    back as an instant. *)
Definition setHours_0 (e : Env) (d : Z) : Z :=
  UTC e (LocalTime e d / msPerDay * msPerDay).

(** [d.setDate(d.getDate() + n)]: a day of the month past the end of the month
    runs over into the next one, so the local time moves by [n] calendar days
    and keeps its time of day; the result is read back as an instant. *)
Definition setDate_plus (e : Env) (n : Z) (d : Z) : Z :=
  UTC e (LocalTime e d + n * msPerDay).

(** [const today = new Date(); today.setHours(0, 0, 0, 0)] *)
Definition startOfDay (e : Env) : Z := setHours_0 e (now e).
(** [const tomorrow = new Date(d); tomorrow.setDate(tomorrow.getDate() + 1)] *)
Definition nextDay (e : Env) (d : Z) : Z := setDate_plus e 1 d.

(** ** Prisma client primitives over a table *)

Section Prisma.
Context {A : Type}.

Definition findFirst (p : A → bool) (rows : list A) : option A :=
  List.find p rows.

Definition findMany (p : A → bool) (rows : list A) : list A :=
  List.filter p rows.

(** [update] changes the one row selected by a unique key and returns it;
    it throws ([None]) when there is no such row. *)
Fixpoint update (p : A → bool) (f : A → A) (rows : list A)
  : option (list A * A) :=
  match rows with
  | [] => None
  | r :: rs =>
      if p r then Some (f r :: rs, f r)
      else match update p f rs with
           | Some (rs', r') => Some (r :: rs', r')
           | None => None
           end
  end.

Definition updateMany (p : A → bool) (f : A → A) (rows : list A) : list A :=
  List.map (λ r, if p r then f r else r) rows.

(** [delete] removes the one row selected by a unique key; it throws
    ([None]) when there is none. *)
Fixpoint delete (p : A → bool) (rows : list A) : option (list A) :=
  match rows with
  | [] => None
  | r :: rs =>
      if p r then Some rs
      else match delete p rs with
           | Some rs' => Some (r :: rs')
           | None => None
           end
  end.

Definition deleteMany (p : A → bool) (rows : list A) : list A :=
  List.filter (λ r, negb (p r)) rows.

Definition count (p : A → bool) (rows : list A) : nat :=
  length (List.filter p rows).
End Prisma.

(** [prisma.$transaction([op1; op2; ...])]: the writes run in order; if one
    throws, none of them is kept. *)
Fixpoint transaction (ops : list (Store → option Store)) (s : Store)
  : option Store :=
  match ops with
  | [] => Some s
  | op :: rest =>
      match op s with
      | Some s' => transaction rest s'
      | None => None
      end
  end.

(** The stores a transaction passes through while it runs, the one it
    starts from first. *)
Fixpoint transaction_states (ops : list (Store → option Store)) (s : Store)
  : list Store :=
  s :: match ops with
       | [] => []
       | op :: rest =>
           match op s with
           | Some s' => transaction_states rest s'
           | None => []
           end
       end.

(** ** The [where] object of a task query *)

Module Where.
(** The one-key objects the handlers put inside [AND] and [OR] arrays. *)
Inductive cond :=
| c_isDeleted (b : bool)
| c_dueDate (gte : option Z) (lt : option Z)
| c_title_contains (s : string)
| c_description_contains (s : string).

(** A JS object with the keys the handlers assign; an unassigned key is
    [None].  Assigning a key twice keeps the last value. *)
Record t := mk {
  id : option string;
  userId : option string;
  isComplete : option bool;
  isDeleted : option bool;
  priority : option Priority;
  projectId : option string;
  AND : option (list cond);
  OR : option (list cond)
}.

Definition empty : t := mk None None None None None None None None.

Definition set_id v w :=
  mk (Some v) (userId w) (isComplete w) (isDeleted w) (priority w) (projectId w) (AND w) (OR w).
Definition set_userId v w :=
  mk (id w) (Some v) (isComplete w) (isDeleted w) (priority w) (projectId w) (AND w) (OR w).
Definition set_isComplete v w :=
  mk (id w) (userId w) (Some v) (isDeleted w) (priority w) (projectId w) (AND w) (OR w).
Definition set_isDeleted v w :=
  mk (id w) (userId w) (isComplete w) (Some v) (priority w) (projectId w) (AND w) (OR w).
Definition set_priority v w :=
  mk (id w) (userId w) (isComplete w) (isDeleted w) (Some v) (projectId w) (AND w) (OR w).
Definition set_projectId v w :=
  mk (id w) (userId w) (isComplete w) (isDeleted w) (priority w) (Some v) (AND w) (OR w).
Definition set_AND v w :=
  mk (id w) (userId w) (isComplete w) (isDeleted w) (priority w) (projectId w) (Some v) (OR w).
Definition set_OR v w :=
  mk (id w) (userId w) (isComplete w) (isDeleted w) (priority w) (projectId w) (AND w) (Some v).

(** [{ contains: s, mode: 'insensitive' }]: the store evaluates
    [field ILIKE '%s%'], the text [s] put between the two [%] as it is, so
    that a [%], [_] or backslash in [s] keeps its meaning in the pattern.
    The pattern ends in [%] and is never refused
    (lemma [contains_pattern_accepted]). *)
Definition contains_pattern (s : string) : string := "%" +:+ s +:+ "%".

Definition contains_insensitive (s field : string) : bool :=
  match ilike (contains_pattern s) field with
  | Some b => b
  | None => false
  end.

(** A comparison with a NULL column is not true. *)
Definition holds (c : cond) (r : Task.t) : bool :=
  match c with
  | c_isDeleted b => bool_decide (Task.isDeleted r = b)
  | c_dueDate gte lt =>
      match Task.dueDate r with
      | None => false
      | Some d =>
          match gte with Some g => g <=? d | None => true end
          && match lt with Some l => d <? l | None => true end
      end
  | c_title_contains s => contains_insensitive s (Task.title r)
  | c_description_contains s =>
      match Task.description r with
      | None => false
      | Some d => contains_insensitive s d
      end
  end.

Definition key {A} `{EqDecision A} (k : option A) (v : A) : bool :=
  match k with
  | None => true
  | Some x => bool_decide (v = x)
  end.

(** All top-level keys are conjoined; [AND] asks for every element,
    [OR] for at least one. *)
Definition matches (w : t) (r : Task.t) : bool :=
  key (id w) (Task.id r)
  && key (userId w) (Task.userId r)
  && key (isComplete w) (Task.isComplete r)
  && key (isDeleted w) (Task.isDeleted r)
  && key (priority w) (Task.priority r)
  && match projectId w with
     | None => true
     | Some p => bool_decide (Task.projectId r = Some p)
     end
  && match AND w with
     | None => true
     | Some cs => forallb (λ c, holds c r) cs
     end
  && match OR w with
     | None => true
     | Some cs => existsb (λ c, holds c r) cs
     end.
End Where.

(** ** [orderBy] *)

Inductive SortOrder := asc | desc.
Inductive TaskKey := by_dueDate | by_priority | by_createdAt.

(** Modelled from the spec: the [Priority] enum is declared in the missing
    schema; the store orders an enum by its declaration order, taken here
    as LOW, MEDIUM, HIGH (section 3, and "HIGH > MEDIUM > LOW" in 4.4). *)
Definition Priority_rank (p : Priority) : Z :=
  match p with LOW => 0 | MEDIUM => 1 | HIGH => 2 end.

(** Modelled from the spec: where the store puts a NULL sort key is not in
    the sources; a NULL counts as larger than every value (section 4.4:
    "tasks with no due date sort after all dated tasks"). *)
Definition compare_nullable (a b : option Z) : comparison :=
  match a, b with
  | Some x, Some y => x ?= y
  | Some _, None => Lt
  | None, Some _ => Gt
  | None, None => Eq
  end.

Definition compare_key (k : TaskKey) (a b : Task.t) : comparison :=
  match k with
  | by_dueDate => compare_nullable (Task.dueDate a) (Task.dueDate b)
  | by_priority => Priority_rank (Task.priority a) ?= Priority_rank (Task.priority b)
  | by_createdAt => Task.createdAt a ?= Task.createdAt b
  end.

Definition directed (o : SortOrder) (c : comparison) : comparison :=
  match o with asc => c | desc => CompOpp c end.

Fixpoint compare_by (ob : list (TaskKey * SortOrder)) (a b : Task.t) : comparison :=
  match ob with
  | [] => Eq
  | (k, o) :: rest =>
      match directed o (compare_key k a b) with
      | Eq => compare_by rest a b
      | c => c
      end
  end.

(** [a] may come before [b] in the result. *)
Definition order_le (ob : list (TaskKey * SortOrder)) (a b : Task.t) : Prop :=
  compare_by ob a b ≠ Gt.

#[global] Instance comparison_eq_dec' : EqDecision comparison.
Proof. solve_decision. Defined.

#[global] Instance order_le_dec ob a b : Decision (order_le ob a b).
Proof. unfold order_le. apply _. Defined.

Definition findMany_orderBy (ob : list (TaskKey * SortOrder))
    (p : Task.t → bool) (rows : list Task.t) : list Task.t :=
  merge_sort (order_le ob) (findMany p rows).

(** ** Responses *)

(** [include: { project: { select: { id, name, color } } }] *)
Record ProjectSummary := mkSummary {
  ps_id : string;
  ps_name : string;
  ps_color : string
}.

Record TaskOut := mkTaskOut {
  task : Task.t;
  project : option ProjectSummary
}.

Record ProjectRow := mkProjectRow {
  row : Project.t;
  count_tasks : nat
}.

Record ProjectOut := mkProjectOut {
  project_row : Project.t;
  project_tasks : list Task.t
}.

(** [select: { id: true, email: true, name: true, avatar: true }] *)
Record PublicUser := mkPublic {
  pu_id : string;
  pu_email : string;
  pu_name : string;
  pu_avatar : option string
}.

(** The payload signed by [generateToken]; signing itself is left to the
    jsonwebtoken library. *)
Record Token := mkToken {
  tok_id : string;
  tok_email : string
}.

Record Stats := mkStats {
  pendingTasks : nat;
  completedTasks : nat;
  projectsCount : nat;
  trashItems : nat
}.

(** The payload of [res.json(...)]. *)
Inductive Json :=
| J_user (u : PublicUser)
| J_user_message (u : PublicUser) (message : string)
| J_session (message : string) (u : PublicUser) (token : Token)
| J_profile (u : PublicUser) (createdAt : Z) (stats : Stats)
| J_tasks (ts : list TaskOut)
| J_task (t : TaskOut)
| J_task_message (t : TaskOut) (message : string)
| J_projects (ps : list ProjectRow)
| J_project (p : ProjectOut)
| J_project_message (p : ProjectRow) (message : string)
| J_message (message : string).

Record Response := mkResponse {
  status : Z;
  body : Json
}.

Definition json (j : Json) : Response := mkResponse 200 j.
Definition error (code : Z) (message : string) : Response :=
  mkResponse code (J_message message).

(** The error names of the specification, as the responses that carry them. *)
Definition NotFound_task : Response := error 404 "Task not found".
Definition NotFound_project : Response := error 404 "Project not found".
Definition NotInTrash : Response := error 404 "Task not found in trash".
Definition InvalidReference : Response := error 400 "Invalid project ID".

(** ** Task routes ([routes/tasks.js]) *)

Definition summary (p : Project.t) : ProjectSummary :=
  mkSummary (Project.id p) (Project.name p) (Project.color p).

Definition project_is (id : string) (p : Project.t) : bool :=
  bool_decide (Project.id p = id).

Definition project_owned (id userId : string) (p : Project.t) : bool :=
  bool_decide (Project.id p = id) && bool_decide (Project.userId p = userId).

Definition include_project (s : Store) (t : Task.t) : TaskOut :=
  mkTaskOut t
    match Task.projectId t with
    | Some p => summary <$> findFirst (project_is p) (projects s)
    | None => None
    end.

Module View.
Inductive t := today | upcoming | completed | trash.
End View.

Module Status.
Inductive t := all | complete | incomplete.
End Status.

(** [req.query] after validation.  A present [projectId] is a UUID, hence a
    non-empty string, so [if (projectId)] tests presence; [search] has been
    trimmed and may be empty. *)
Record Query := mkQuery {
  q_status : option Status.t;
  q_priority : option Priority;
  q_projectId : option string;
  q_search : option string;
  q_view : option View.t
}.

Definition no_query : Query := mkQuery None None None None None.

Definition task_orderBy : list (TaskKey * SortOrder) :=
  [(by_dueDate, asc); (by_priority, desc); (by_createdAt, desc)].

(** The [where] object built by [GET /], statement by statement. *)
Definition list_where (e : Env) (userId : string) (q : Query) : Where.t :=
  let w := Where.set_userId userId Where.empty in
  let w :=
    match q_view q with
    | Some View.today =>
        let today := startOfDay e in
        let tomorrow := nextDay e today in
        Where.set_AND
          [Where.c_isDeleted false; Where.c_dueDate (Some today) (Some tomorrow)]
          w
    | Some View.upcoming =>
        let today := startOfDay e in
        Where.set_AND
          [Where.c_isDeleted false; Where.c_dueDate (Some today) None]
          w
    | Some View.completed =>
        Where.set_isDeleted false (Where.set_isComplete true w)
    | Some View.trash => Where.set_isDeleted true w
    | None => Where.set_isDeleted false w
    end in
  let w :=
    match q_status q with
    | Some Status.complete => Where.set_isComplete true w
    | Some Status.incomplete => Where.set_isComplete false w
    | _ => w
    end in
  let w :=
    match q_priority q with
    | Some p => Where.set_priority p w
    | None => w
    end in
  let w :=
    match q_projectId q with
    | Some p => Where.set_projectId p w
    | None => w
    end in
  match q_search q with
  | Some search =>
      if truthy search
      then Where.set_OR
             [Where.c_title_contains search; Where.c_description_contains search]
             w
      else w
  | None => w
  end.

Definition Handler := Store → Store * Response.

(** [GET /api/tasks] *)
Definition list_tasks (e : Env) (userId : string) (q : Query) (s : Store)
  : list Task.t :=
  findMany_orderBy task_orderBy (Where.matches (list_where e userId q)) (tasks s).

Definition tasks_get_all (e : Env) (userId : string) (q : Query) : Handler :=
  λ s, (s, json (J_tasks (include_project s <$> list_tasks e userId q s))).

Definition task_owned (id userId : string) : Task.t → bool :=
  Where.matches (Where.set_userId userId (Where.set_id id Where.empty)).

Definition task_is (id : string) : Task.t → bool :=
  Where.matches (Where.set_id id Where.empty).

Definition task_in_trash (id userId : string) : Task.t → bool :=
  Where.matches
    (Where.set_isDeleted true (Where.set_userId userId (Where.set_id id Where.empty))).

(** [GET /api/tasks/:id] *)
Definition tasks_get_one (userId id : string) : Handler :=
  λ s,
    match findFirst (task_owned id userId) (tasks s) with
    | None => (s, NotFound_task)
    | Some t => (s, json (J_task (include_project s t)))
    end.

Definition with_tasks (ts : list Task.t) (s : Store) : Store :=
  mkStore (users s) (projects s) ts.

Definition with_projects (ps : list Project.t) (s : Store) : Store :=
  mkStore (users s) ps (tasks s).

Definition with_users (us : list User.t) (s : Store) : Store :=
  mkStore us (projects s) (tasks s).

(** [prisma.task.create]: the primary key is unique, a clash throws. *)
Definition task_create (r : Task.t) (rows : list Task.t) : option (list Task.t) :=
  if existsb (task_is (Task.id r)) rows then None else Some (rows ++ [r])%list.

(** [req.body] of [POST /api/tasks] after validation. *)
Record TaskPost := mkTaskPost {
  tp_title : string;
  tp_description : option string;
  tp_dueDate : option Z;
  tp_priority : option Priority;
  tp_projectId : option string
}.

(** [POST /api/tasks] *)
Definition tasks_post (e : Env) (userId : string) (b : TaskPost) : Handler :=
  λ s,
    let project_ok :=
      match tp_projectId b with
      | Some p => bool_decide (is_Some (findFirst (project_owned p userId) (projects s)))
      | None => true
      end in
    if negb project_ok then (s, InvalidReference)
    else
      let r :=
        Task.mk (newId e) (trim (tp_title b)) (trim <$> tp_description b)
          (tp_dueDate b) (default MEDIUM (tp_priority b))
          false false None (tp_projectId b) userId (now e) in
      match task_create r (tasks s) with
      | Some ts =>
          let s' := with_tasks ts s in
          (s', mkResponse 201
                 (J_task_message (include_project s' r) "Task created successfully"))
      | None => (s, error 500 "Server error while creating task")
      end.

(** [req.body] of [PUT /api/tasks/:id] after validation; [None] is
    [undefined]. *)
Record TaskPut := mkTaskPut {
  tu_title : option string;
  tu_description : option string;
  tu_dueDate : option Z;
  tu_priority : option Priority;
  tu_isComplete : option bool;
  tu_projectId : option string
}.

Definition updateData (b : TaskPut) : Task.data :=
  Task.mkData (trim <$> tu_title b) ((λ d, Some (trim d)) <$> tu_description b)
    (Some <$> tu_dueDate b) (tu_priority b) (tu_isComplete b) None None
    (Some <$> tu_projectId b).

(** [PUT /api/tasks/:id] *)
Definition tasks_put (userId id : string) (b : TaskPut) : Handler :=
  λ s,
    match findFirst (task_owned id userId) (tasks s) with
    | None => (s, NotFound_task)
    | Some existingTask =>
        let project_ok :=
          match tu_projectId b with
          | Some p => bool_decide (is_Some (findFirst (project_owned p userId) (projects s)))
          | None => true
          end in
        if negb project_ok then (s, InvalidReference)
        else
          match update (task_is id) (Task.apply (updateData b)) (tasks s) with
          | Some (ts, t) =>
              let s' := with_tasks ts s in
              (s', json (J_task_message (include_project s' t) "Task updated successfully"))
          | None => (s, error 500 "Server error while updating task")
          end
    end.

Definition data_isComplete (b : bool) : Task.data :=
  Task.mkData None None None None (Some b) None None None.

(** [PATCH /api/tasks/:id/toggle] *)
Definition tasks_toggle (userId id : string) : Handler :=
  λ s,
    match findFirst (task_owned id userId) (tasks s) with
    | None => (s, NotFound_task)
    | Some t =>
        match update (task_is id)
                (Task.apply (data_isComplete (negb (Task.isComplete t)))) (tasks s) with
        | Some (ts, updatedTask) =>
            let s' := with_tasks ts s in
            (s', json (J_task_message (include_project s' updatedTask)
                         ("Task marked as " +:+
                          (if Task.isComplete updatedTask then "complete" else "incomplete"))))
        | None => (s, error 500 "Server error while toggling task")
        end
    end.

Definition data_trash (isDeleted : bool) (deletedAt : option Z) : Task.data :=
  Task.mkData None None None None None (Some isDeleted) (Some deletedAt) None.

(** [DELETE /api/tasks/:id] (soft delete) *)
Definition tasks_delete (e : Env) (userId id : string) : Handler :=
  λ s,
    match findFirst (task_owned id userId) (tasks s) with
    | None => (s, NotFound_task)
    | Some _ =>
        match update (task_is id) (Task.apply (data_trash true (Some (now e)))) (tasks s) with
        | Some (ts, _) => (with_tasks ts s, json (J_message "Task moved to trash"))
        | None => (s, error 500 "Server error while deleting task")
        end
    end.

(** [PATCH /api/tasks/:id/restore] *)
Definition tasks_restore (userId id : string) : Handler :=
  λ s,
    match findFirst (task_in_trash id userId) (tasks s) with
    | None => (s, NotInTrash)
    | Some _ =>
        match update (task_is id) (Task.apply (data_trash false None)) (tasks s) with
        | Some (ts, restoredTask) =>
            let s' := with_tasks ts s in
            (s', json (J_task_message (include_project s' restoredTask)
                         "Task restored successfully"))
        | None => (s, error 500 "Server error while restoring task")
        end
    end.

(** [DELETE /api/tasks/:id/permanent] *)
Definition tasks_delete_permanent (userId id : string) : Handler :=
  λ s,
    match findFirst (task_in_trash id userId) (tasks s) with
    | None => (s, NotInTrash)
    | Some _ =>
        match delete (task_is id) (tasks s) with
        | Some ts => (with_tasks ts s, json (J_message "Task permanently deleted"))
        | None => (s, error 500 "Server error while permanently deleting task")
        end
    end.

(** ** Project routes ([routes/projects.js]) *)

Definition project_of_user (userId : string) (p : Project.t) : bool :=
  bool_decide (Project.userId p = userId).

(** [_count: { select: { tasks: { where: { isDeleted: false } } } }] *)
Definition count_active (projectId : string) (s : Store) : nat :=
  count (Where.matches
           (Where.set_isDeleted false (Where.set_projectId projectId Where.empty)))
        (tasks s).

Definition project_newer (a b : Project.t) : Prop :=
  Project.createdAt b ≤ Project.createdAt a.

#[global] Instance project_newer_dec a b : Decision (project_newer a b).
Proof. unfold project_newer. apply _. Defined.

(** [GET /api/projects] *)
Definition projects_get_all (userId : string) : Handler :=
  λ s,
    let ps := merge_sort project_newer (findMany (project_of_user userId) (projects s)) in
    (s, json (J_projects ((λ p, mkProjectRow p (count_active (Project.id p) s)) <$> ps))).

(** [GET /api/projects/:id] *)
Definition projects_get_one (userId id : string) : Handler :=
  λ s,
    match findFirst (project_owned id userId) (projects s) with
    | None => (s, NotFound_project)
    | Some p =>
        let ts :=
          findMany_orderBy task_orderBy
            (Where.matches
               (Where.set_isDeleted false (Where.set_projectId id Where.empty)))
            (tasks s) in
        (s, json (J_project (mkProjectOut p ts)))
    end.

Definition project_create (r : Project.t) (rows : list Project.t)
  : option (list Project.t) :=
  if existsb (project_is (Project.id r)) rows then None else Some (rows ++ [r])%list.

(** [POST /api/projects]; a present [color] matched the hex pattern, so
    [color || '#3B82F6'] falls back only when it is absent. *)
Definition projects_post (e : Env) (userId : string)
    (name : string) (color : option string) : Handler :=
  λ s,
    let r := Project.mk (newId e) (trim name) (default "#3B82F6" color) userId (now e) in
    match project_create r (projects s) with
    | Some ps =>
        let s' := with_projects ps s in
        (s', mkResponse 201
               (J_project_message (mkProjectRow r (count_active (Project.id r) s'))
                  "Project created successfully"))
    | None => (s, error 500 "Server error while creating project")
    end.

Definition project_apply (name color : option string) (p : Project.t) : Project.t :=
  Project.mk (Project.id p) (default (Project.name p) name)
    (default (Project.color p) color) (Project.userId p) (Project.createdAt p).

(** [PUT /api/projects/:id] *)
Definition projects_put (userId id : string) (name color : option string) : Handler :=
  λ s,
    match findFirst (project_owned id userId) (projects s) with
    | None => (s, NotFound_project)
    | Some _ =>
        match update (project_is id) (project_apply (trim <$> name) color) (projects s) with
        | Some (ps, p) =>
            let s' := with_projects ps s in
            (s', json (J_project_message (mkProjectRow p (count_active id s'))
                         "Project updated successfully"))
        | None => (s, error 500 "Server error while updating project")
        end
    end.

Definition data_projectId (p : option string) : Task.data :=
  Task.mkData None None None None None None None (Some p).

Definition task_in_project (projectId : string) : Task.t → bool :=
  Where.matches (Where.set_projectId projectId Where.empty).

(** The two writes of [DELETE /api/projects/:id], in the order of the array
    handed to [$transaction]. *)
Definition projects_delete_writes (id : string) : list (Store → option Store) :=
  [ (λ s, Some (with_tasks
                  (updateMany (task_in_project id)
                     (Task.apply (data_projectId None)) (tasks s)) s));
    (λ s, (λ ps, with_projects ps s) <$> delete (project_is id) (projects s)) ].

(** [DELETE /api/projects/:id] *)
Definition projects_delete (userId id : string) : Handler :=
  λ s,
    match findFirst (project_owned id userId) (projects s) with
    | None => (s, NotFound_project)
    | Some _ =>
        match transaction (projects_delete_writes id) s with
        | Some s' => (s', json (J_message "Project deleted successfully"))
        | None => (s, error 500 "Server error while deleting project")
        end
    end.

(** ** Users: unique columns and the Passport strategies *)

Module UserData.
(** The [data] object of [prisma.user.update] / [create]. *)
Record t := mk {
  email : option string;
  password : option string;
  googleId : option string;
  name : option string;
  avatar : option string
}.

Definition apply (d : t) (u : User.t) : User.t :=
  User.mk (User.id u)
    (default (User.email u) (email d))
    (from_option Some (User.password u) (password d))
    (from_option Some (User.googleId u) (googleId d))
    (default (User.name u) (name d))
    (from_option Some (User.avatar u) (avatar d))
    (User.createdAt u).
End UserData.

Definition user_is (id : string) (u : User.t) : bool :=
  bool_decide (User.id u = id).
Definition user_email_is (email : string) (u : User.t) : bool :=
  bool_decide (User.email u = email).
Definition user_googleId_is (googleId : string) (u : User.t) : bool :=
  bool_decide (User.googleId u = Some googleId).

(** [id], [email] and [googleId] are unique columns (the handlers select by
    them with [findUnique]); a write that would repeat a value throws. *)
Definition user_clash (u other : User.t) : bool :=
  negb (bool_decide (User.id other = User.id u))
  && (bool_decide (User.email other = User.email u)
      || (bool_decide (is_Some (User.googleId u))
          && bool_decide (User.googleId other = User.googleId u))).

Definition user_update (p : User.t → bool) (d : UserData.t) (rows : list User.t)
  : option (list User.t * User.t) :=
  match findFirst p rows with
  | None => None
  | Some u =>
      if existsb (user_clash (UserData.apply d u)) rows then None
      else update p (UserData.apply d) rows
  end.

Definition user_create (u : User.t) (rows : list User.t) : option (list User.t) :=
  if existsb (user_is (User.id u)) rows || existsb (user_clash u) rows
  then None else Some (rows ++ [u])%list.

Definition public (u : User.t) : PublicUser :=
  mkPublic (User.id u) (User.email u) (User.name u) (User.avatar u).

(** What a verify callback hands to [done]. *)
Inductive Done (A : Type) :=
| done_user (user : A)
| done_false (message : option string)
| done_error.
Arguments done_user {A} user.
Arguments done_false {A} message.
Arguments done_error {A}.

(** The JWT strategy: the verified payload carries the user id. *)
Definition jwt_verify (payload_id : string) (s : Store) : Done PublicUser :=
  match findFirst (user_is payload_id) (users s) with
  | Some user => done_user (public user)
  | None => done_false None
  end.

(** The profile handed over by the Google strategy. *)
Record Profile := mkProfile {
  pr_id : string;
  displayName : string;
  photos : list string;
  emails : list string
}.

(** The Google strategy.  [profile.emails[0].value] throws on an empty
    array, [profile.photos[0]?.value] is [undefined] on one. *)
Definition google_verify (e : Env) (profile : Profile) (s : Store)
  : Store * Done User.t :=
  match findFirst (user_googleId_is (pr_id profile)) (users s) with
  | Some _ =>
      match head (emails profile) with
      | None => (s, done_error)
      | Some email =>
          match user_update (user_googleId_is (pr_id profile))
                  (UserData.mk (Some email) None None
                     (Some (displayName profile)) (head (photos profile)))
                  (users s) with
          | Some (us, user) => (with_users us s, done_user user)
          | None => (s, done_error)
          end
      end
  | None =>
      match head (emails profile) with
      | None => (s, done_error)
      | Some email =>
          match findFirst (user_email_is email) (users s) with
          | Some _ =>
              match user_update (user_email_is email)
                      (UserData.mk None None (Some (pr_id profile))
                         (Some (displayName profile)) (head (photos profile)))
                      (users s) with
              | Some (us, user) => (with_users us s, done_user user)
              | None => (s, done_error)
              end
          | None =>
              let user :=
                User.mk (newId e) email None (Some (pr_id profile))
                  (displayName profile) (head (photos profile)) (now e) in
              match user_create user (users s) with
              | Some us => (with_users us s, done_user user)
              | None => (s, done_error)
              end
          end
      end
  end.

Definition generateToken (u : PublicUser) : Token := mkToken (pu_id u) (pu_email u).

(** [email.split('@')[0]] *)
Fixpoint before_at (s : string) : string :=
  match s with
  | EmptyString => EmptyString
  | String c r => if bool_decide (c = "@"%char) then EmptyString else String c (before_at r)
  end.

Section WithBcrypt.
(** bcryptjs: [hash] with the salt it draws, and [compare]. *)
Variable bcrypt_hash : string → string → string.
Variable bcrypt_compare : string → string → bool.
(** The salt drawn for a request. *)
Variable salt : Env → string.

(** The local strategy ([usernameField: 'email']). *)
Definition local_verify (email password : string) (s : Store) : Done PublicUser :=
  match findFirst (user_email_is (toLowerCase email)) (users s) with
  | None => done_false (Some "Invalid credentials")
  | Some user =>
      match User.password user with
      | None => done_false (Some "Please use Google login")
      | Some hash =>
          if negb (truthy hash) then done_false (Some "Please use Google login")
          else if bcrypt_compare password hash then done_user (public user)
          else done_false (Some "Invalid credentials")
      end
  end.

(** [POST /api/auth/register] *)
Definition auth_register (e : Env) (email password : string) (name : option string)
  : Handler :=
  λ s,
    match findFirst (user_email_is (toLowerCase email)) (users s) with
    | Some _ => (s, error 400 "User already exists with this email")
    | None =>
        let hashedPassword := bcrypt_hash (salt e) password in
        let user :=
          User.mk (newId e) (toLowerCase email) (Some hashedPassword) None
            (match name with
             | Some n => if truthy n then n else before_at email
             | None => before_at email
             end)
            None (now e) in
        match user_create user (users s) with
        | Some us =>
            (with_users us s,
             mkResponse 201
               (J_session "User registered successfully" (public user)
                  (generateToken (public user))))
        | None => (s, error 500 "Server error during registration")
        end
    end.

(** [POST /api/auth/login].  passport-local does not call the verify
    callback with an empty user name or password; it fails with
    "Missing credentials". *)
Definition auth_login (email password : string) : Handler :=
  λ s,
    let outcome :=
      if negb (truthy email) || negb (truthy password)
      then done_false (Some "Missing credentials")
      else local_verify email password s in
    match outcome with
    | done_error => (s, error 500 "Internal server error")
    | done_false info => (s, error 401 (default "Invalid credentials" info))
    | done_user user =>
        (s, json (J_session "Login successful" user (generateToken user)))
    end.

(** [GET /api/auth/google/callback]: on success the browser is redirected
    with the token and the public fields of the user.  An error handed to
    [done] reaches the error handler of [index.js]; the text of the thrown
    error is not modelled. *)
Definition auth_google_callback (e : Env) (profile : Profile) : Handler :=
  λ s,
    match google_verify e profile s with
    | (s', done_user user) =>
        (s', mkResponse 302
               (J_session "redirect" (public user) (generateToken (public user))))
    | (s', done_false _) => (s', mkResponse 302 (J_message "auth_failed"))
    | (s', done_error) => (s', error 500 "Internal server error")
    end.

(** ** User routes ([routes/user.js]) *)

Definition task_counts (userId : string) (isComplete : option bool) (isDeleted : bool)
  : Task.t → bool :=
  Where.matches
    (Where.mk None (Some userId) isComplete (Some isDeleted) None None None None).

(** [GET /api/user/profile] *)
Definition user_get_profile (userId : string) : Handler :=
  λ s,
    match findFirst (user_is userId) (users s) with
    | None => (s, error 404 "User not found")
    | Some user =>
        (s, json (J_profile (public user) (User.createdAt user)
                    (mkStats
                       (count (task_counts userId (Some false) false) (tasks s))
                       (count (task_counts userId (Some true) false) (tasks s))
                       (count (project_of_user userId) (projects s))
                       (count (task_counts userId None true) (tasks s)))))
    end.

(** [PUT /api/user/profile] *)
Definition user_put_profile (userId : string) (name avatar : option string) : Handler :=
  λ s,
    match user_update (user_is userId) (UserData.mk None None None name avatar) (users s) with
    | Some (us, user) =>
        (with_users us s, json (J_user_message (public user) "Profile updated successfully"))
    | None => (s, error 500 "Server error while updating profile")
    end.

(** [PUT /api/user/password] *)
Definition user_put_password (e : Env) (userId currentPassword newPassword : string)
  : Handler :=
  λ s,
    match findFirst (user_is userId) (users s) with
    | None => (s, error 404 "User not found")
    | Some user =>
        match User.password user with
        | None => (s, error 400 "Cannot change password for OAuth accounts")
        | Some hash =>
            if negb (truthy hash)
            then (s, error 400 "Cannot change password for OAuth accounts")
            else if negb (bcrypt_compare currentPassword hash)
            then (s, error 400 "Current password is incorrect")
            else
              match user_update (user_is userId)
                      (UserData.mk None (Some (bcrypt_hash (salt e) newPassword))
                         None None None)
                      (users s) with
              | Some (us, _) =>
                  (with_users us s, json (J_message "Password changed successfully"))
              | None => (s, error 500 "Server error while changing password")
              end
        end
    end.

(** [DELETE /api/user/account].  "This will cascade delete all related
    data (tasks, projects) due to the schema": the rows owned by the user
    go with it. *)
Definition user_delete_account (userId : string) : Handler :=
  λ s,
    match delete (user_is userId) (users s) with
    | Some us =>
        (mkStore us
           (deleteMany (project_of_user userId) (projects s))
           (deleteMany (Where.matches (Where.set_userId userId Where.empty)) (tasks s)),
         json (J_message "Account deleted successfully"))
    | None => (s, error 500 "Server error while deleting account")
    end.

(** ** The server as a transition system *)

(** Requests behind [authenticate]. *)
Inductive Request :=
| GET_tasks (q : Query)
| GET_task (id : string)
| POST_task (b : TaskPost)
| PUT_task (id : string) (b : TaskPut)
| PATCH_task_toggle (id : string)
| DELETE_task (id : string)
| PATCH_task_restore (id : string)
| DELETE_task_permanent (id : string)
| GET_projects
| GET_project (id : string)
| POST_project (name : string) (color : option string)
| PUT_project (id : string) (name color : option string)
| DELETE_project (id : string)
| GET_user_profile
| PUT_user_profile (name avatar : option string)
| PUT_user_password (currentPassword newPassword : string)
| DELETE_user_account.

Inductive Call :=
| POST_auth_register (email password : string) (name : option string)
| POST_auth_login (email password : string)
| GET_auth_google_callback (profile : Profile)
| bearer (payload_id : string) (r : Request).

Definition route (e : Env) (userId : string) (r : Request) : Handler :=
  match r with
  | GET_tasks q => tasks_get_all e userId q
  | GET_task id => tasks_get_one userId id
  | POST_task b => tasks_post e userId b
  | PUT_task id b => tasks_put userId id b
  | PATCH_task_toggle id => tasks_toggle userId id
  | DELETE_task id => tasks_delete e userId id
  | PATCH_task_restore id => tasks_restore userId id
  | DELETE_task_permanent id => tasks_delete_permanent userId id
  | GET_projects => projects_get_all userId
  | GET_project id => projects_get_one userId id
  | POST_project name color => projects_post e userId name color
  | PUT_project id name color => projects_put userId id name color
  | DELETE_project id => projects_delete userId id
  | GET_user_profile => user_get_profile userId
  | PUT_user_profile name avatar => user_put_profile userId name avatar
  | PUT_user_password c n => user_put_password e userId c n
  | DELETE_user_account => user_delete_account userId
  end.

Definition step (e : Env) (c : Call) : Handler :=
  λ s,
    match c with
    | POST_auth_register email password name => auth_register e email password name s
    | POST_auth_login email password => auth_login email password s
    | GET_auth_google_callback profile => auth_google_callback e profile s
    | bearer payload_id r =>
        match jwt_verify payload_id s with
        | done_user user => route e (pu_id user) r s
        | _ => (s, error 401 "Unauthorized")
        end
    end.

(** The store after serving the calls of a trace, oldest first. *)
Fixpoint exec (trace : list (Env * Call)) (s : Store) : Store :=
  match trace with
  | [] => s
  | (e, c) :: rest => exec rest (fst (step e c s))
  end.

End WithBcrypt.

(** * Invariants and derived notions *)

(** [p] selects the row [r] of the table and no other. *)
Definition selects {A} (p : A → bool) (rows : list A) (r : A) : Prop :=
  In r rows ∧ p r = true ∧ ∀ x, In x rows → p x = true → x = r.

(** The table with the row that has the id of [t'] replaced by [t']. *)
Definition replace_task (t' : Task.t) (rows : list Task.t) : list Task.t :=
  List.map (λ x, if bool_decide (Task.id x = Task.id t') then t' else x) rows.

(** Primary keys are unique. *)
Definition unique_task_ids (s : Store) : Prop :=
  List.NoDup (List.map Task.id (tasks s)).

Definition unique_project_ids (s : Store) : Prop :=
  List.NoDup (List.map Project.id (projects s)).

(** Data model, section 3: [isDeleted = false] exactly when [deletedAt] is
    null. *)
Definition trash_stamped (s : Store) : Prop :=
  ∀ t, In t (tasks s) → Task.isDeleted t = false ↔ Task.deletedAt t = None.

(** A task's project exists and has the task's owner. *)
Definition project_refs_owned (s : Store) : Prop :=
  ∀ t p, In t (tasks s) → Task.projectId t = Some p →
    ∃ pr, In pr (projects s) ∧ Project.id pr = p ∧ Project.userId pr = Task.userId t.

(** A task with its completion flag negated and nothing else changed. *)
Definition toggled (t : Task.t) : Task.t :=
  Task.mk (Task.id t) (Task.title t) (Task.description t) (Task.dueDate t)
    (Task.priority t) (negb (Task.isComplete t)) (Task.isDeleted t)
    (Task.deletedAt t) (Task.projectId t) (Task.userId t) (Task.createdAt t).

(** A task moved to the trash at time [at_], nothing else changed. *)
Definition trashed (at_ : Z) (t : Task.t) : Task.t :=
  Task.mk (Task.id t) (Task.title t) (Task.description t) (Task.dueDate t)
    (Task.priority t) (Task.isComplete t) true (Some at_)
    (Task.projectId t) (Task.userId t) (Task.createdAt t).

(** A task taken out of the trash, nothing else changed. *)
Definition restored (t : Task.t) : Task.t :=
  Task.mk (Task.id t) (Task.title t) (Task.description t) (Task.dueDate t)
    (Task.priority t) (Task.isComplete t) false None
    (Task.projectId t) (Task.userId t) (Task.createdAt t).

(** A small store used in the examples: one user with an open task, a
    completed task and a task in the trash. *)
Module Sample.
Definition alice : User.t :=
  User.mk "u-alice" "alice@example.com" (Some "$2a$12$hash") None "Alice" None 1.
Definition bob : User.t :=
  User.mk "u-bob" "bob@example.com" None (Some "g-bob") "Bob" None 2.

Definition home : Project.t := Project.mk "p-home" "Home" "#3B82F6" "u-alice" 5.
Definition lab : Project.t := Project.mk "p-lab" "Lab" "#10B981" "u-bob" 6.

Definition open_task : Task.t :=
  Task.mk "t-open" "Write report" None (Some 3000) HIGH
    false false None (Some "p-home") "u-alice" 10.
Definition done_task : Task.t :=
  Task.mk "t-done" "Pay rent" (Some "before the 5th") (Some 2000) LOW
    true false None None "u-alice" 11.
Definition binned_task : Task.t :=
  Task.mk "t-bin" "Old idea" None None MEDIUM
    false true (Some 500) None "u-alice" 12.
Definition bobs_task : Task.t :=
  Task.mk "t-bob" "Calibrate" None (Some 2500) MEDIUM
    false false None (Some "p-lab") "u-bob" 13.

Definition store : Store :=
  mkStore [alice; bob] [home; lab] [open_task; done_task; binned_task; bobs_task].

Definition env : Env := mkEnv 1000 (fixed_zone 0) "fresh-id".
End Sample.

(** The order of section 4.4 in the specification's words: earlier due date
    first, a task without due date after every dated one; then the higher
    priority first; then the later creation time first. *)
Definition due_earlier (a b : option Z) : Prop :=
  match a, b with
  | Some x, Some y => x < y
  | Some _, None => True
  | None, _ => False
  end.

Definition outranks (a b : Priority) : Prop :=
  match a, b with
  | HIGH, MEDIUM | HIGH, LOW | MEDIUM, LOW => True
  | _, _ => False
  end.

Definition listed_before (a b : Task.t) : Prop :=
  due_earlier (Task.dueDate a) (Task.dueDate b)
  ∨ (Task.dueDate a = Task.dueDate b
     ∧ (outranks (Task.priority a) (Task.priority b)
        ∨ (Task.priority a = Task.priority b
           ∧ Task.createdAt b ≤ Task.createdAt a))).

(** The tasks of the ordering example of section 8: due dates
    2024-01-03, none, 2024-01-01 (as days) and priorities LOW, HIGH, HIGH. *)
Module OrderSample.
Definition jan03 : Task.t :=
  Task.mk "a" "third" None (Some (3 * msPerDay)) LOW false false None None "u" 1.
Definition undated : Task.t :=
  Task.mk "b" "someday" None None HIGH false false None None "u" 2.
Definition jan01 : Task.t :=
  Task.mk "c" "first" None (Some (1 * msPerDay)) HIGH false false None None "u" 3.
Definition store : Store := mkStore [] [] [jan03; undated; jan01].
Definition env : Env := mkEnv (1 * msPerDay) (fixed_zone 0) "fresh-id".
End OrderSample.

(** The authentication failures of section 7, as the [info] of [done]. *)
Definition InvalidCredentials : option string := Some "Invalid credentials".
Definition PasswordLoginUnavailable : option string := Some "Please use Google login".

(** The password hash of an account, if it has one (an empty column counts
    as none, as in [!user.password]). *)
Definition stored_hash (u : User.t) : option string :=
  match User.password u with
  | Some h => if truthy h then Some h else None
  | None => None
  end.

(** The unique columns of the user table hold distinct values. *)
Definition unique_users (s : Store) : Prop :=
  List.NoDup (List.map User.id (users s))
  ∧ (∀ u v, In u (users s) → In v (users s) →
       User.email u = User.email v → u = v)
  ∧ ∀ u v g, In u (users s) → In v (users s) →
      User.googleId u = Some g → User.googleId v = Some g → u = v.

(** The table with the row that has the id of [u'] replaced by [u']. *)
Definition replace_user (u' : User.t) (rows : list User.t) : list User.t :=
  List.map (λ x, if bool_decide (User.id x = User.id u') then u' else x) rows.

(** [profile.photos[0]?.value] written over an avatar: an absent photo
    leaves the avatar as it is. *)
Definition avatar_from (profile : Profile) (old : option string) : option string :=
  match head (photos profile) with
  | Some a => Some a
  | None => old
  end.

(** The account [u] after a login that matched its external id. *)
Definition refreshed (profile : Profile) (email : string) (u : User.t) : User.t :=
  User.mk (User.id u) email (User.password u) (User.googleId u)
    (displayName profile) (avatar_from profile (User.avatar u)) (User.createdAt u).

(** The account [u] after a login that matched its email. *)
Definition linked (profile : Profile) (u : User.t) : User.t :=
  User.mk (User.id u) (User.email u) (User.password u) (Some (pr_id profile))
    (displayName profile) (avatar_from profile (User.avatar u)) (User.createdAt u).

(** The account created by a login that matched nothing. *)
Definition created (e : Env) (profile : Profile) (email : string) : User.t :=
  User.mk (newId e) email None (Some (pr_id profile))
    (displayName profile) (head (photos profile)) (now e).

Module AuthSample.
(** Bob's Google account now reports Alice's address. *)
Definition bob_as_alice : Profile :=
  mkProfile "g-bob" "Bob" [] ["alice@example.com"].
(** Alice signs in with Google for the first time. *)
Definition alice_google : Profile :=
  mkProfile "g-alice" "Alice A." ["https://img/alice.png"] ["alice@example.com"].
(** A newcomer. *)
Definition carol_google : Profile :=
  mkProfile "g-carol" "Carol" [] ["carol@example.com"].
(** Bob again, nothing changed upstream but the name. *)
Definition bob_google : Profile :=
  mkProfile "g-bob" "Robert" [] ["bob@example.com"].
(** A stand-in for [bcrypt.compare]. *)
Definition compare (password hash : string) : bool :=
  bool_decide (password = "secret") && bool_decide (hash = "$2a$12$hash").
End AuthSample.

(** The handlers that address one task by id, and those that address one
    project by id, as functions of the acting user and the id. *)
Definition task_handlers (e : Env) (b : TaskPut) : list (string → string → Handler) :=
  [ tasks_get_one;
    (λ userId id, tasks_put userId id b);
    tasks_toggle;
    tasks_delete e;
    tasks_restore;
    tasks_delete_permanent ].

Definition project_handlers (name color : option string)
  : list (string → string → Handler) :=
  [ projects_get_one;
    (λ userId id, projects_put userId id name color);
    projects_delete ].

(** The handlers that take a project id inside the request. *)
Definition project_referrers (e : Env) (bp : TaskPost) (taskId : string) (bu : TaskPut)
    (q : Query) : list (string → string → Handler) :=
  [ (λ userId p,
       tasks_post e userId
         (mkTaskPost (tp_title bp) (tp_description bp) (tp_dueDate bp)
            (tp_priority bp) (Some p)));
    (λ userId p,
       tasks_put userId taskId
         (mkTaskPut (tu_title bu) (tu_description bu) (tu_dueDate bu)
            (tu_priority bu) (tu_isComplete bu) (Some p)));
    (λ userId p,
       tasks_get_all e userId
         (mkQuery (q_status q) (q_priority q) (Some p) (q_search q) (q_view q))) ].

(** What every store reached by the server satisfies. *)
Record wf (s : Store) : Prop := mk_wf {
  wf_task_ids : unique_task_ids s;
  wf_project_ids : unique_project_ids s;
  wf_users : unique_users s;
  wf_refs : project_refs_owned s;
  wf_trash : trash_stamped s
}.

(** No task points at a project that is not in the store. *)
Definition no_dangling (s : Store) : Prop :=
  ∀ t p, In t (tasks s) → Task.projectId t = Some p →
    ∃ pr, In pr (projects s) ∧ Project.id pr = p.

(** A task with its project reference cleared, nothing else changed. *)
Definition detached (t : Task.t) : Task.t :=
  Task.mk (Task.id t) (Task.title t) (Task.description t) (Task.dueDate t)
    (Task.priority t) (Task.isComplete t) (Task.isDeleted t) (Task.deletedAt t)
    None (Task.userId t) (Task.createdAt t).


(** The query [q] with its search text replaced. *)
Definition with_search (search : option string) (q : Query) : Query :=
  mkQuery (q_status q) (q_priority q) (q_projectId q) search (q_view q).

(** The columns of a task that no update of its fields reaches. *)
Definition frozen (t : Task.t) : string * string * Z * bool * option Z :=
  (Task.id t, Task.userId t, Task.createdAt t, Task.isDeleted t, Task.deletedAt t).

(** The row stored by [POST /api/tasks]. *)
Definition new_task (e : Env) (userId : string) (b : TaskPost) : Task.t :=
  Task.mk (newId e) (trim (tp_title b)) (trim <$> tp_description b)
    (tp_dueDate b) (default MEDIUM (tp_priority b))
    false false None (tp_projectId b) userId (now e).

Definition empty_put : TaskPut := mkTaskPut None None None None None None.

(** The rows of the store that do not belong to user [A]. *)
Definition foreign_tasks (A : string) (s : Store) : list Task.t :=
  List.filter (λ t, negb (bool_decide (Task.userId t = A))) (tasks s).

Definition foreign_projects (A : string) (s : Store) : list Project.t :=
  List.filter (λ p, negb (bool_decide (Project.userId p = A))) (projects s).

Definition other_users (A : string) (s : Store) : list User.t :=
  List.filter (λ u, negb (bool_decide (User.id u = A))) (users s).

(** The statistics carried by a profile response, if it is one. *)
Definition stats_of (r : Response) : option Stats :=
  match body r with
  | J_profile _ _ st => Some st
  | _ => None
  end.

(** The rows carried by a project listing, if the response is one. *)
Definition rows_of (r : Response) : list ProjectRow :=
  match body r with
  | J_projects ps => ps
  | _ => []
  end.

(** The row stored by [POST /api/projects]. *)
Definition new_project (e : Env) (userId name : string) (color : option string)
  : Project.t :=
  Project.mk (newId e) (trim name) (default "#3B82F6" color) userId (now e).

(** The tasks shown with a project: those that refer to it and are not in
    the trash. *)
Definition shown_in_project (id : string) (t : Task.t) : Prop :=
  Task.projectId t = Some id ∧ Task.isDeleted t = false.

(** The row stored by [POST /api/auth/register]. *)
Definition registered (bcrypt_hash : string → string → string) (salt : Env → string)
    (e : Env) (email password : string) (name : option string) : User.t :=
  User.mk (newId e) (toLowerCase email) (Some (bcrypt_hash (salt e) password)) None
    (match name with
     | Some n => if truthy n then n else before_at email
     | None => before_at email
     end)
    None (now e).

(** The account [u] with its password hash replaced. *)
Definition with_password (hash : string) (u : User.t) : User.t :=
  User.mk (User.id u) (User.email u) (Some hash) (User.googleId u)
    (User.name u) (User.avatar u) (User.createdAt u).

(** ** The seed script *)

(** A script statement: it may write to the store and either yields a value
    or throws ([None]); the writes made before a throw stay. *)
Definition Script (A : Type) : Type := Store → Store * option A.

Definition script_ret {A} (a : A) : Script A := λ s, (s, Some a).

Definition script_bind {A B} (m : Script A) (k : A → Script B) : Script B :=
  λ s,
    match m s with
    | (s', Some a) => k a s'
    | (s', None) => (s', None)
    end.

Notation "x <-- m ;; k" := (script_bind m (λ x, k))
  (at level 100, m at next level, right associativity).

(** [prisma.x.upsert({ where, update: {}, create })]: the row selected by
    the unique key is returned as it is; without one, the row is created. *)
Definition upsert {A} (p : A → bool) (create : list A → option (list A))
    (r : A) (rows : list A) : option (list A * A) :=
  match findFirst p rows with
  | Some found => Some (rows, found)
  | None => (λ rows', (rows', r)) <$> create rows
  end.

Definition user_upsert (email : string) (u : User.t) : Script User.t :=
  λ s,
    match upsert (user_email_is email) (user_create u) u (users s) with
    | Some (us, r) => (with_users us s, Some r)
    | None => (s, None)
    end.

Definition project_upsert (p : Project.t) : Script Project.t :=
  λ s,
    match upsert (project_is (Project.id p)) (project_create p) p (projects s) with
    | Some (ps, r) => (with_projects ps s, Some r)
    | None => (s, None)
    end.

Definition task_upsert (t : Task.t) : Script Task.t :=
  λ s,
    match upsert (task_is (Task.id t)) (task_create t) t (tasks s) with
    | Some (ts, r) => (with_tasks ts s, Some r)
    | None => (s, None)
    end.

(** A row of the seed: not deleted, with the stated fields. *)
Definition seed_task (e : Env) (id title description : string) (dueDate : Z)
    (priority : Priority) (isComplete : bool) (userId projectId : string) : Task.t :=
  Task.mk id title (Some description) (Some dueDate) priority isComplete
    false None (Some projectId) userId (now e).

(** [main()].  One clock reading and one generated user id serve the whole
    run. *)
Definition seed (bcrypt_hash : string → string → string) (salt : Env → string)
    (e : Env) : Script unit :=
  let hashedPassword := bcrypt_hash (salt e) "demo123" in
  demoUser <-- user_upsert "demo@taskflow.com"
                 (User.mk (newId e) "demo@taskflow.com" (Some hashedPassword) None
                    "Demo User" None (now e)) ;;
  workProject <-- project_upsert
                    (Project.mk "clx1234567890work" "Work Projects" "#3B82F6"
                       (User.id demoUser) (now e)) ;;
  personalProject <-- project_upsert
                        (Project.mk "clx1234567890personal" "Personal Tasks" "#10B981"
                           (User.id demoUser) (now e)) ;;
  let today := now e in
  let tomorrow := setDate_plus e 1 today in
  let nextWeek := setDate_plus e 7 today in
  _ <-- task_upsert
          (seed_task e "clx1234567890task1" "Review project proposal"
             "Go through the Q4 project proposal and provide feedback"
             today HIGH false (User.id demoUser) (Project.id workProject)) ;;
  _ <-- task_upsert
          (seed_task e "clx1234567890task2" "Team meeting preparation"
             "Prepare slides for weekly team meeting"
             tomorrow MEDIUM false (User.id demoUser) (Project.id workProject)) ;;
  _ <-- task_upsert
          (seed_task e "clx1234567890task3" "Buy groceries"
             "Milk, eggs, bread, vegetables"
             today LOW false (User.id demoUser) (Project.id personalProject)) ;;
  _ <-- task_upsert
          (seed_task e "clx1234567890task4" "Book dentist appointment"
             "Schedule routine checkup"
             nextWeek MEDIUM false (User.id demoUser) (Project.id personalProject)) ;;
  _ <-- task_upsert
          (seed_task e "clx1234567890task5" "Complete online course"
             "Finish React advanced patterns module"
             nextWeek HIGH true (User.id demoUser) (Project.id workProject)) ;;
  script_ret tt.

(** [l] is [l0] with rows added at the end. *)
Definition extends {A} (l0 l : list A) : Prop := ∃ added, l = (l0 ++ added)%list.

(** Every table of [s'] is the table of [s] with rows added at the end. *)
Definition grows (s s' : Store) : Prop :=
  extends (users s) (users s') ∧ extends (projects s) (projects s')
  ∧ extends (tasks s) (tasks s').

(** A run of the server from the empty store: a user registers, creates a
    project, a task in it and a task outside it. *)
Module ProjectRun.
Definition hash (salt password : string) : string := "#" +:+ password.
Definition compare (password hashed : string) : bool :=
  bool_decide (hashed = "#" +:+ password).
Definition at_ (t : Z) (id : string) : Env := mkEnv t (fixed_zone 0) id.

Definition trace : list (Env * Call) :=
  [ (at_ 1 "u-ann", POST_auth_register "ann@example.com" "secret1" None);
    (at_ 2 "p-home", bearer "u-ann" (POST_project "Home" None));
    (at_ 3 "t-paint",
     bearer "u-ann"
       (POST_task (mkTaskPost "Paint the fence" None None None (Some "p-home"))));
    (at_ 4 "t-read",
     bearer "u-ann" (POST_task (mkTaskPost "Read" None (Some 9) (Some LOW) None))) ].

Definition store : Store := exec hash compare (λ _, "salt") trace empty_store.
Definition home : Project.t := Project.mk "p-home" "Home" "#3B82F6" "u-ann" 2.
End ProjectRun.

(** * Facts about the primitives *)

Section PrismaFacts.
Context {A : Type}.
Implicit Types (p : A → bool) (f : A → A) (rows : list A) (r : A).

Lemma findFirst_Some p rows r :
  findFirst p rows = Some r → In r rows ∧ p r = true.
Proof. apply find_some. Qed.

Lemma findFirst_None p rows :
  findFirst p rows = None ↔ ∀ x, In x rows → p x = false.
Proof.
  split; [intros H x; by apply find_none|].
  induction rows as [|r rs IH]; simpl; [done|]; intros H.
  rewrite (H r) by auto. auto.
Qed.

Lemma selects_findFirst p rows r :
  selects p rows r → findFirst p rows = Some r.
Proof.
  intros (Hin & Hp & Huniq).
  destruct (findFirst p rows) as [x|] eqn:E.
  - apply findFirst_Some in E as [? ?]. f_equal. auto.
  - rewrite findFirst_None in E. rewrite (E r Hin) in Hp. done.
Qed.

Lemma selects_tail p r0 rs r :
  List.NoDup (r0 :: rs) → selects p (r0 :: rs) r → p r0 = false → selects p rs r.
Proof.
  intros _ (Hin & Hp & Huniq) H0. split_and!; [|done|].
  - destruct Hin as [->|]; [congruence|done].
  - intros x Hx. apply Huniq. by right.
Qed.

Lemma selects_head_only p r0 rs r :
  List.NoDup (r0 :: rs) → selects p (r0 :: rs) r → p r0 = true →
  r0 = r ∧ ∀ x, In x rs → p x = false.
Proof.
  intros Hnd (Hin & Hp & Huniq) H0.
  assert (r0 = r) as <- by (apply Huniq; [by left|done]).
  split; [done|]. intros x Hx.
  destruct (p x) eqn:E; [|done].
  assert (x = r0) as -> by (apply Huniq; [by right|done]).
  by inversion Hnd.
Qed.

Lemma updateMany_none p f rows :
  (∀ x, In x rows → p x = false) → updateMany p f rows = rows.
Proof.
  intros H. unfold updateMany. rewrite <-(map_id rows) at 2.
  apply map_ext_in. intros x Hx. by rewrite (H x Hx).
Qed.

Lemma update_updateMany p f rows r :
  List.NoDup rows → selects p rows r →
  update p f rows = Some (updateMany p f rows, f r).
Proof.
  induction rows as [|r0 rs IH]; intros Hnd Hsel.
  - by destruct Hsel as ([] & _).
  - simpl. destruct (p r0) eqn:E.
    + destruct (selects_head_only _ _ _ _ Hnd Hsel E) as [-> Hrest].
      by rewrite (updateMany_none _ _ _ Hrest).
    + rewrite IH; [done|by inversion Hnd|by eapply selects_tail].
Qed.

Lemma deleteMany_none p rows :
  (∀ x, In x rows → p x = false) → deleteMany p rows = rows.
Proof.
  intros H. unfold deleteMany. induction rows as [|r0 rs IH]; simpl; [done|].
  rewrite (H r0) by (by left). simpl. f_equal. apply IH. intros x Hx. apply H. by right.
Qed.

Lemma delete_deleteMany p rows r :
  List.NoDup rows → selects p rows r →
  delete p rows = Some (deleteMany p rows).
Proof.
  induction rows as [|r0 rs IH]; intros Hnd Hsel.
  - by destruct Hsel as ([] & _).
  - assert (deleteMany p (r0 :: rs)
            = if p r0 then deleteMany p rs else r0 :: deleteMany p rs) as ->
      by (unfold deleteMany; simpl; by destruct (p r0)).
    simpl. destruct (p r0) eqn:E.
    + destruct (selects_head_only _ _ _ _ Hnd Hsel E) as [-> Hrest].
      by rewrite (deleteMany_none _ _ Hrest).
    + rewrite IH; [done|by inversion Hnd|by eapply selects_tail].
Qed.

Lemma update_Some_inv p f rows rows' r' :
  update p f rows = Some (rows', r') →
  ∃ r, findFirst p rows = Some r ∧ r' = f r ∧
       length rows' = length rows ∧
       ∀ x, In x rows' → x = f r ∨ In x rows.
Proof.
  revert rows'. induction rows as [|r0 rs IH]; intros rows'; simpl; [done|].
  destruct (p r0) eqn:E.
  - intros [= <- <-]. exists r0. split_and!; [done..|].
    intros x [<-|?]; [by left|right; by right].
  - destruct (update p f rs) as [[rs' r1]|]; [|done].
    intros [= <- <-]. destruct (IH _ eq_refl) as (r & ? & ? & ? & Hin).
    exists r. split_and!; [done|done|simpl; congruence|].
    intros x [<-|Hx]; [right; by left|].
    destruct (Hin x Hx); [by left|right; by right].
Qed.

Lemma update_is_Some p f rows r :
  findFirst p rows = Some r → is_Some (update p f rows).
Proof.
  induction rows as [|r0 rs IH]; simpl; [done|].
  destruct (p r0); [eauto|]. intros H. destruct (IH H) as [[??] ->]. eauto.
Qed.

Lemma delete_is_Some p rows r :
  findFirst p rows = Some r → is_Some (delete p rows).
Proof.
  induction rows as [|r0 rs IH]; simpl; [done|].
  destruct (p r0); [eauto|]. intros H. destruct (IH H) as [? ->]. eauto.
Qed.

Lemma delete_Some_incl p rows rows' :
  delete p rows = Some rows' → ∀ x, In x rows' → In x rows.
Proof.
  revert rows'. induction rows as [|r0 rs IH]; intros rows'; simpl; [done|].
  destruct (p r0).
  - intros [= <-] x ?. by right.
  - destruct (delete p rs) as [rs'|]; [|done].
    intros [= <-] x [<-|?]; [by left|right; eauto].
Qed.

Lemma In_updateMany p f rows y :
  In y (updateMany p f rows) ↔
  ∃ x, In x rows ∧ y = if p x then f x else x.
Proof.
  unfold updateMany. rewrite in_map_iff.
  split; intros (x & ? & ?); exists x; auto.
Qed.

Lemma In_deleteMany p rows y :
  In y (deleteMany p rows) ↔ In y rows ∧ p y = false.
Proof.
  unfold deleteMany. rewrite filter_In. by rewrite negb_true_iff.
Qed.
End PrismaFacts.

(** Rows with distinct keys are distinct rows, and a key selects its row. *)
Lemma NoDup_key_rows {A K} (key : A → K) (rows : list A) :
  List.NoDup (List.map key rows) → List.NoDup rows.
Proof. apply NoDup_map_inv. Qed.

Lemma key_selects {A K} (key : A → K) (p : A → bool) (rows : list A) (r : A) :
  List.NoDup (List.map key rows) → In r rows → p r = true →
  (∀ x, p x = true → key x = key r) → selects p rows r.
Proof.
  intros Hnd Hin Hp Hkey. split_and!; [done..|].
  intros x Hx Hpx. specialize (Hkey x Hpx).
  induction rows as [|r0 rs IH]; [done|].
  simpl in Hnd. inversion Hnd as [|?? Hnotin Hnd']; subst.
  destruct Hx as [->|Hx], Hin as [->|Hin]; auto.
  - exfalso. apply Hnotin. rewrite Hkey. by apply in_map.
  - exfalso. apply Hnotin. rewrite <-Hkey. by apply in_map.
Qed.

(** * Facts about the task table *)

Lemma task_is_spec id t : task_is id t = true ↔ Task.id t = id.
Proof.
  unfold task_is, Where.matches; simpl.
  by rewrite !andb_true_r, bool_decide_eq_true.
Qed.

Lemma task_owned_spec id userId t :
  task_owned id userId t = true ↔ Task.id t = id ∧ Task.userId t = userId.
Proof.
  unfold task_owned, Where.matches; simpl.
  by rewrite !andb_true_r, andb_true_iff, !bool_decide_eq_true.
Qed.

Lemma task_in_trash_spec id userId t :
  task_in_trash id userId t = true ↔
  Task.id t = id ∧ Task.userId t = userId ∧ Task.isDeleted t = true.
Proof.
  unfold task_in_trash, Where.matches; simpl.
  rewrite !andb_true_r, !andb_true_iff, !bool_decide_eq_true. tauto.
Qed.

Lemma task_in_project_spec p t :
  task_in_project p t = true ↔ Task.projectId t = Some p.
Proof.
  unfold task_in_project, Where.matches; simpl.
  by rewrite !andb_true_r, bool_decide_eq_true.
Qed.

Lemma project_is_spec id p : project_is id p = true ↔ Project.id p = id.
Proof. unfold project_is. by rewrite bool_decide_eq_true. Qed.

Lemma project_owned_spec id userId p :
  project_owned id userId p = true ↔ Project.id p = id ∧ Project.userId p = userId.
Proof. unfold project_owned. by rewrite andb_true_iff, !bool_decide_eq_true. Qed.

Section TaskTable.
Variable s : Store.
Variable t : Task.t.
Hypothesis Hids : unique_task_ids s.
Hypothesis Hin : In t (tasks s).

Lemma task_is_selects : selects (task_is (Task.id t)) (tasks s) t.
Proof.
  apply (key_selects Task.id); [done|done|by apply task_is_spec|].
  intros x. by rewrite task_is_spec.
Qed.

Lemma find_task_owned :
  findFirst (task_owned (Task.id t) (Task.userId t)) (tasks s) = Some t.
Proof.
  apply selects_findFirst, (key_selects Task.id); [done|done|by apply task_owned_spec|].
  intros x. rewrite task_owned_spec. tauto.
Qed.

Lemma find_task_not_owned userId :
  Task.userId t ≠ userId →
  findFirst (task_owned (Task.id t) userId) (tasks s) = None.
Proof.
  intros Hne. apply findFirst_None. intros x Hx.
  destruct (task_owned _ _ x) eqn:E; [|done].
  apply task_owned_spec in E as [Hid Hu].
  assert (x = t) as ->; [|done].
  eapply task_is_selects; [done|by apply task_is_spec].
Qed.

Lemma find_task_in_trash :
  Task.isDeleted t = true →
  findFirst (task_in_trash (Task.id t) (Task.userId t)) (tasks s) = Some t.
Proof.
  intros Hdel.
  apply selects_findFirst, (key_selects Task.id); [done|done|by apply task_in_trash_spec|].
  intros x. rewrite task_in_trash_spec. tauto.
Qed.

Lemma find_task_not_in_trash userId :
  Task.isDeleted t = false ∨ Task.userId t ≠ userId →
  findFirst (task_in_trash (Task.id t) userId) (tasks s) = None.
Proof.
  intros Hdel. apply findFirst_None. intros x Hx.
  destruct (task_in_trash _ _ x) eqn:E; [|done].
  apply task_in_trash_spec in E as (Hid & Hu & Hd).
  assert (x = t) as ->; [|destruct Hdel; congruence].
  eapply task_is_selects; [done|by apply task_is_spec].
Qed.

Lemma update_task f :
  Task.id (f t) = Task.id t →
  update (task_is (Task.id t)) f (tasks s)
  = Some (replace_task (f t) (tasks s), f t).
Proof.
  intros Hid.
  rewrite (update_updateMany _ _ _ t);
    [|by eapply NoDup_key_rows|apply task_is_selects].
  do 2 f_equal. unfold updateMany, replace_task.
  apply map_ext_in. intros x Hx. rewrite Hid.
  destruct (task_is _ x) eqn:E.
  - assert (x = t) as -> by (by eapply task_is_selects).
    by rewrite bool_decide_true.
  - rewrite bool_decide_false; [done|].
    intros Hx'. apply task_is_spec in Hx'. congruence.
Qed.

Lemma delete_task :
  delete (task_is (Task.id t)) (tasks s)
  = Some (deleteMany (task_is (Task.id t)) (tasks s)).
Proof.
  apply (delete_deleteMany _ _ t); [by eapply NoDup_key_rows|apply task_is_selects].
Qed.
End TaskTable.

Lemma replace_task_id t rows :
  List.map Task.id (replace_task t rows) = List.map Task.id rows.
Proof.
  unfold replace_task. rewrite map_map. apply map_ext. intros x.
  by case_bool_decide.
Qed.

Lemma replace_task_back t t' rows :
  List.NoDup (List.map Task.id rows) → In t rows → Task.id t' = Task.id t →
  replace_task t (replace_task t' rows) = rows.
Proof.
  intros Hnd Hin Hid. unfold replace_task. rewrite map_map.
  rewrite <-(map_id rows) at 2. apply map_ext_in. intros x Hx.
  rewrite Hid. destruct (bool_decide (Task.id x = Task.id t)) eqn:E.
  - rewrite Hid, bool_decide_true by done.
    apply bool_decide_eq_true in E. symmetry.
    eapply (key_selects Task.id (task_is (Task.id t))); eauto.
    + by apply task_is_spec.
    + intros y. by rewrite task_is_spec.
    + by apply task_is_spec.
  - by rewrite E.
Qed.

Lemma In_replace_task t t' rows :
  List.NoDup (List.map Task.id rows) → In t rows → Task.id t' = Task.id t →
  In t' (replace_task t' rows).
Proof.
  intros _ Hin Hid. unfold replace_task. apply in_map_iff. exists t.
  by rewrite bool_decide_true.
Qed.

Lemma with_tasks_same s : with_tasks (tasks s) s = s.
Proof. by destruct s. Qed.

Lemma include_project_with_tasks ts s t :
  include_project (with_tasks ts s) t = include_project s t.
Proof. done. Qed.

(** * The trash lifecycle of a task *)

Lemma apply_toggle t :
  Task.apply (data_isComplete (negb (Task.isComplete t))) t = toggled t.
Proof. done. Qed.

Lemma apply_trash at_ t :
  Task.apply (data_trash true (Some at_)) t = trashed at_ t.
Proof. done. Qed.

Lemma apply_restore t :
  Task.apply (data_trash false None) t = restored t.
Proof. done. Qed.

Lemma restored_trashed at_ t :
  Task.isDeleted t = false → Task.deletedAt t = None → restored (trashed at_ t) = t.
Proof. destruct t; simpl; intros -> ->; done. Qed.

Lemma list_where_completed_incomplete e userId pr pj se :
  list_where e userId (mkQuery (Some Status.incomplete) pr pj se (Some View.completed))
  = list_where e userId (mkQuery (Some Status.incomplete) pr pj se None).
Proof. by destruct pr, pj, se. Qed.

Lemma list_tasks_matches e userId q s x :
  In x (list_tasks e userId q s) ↔
  In x (tasks s) ∧ Where.matches (list_where e userId q) x = true.
Proof.
  unfold list_tasks, findMany_orderBy, findMany.
  rewrite <-filter_In. split; apply Permutation_in;
    [|symmetry]; apply merge_sort_Permutation.
Qed.

(** The other views do conjoin the status filter: in the trash view with
    [status=incomplete] every listed task is both deleted and incomplete. *)
Lemma trash_view_conjoins_status e userId pr pj se s x :
  In x (list_tasks e userId
          (mkQuery (Some Status.incomplete) pr pj se (Some View.trash)) s) →
  Task.isDeleted x = true ∧ Task.isComplete x = false.
Proof.
  rewrite list_tasks_matches. intros [_ Hm]. revert Hm.
  unfold list_where, Where.matches.
  destruct pr, pj, se as [se|]; simpl; try destruct (truthy se); simpl;
    rewrite !andb_true_iff, !bool_decide_eq_true; tauto.
Qed.

(** C1.  With [view=completed] and [status=incomplete] the handler does not
    return the empty sequence: the assignment [where.isComplete = false] of
    the status filter replaces the [where.isComplete = true] of the view, so
    the listing is the one of [status=incomplete] without any view, and the
    open task of the owner comes back. *)
Theorem C1_completed_view_returns_open_task :
  (∀ e userId pr pj se s,
     list_tasks e userId
       (mkQuery (Some Status.incomplete) pr pj se (Some View.completed)) s
     = list_tasks e userId (mkQuery (Some Status.incomplete) pr pj se None) s)
  ∧ list_tasks Sample.env "u-alice"
      (mkQuery (Some Status.incomplete) None None None (Some View.completed))
      Sample.store
    = [Sample.open_task]
  ∧ Task.isComplete Sample.open_task = false.
Proof.
  split_and!.
  - intros e userId pr pj se s. unfold list_tasks.
    by rewrite list_where_completed_incomplete.
  - vm_compute. reflexivity.
  - reflexivity.
Qed.

(** C2, as stated, fails: toggling a task that lies in the trash flips its
    completion flag. *)
Lemma C2_toggle_changes_binned_task :
  In Sample.binned_task (tasks Sample.store)
  ∧ Task.isDeleted Sample.binned_task = true
  ∧ Task.isComplete Sample.binned_task = false
  ∧ tasks (fst (tasks_toggle "u-alice" "t-bin" Sample.store))
    = [Sample.open_task; Sample.done_task;
       Task.mk "t-bin" "Old idea" None None MEDIUM true true (Some 500) None "u-alice" 12;
       Sample.bobs_task]
  ∧ fst (tasks_toggle "u-alice" "t-bin" Sample.store) ≠ Sample.store.
Proof.
  split_and!; [simpl; tauto|done|done|by vm_compute|].
  intros H. apply (f_equal tasks) in H. vm_compute in H. discriminate H.
Qed.

(** C2, amended.  Toggling does not look at the soft-delete flag: for every
    task of the acting user, in the trash or not, it negates the completion
    flag of that row and leaves every other field and every other row as
    they were. *)
Theorem C2_toggle_flips_any_owned_task s t :
  unique_task_ids s → In t (tasks s) →
  tasks_toggle (Task.userId t) (Task.id t) s
  = (with_tasks (replace_task (toggled t) (tasks s)) s,
     json (J_task_message (include_project s (toggled t))
             ("Task marked as " +:+
              (if negb (Task.isComplete t) then "complete" else "incomplete")))).
Proof.
  intros Hids Hin. unfold tasks_toggle.
  rewrite find_task_owned by done.
  rewrite update_task by done.
  by rewrite apply_toggle.
Qed.

Ltac solve_NoDup :=
  repeat (constructor; [simpl; intuition discriminate|]); constructor.

Lemma Sample_unique_task_ids : unique_task_ids Sample.store.
Proof. unfold unique_task_ids; simpl. solve_NoDup. Qed.

Lemma C2_toggle_flips_any_owned_task_witness :
  unique_task_ids Sample.store
  ∧ In Sample.binned_task (tasks Sample.store)
  ∧ tasks_toggle "u-alice" "t-bin" Sample.store
    = (with_tasks (replace_task (toggled Sample.binned_task) (tasks Sample.store))
         Sample.store,
       json (J_task_message (include_project Sample.store (toggled Sample.binned_task))
               "Task marked as complete")).
Proof.
  split; [unfold unique_task_ids; simpl; solve_NoDup|].
  split; [simpl; tauto|].
  apply (C2_toggle_flips_any_owned_task Sample.store Sample.binned_task).
  - unfold unique_task_ids; simpl; solve_NoDup.
  - simpl; tauto.
Defined.

(** C3.  Purge and restore are refused outside the trash: for a task that is
    not soft-deleted both answer [NotInTrash] and leave the store as it is.
    For a task in the trash, purge removes the row, and fetching its id
    afterwards answers [NotFound]. *)
Theorem C3_purge_restore_only_from_trash s t :
  unique_task_ids s → In t (tasks s) →
  (Task.isDeleted t = false →
     tasks_delete_permanent (Task.userId t) (Task.id t) s = (s, NotInTrash)
     ∧ tasks_restore (Task.userId t) (Task.id t) s = (s, NotInTrash))
  ∧ (Task.isDeleted t = true →
     let s' := with_tasks (deleteMany (task_is (Task.id t)) (tasks s)) s in
     tasks_delete_permanent (Task.userId t) (Task.id t) s
       = (s', json (J_message "Task permanently deleted"))
     ∧ (∀ x, In x (tasks s') → Task.id x ≠ Task.id t)
     ∧ (∀ x, In x (tasks s) → Task.id x ≠ Task.id t → In x (tasks s'))
     ∧ ∀ userId, tasks_get_one userId (Task.id t) s' = (s', NotFound_task)).
Proof.
  intros Hids Hin. split; intros Hdel.
  - unfold tasks_delete_permanent, tasks_restore.
    rewrite find_task_not_in_trash by auto. done.
  - simpl. unfold tasks_delete_permanent.
    rewrite find_task_in_trash, delete_task by done.
    split_and!; [done|..].
    + intros x Hx. apply In_deleteMany in Hx as [_ Hx]. intros Hid.
      apply task_is_spec in Hid. congruence.
    + intros x Hx Hid. apply In_deleteMany. split; [done|].
      destruct (task_is _ x) eqn:E; [|done]. by apply task_is_spec in E.
    + intros userId. unfold tasks_get_one.
      replace (findFirst _ _) with (@None Task.t); [done|].
      symmetry. apply findFirst_None. simpl. intros x Hx.
      apply In_deleteMany in Hx as [_ Hx].
      destruct (task_owned _ _ x) eqn:E; [|done].
      apply task_owned_spec in E as [E _]. apply task_is_spec in E. congruence.
Qed.

Lemma C3_purge_restore_only_from_trash_witness :
  unique_task_ids Sample.store
  ∧ In Sample.open_task (tasks Sample.store)
  ∧ In Sample.binned_task (tasks Sample.store)
  ∧ tasks_delete_permanent "u-alice" "t-open" Sample.store = (Sample.store, NotInTrash)
  ∧ tasks_restore "u-alice" "t-open" Sample.store = (Sample.store, NotInTrash)
  ∧ tasks_get_one "u-alice" "t-bin"
      (fst (tasks_delete_permanent "u-alice" "t-bin" Sample.store))
    = (fst (tasks_delete_permanent "u-alice" "t-bin" Sample.store), NotFound_task).
Proof.
  assert (Hids : unique_task_ids Sample.store)
    by (unfold unique_task_ids; simpl; solve_NoDup).
  assert (Hopen : In Sample.open_task (tasks Sample.store)) by (simpl; tauto).
  assert (Hbin : In Sample.binned_task (tasks Sample.store)) by (simpl; tauto).
  destruct (C3_purge_restore_only_from_trash _ _ Hids Hopen) as [Hactive _].
  destruct (C3_purge_restore_only_from_trash _ _ Hids Hbin) as [_ Htrash].
  destruct (Hactive eq_refl) as [Hpurge Hrestore].
  destruct (Htrash eq_refl) as (Hgone & _ & _ & Hfetch).
  split_and!; [done|done|done|exact Hpurge|exact Hrestore|].
  change (Task.userId Sample.binned_task) with "u-alice" in Hgone.
  change (Task.id Sample.binned_task) with "t-bin" in Hgone, Hfetch.
  rewrite Hgone. simpl fst. apply Hfetch.
Defined.

(** C4.  Soft delete followed by restore is a round trip on an active task:
    the delete stamps the row ([isDeleted = true], [deletedAt = now], the
    other fields kept); the restore then answers with the original task
    ([isDeleted = false], [deletedAt = null], [isComplete] as before) and
    the store is the one before the delete. *)
Theorem C4_soft_delete_restore_roundtrip e s t :
  unique_task_ids s → trash_stamped s → In t (tasks s) →
  Task.isDeleted t = false →
  let s1 := with_tasks (replace_task (trashed (now e) t) (tasks s)) s in
  tasks_delete e (Task.userId t) (Task.id t) s
    = (s1, json (J_message "Task moved to trash"))
  ∧ In (trashed (now e) t) (tasks s1)
  ∧ tasks_restore (Task.userId t) (Task.id t) s1
    = (s, json (J_task_message (include_project s t) "Task restored successfully"))
  ∧ Task.isDeleted t = false ∧ Task.deletedAt t = None.
Proof.
  intros Hids Hstamp Hin Hactive s1.
  assert (Hnull : Task.deletedAt t = None) by (by apply Hstamp).
  assert (Hids1 : unique_task_ids s1).
  { unfold unique_task_ids, s1; simpl. by rewrite replace_task_id. }
  assert (Hin1 : In (trashed (now e) t) (tasks s1)).
  { by apply (In_replace_task t). }
  split_and!; [|done| |done|done].
  - unfold tasks_delete. rewrite find_task_owned by done.
    rewrite update_task by done. by rewrite apply_trash.
  - unfold tasks_restore.
    pose proof (find_task_in_trash s1 (trashed (now e) t) Hids1 Hin1 eq_refl) as Hf.
    cbn [trashed Task.id Task.userId] in Hf. rewrite Hf.
    pose proof (update_task s1 (trashed (now e) t) Hids1 Hin1
                  (Task.apply (data_trash false None)) eq_refl) as Hu.
    cbn [trashed Task.id Task.userId] in Hu. rewrite Hu.
    rewrite apply_restore, restored_trashed by done.
    unfold s1. simpl. rewrite replace_task_back by done.
    rewrite include_project_with_tasks.
    by destruct s.
Qed.

Lemma Sample_trash_stamped : trash_stamped Sample.store.
Proof.
  intros t Hin. simpl in Hin.
  destruct Hin as [<-|[<-|[<-|[<-|[]]]]]; simpl; split; done.
Qed.

Lemma C4_soft_delete_restore_roundtrip_witness :
  unique_task_ids Sample.store
  ∧ trash_stamped Sample.store
  ∧ In Sample.done_task (tasks Sample.store)
  ∧ Task.isDeleted Sample.done_task = false
  ∧ tasks_restore "u-alice" "t-done"
      (fst (tasks_delete Sample.env "u-alice" "t-done" Sample.store))
    = (Sample.store,
       json (J_task_message (include_project Sample.store Sample.done_task)
               "Task restored successfully")).
Proof.
  assert (Hids : unique_task_ids Sample.store)
    by (unfold unique_task_ids; simpl; solve_NoDup).
  assert (Hstamp : trash_stamped Sample.store).
  { intros t Hin. simpl in Hin.
    destruct Hin as [<-|[<-|[<-|[<-|[]]]]]; simpl; split; done. }
  assert (Hin : In Sample.done_task (tasks Sample.store)) by (simpl; tauto).
  split_and!; [done..|].
  destruct (C4_soft_delete_restore_roundtrip Sample.env _ _ Hids Hstamp Hin eq_refl)
    as (Hdel & _ & Hres & _).
  change (Task.userId Sample.done_task) with "u-alice" in Hdel, Hres.
  change (Task.id Sample.done_task) with "t-done" in Hdel, Hres.
  rewrite Hdel. exact Hres.
Defined.

(** C10.  Soft-deleting a task that is already in the trash is accepted:
    the handler answers with success, the row keeps [isDeleted = true], and
    its [deletedAt] becomes the current time whatever it was before. *)
Theorem C10_soft_delete_again_restamps e s t :
  unique_task_ids s → In t (tasks s) → Task.isDeleted t = true →
  let s' := with_tasks (replace_task (trashed (now e) t) (tasks s)) s in
  tasks_delete e (Task.userId t) (Task.id t) s
    = (s', json (J_message "Task moved to trash"))
  ∧ findFirst (task_is (Task.id t)) (tasks s') = Some (trashed (now e) t)
  ∧ Task.isDeleted (trashed (now e) t) = true
  ∧ Task.deletedAt (trashed (now e) t) = Some (now e).
Proof.
  intros Hids Hin Hdel s'. split_and!; [|  |done|done].
  - unfold tasks_delete. rewrite find_task_owned by done.
    rewrite update_task by done. by rewrite apply_trash.
  - assert (Hids' : unique_task_ids s').
    { unfold unique_task_ids, s'; simpl. by rewrite replace_task_id. }
    apply selects_findFirst.
    apply (task_is_selects s' (trashed (now e) t) Hids').
    by apply (In_replace_task t).
Qed.

Lemma C10_soft_delete_again_restamps_witness :
  unique_task_ids Sample.store
  ∧ In Sample.binned_task (tasks Sample.store)
  ∧ Task.isDeleted Sample.binned_task = true
  ∧ Task.deletedAt Sample.binned_task = Some 500
  ∧ snd (tasks_delete Sample.env "u-alice" "t-bin" Sample.store)
    = json (J_message "Task moved to trash")
  ∧ findFirst (task_is "t-bin")
      (tasks (fst (tasks_delete Sample.env "u-alice" "t-bin" Sample.store)))
    = Some (trashed 1000 Sample.binned_task).
Proof.
  assert (Hids : unique_task_ids Sample.store)
    by (unfold unique_task_ids; simpl; solve_NoDup).
  assert (Hin : In Sample.binned_task (tasks Sample.store)) by (simpl; tauto).
  split_and!; [done..| |].
  - destruct (C10_soft_delete_again_restamps Sample.env _ _ Hids Hin eq_refl)
      as (Hdel & _).
    change (Task.userId Sample.binned_task) with "u-alice" in Hdel.
    change (Task.id Sample.binned_task) with "t-bin" in Hdel.
    by rewrite Hdel.
  - destruct (C10_soft_delete_again_restamps Sample.env _ _ Hids Hin eq_refl)
      as (Hdel & Hfind & _).
    change (Task.userId Sample.binned_task) with "u-alice" in Hdel.
    change (Task.id Sample.binned_task) with "t-bin" in Hdel, Hfind.
    rewrite Hdel. exact Hfind.
Defined.

(** * The order of a task listing *)

Lemma order_le_listed_before a b :
  order_le task_orderBy a b ↔ listed_before a b.
Proof.
  unfold order_le, listed_before, task_orderBy, compare_by, compare_key, directed,
    compare_nullable.
  assert (Hkeys :
    (match
       match CompOpp (Priority_rank (Task.priority a) ?= Priority_rank (Task.priority b)) with
       | Eq => match CompOpp (Task.createdAt a ?= Task.createdAt b) with
               | Eq => Eq | c => c end
       | c => c
       end
     with Gt => False | _ => True end)
    ↔ (outranks (Task.priority a) (Task.priority b)
       ∨ (Task.priority a = Task.priority b
          ∧ Task.createdAt b ≤ Task.createdAt a))).
  { destruct (Task.priority a), (Task.priority b); simpl;
      try (destruct (Z.compare_spec (Task.createdAt a) (Task.createdAt b)); simpl);
      split; intros Hle; try done; try (by left);
      try (right; split; [done|lia]);
      try (destruct Hle as [[]|(? & ?)]; try done; lia). }
  assert (Hgt : ∀ c : comparison, c ≠ Gt ↔ match c with Gt => False | _ => True end)
    by (intros []; split; done).
  destruct (Task.dueDate a) as [x|], (Task.dueDate b) as [y|]; simpl.
  - destruct (Z.compare_spec x y) as [->|?|?].
    + rewrite Hgt, Hkeys. split; [intros ?; right; by split|].
      intros [?|(_ & ?)]; [lia|done].
    + split; [by left|done].
    + split; [done|]. intros [?|(? & _)]; [lia|simplify_eq; lia].
  - split; [by left|done].
  - split; [done|]. by intros [[]|(? & _)].
  - rewrite Hgt, Hkeys. split; [intros ?; right; by split|].
    intros [[]|(_ & ?)]; done.
Qed.

#[local] Instance listed_before_total : Total listed_before.
Proof.
  intros a b. unfold listed_before, due_earlier, outranks.
  destruct (Task.dueDate a) as [x|], (Task.dueDate b) as [y|];
    destruct (Task.priority a), (Task.priority b);
    try (destruct (Z.lt_total x y) as [?|[->|?]]);
    destruct (Z.le_ge_cases (Task.createdAt a) (Task.createdAt b));
    intuition (try done; try lia).
Qed.

#[local] Instance listed_before_trans : Transitive listed_before.
Proof.
  intros a b c. unfold listed_before, due_earlier, outranks.
  destruct (Task.dueDate a) as [x|], (Task.dueDate b) as [y|],
    (Task.dueDate c) as [z|];
    destruct (Task.priority a), (Task.priority b), (Task.priority c);
    intros [?|(? & [?|(? & ?)])] [?|(? & [?|(? & ?)])];
    simplify_eq; try done; try lia;
    try (left; lia); try (right; split; [done|]; first [by left|right; split; [done|lia]]).
Qed.

#[local] Instance order_le_total : Total (order_le task_orderBy).
Proof.
  intros a b. rewrite !order_le_listed_before. apply listed_before_total.
Qed.

Lemma StronglySorted_impl {A} (R1 R2 : relation A) (l : list A) :
  (∀ a b, R1 a b → R2 a b) → StronglySorted R1 l → StronglySorted R2 l.
Proof.
  intros HR. induction 1 as [|a l Hl IH Hall]; constructor; [done|].
  eapply Forall_impl; [exact Hall|]. intros b. apply HR.
Qed.

#[local] Instance order_le_trans : Transitive (order_le task_orderBy).
Proof.
  intros a b c. rewrite !order_le_listed_before. apply listed_before_trans.
Qed.

Lemma list_tasks_sorted e userId q s :
  StronglySorted listed_before (list_tasks e userId q s).
Proof.
  unfold list_tasks, findMany_orderBy.
  eapply StronglySorted_impl; [|by apply StronglySorted_merge_sort; apply _].
  intros a b. apply order_le_listed_before.
Qed.

(** C8.  Whatever the owner, the criteria and the stored tasks, the listing
    is the filtered tasks rearranged so that every task is [listed_before]
    every task after it: due date ascending with undated tasks last, then
    HIGH before MEDIUM before LOW, then the later creation time first.  The
    result is a function of the criteria, the clock and the task table. *)
Theorem C8_listing_is_sorted_by_three_keys e userId q s :
  StronglySorted listed_before (list_tasks e userId q s)
  ∧ list_tasks e userId q s
    ≡ₚ findMany (Where.matches (list_where e userId q)) (tasks s)
  ∧ (∀ s', tasks s' = tasks s →
       list_tasks e userId q s' = list_tasks e userId q s).
Proof.
  split_and!.
  - apply list_tasks_sorted.
  - apply merge_sort_Permutation.
  - intros s' Heq. unfold list_tasks. by rewrite Heq.
Qed.

Example listing_order_sample :
  List.map Task.id (list_tasks OrderSample.env "u" no_query OrderSample.store)
  = ["c"; "a"; "b"]
  ∧ List.map Task.id
      (list_tasks OrderSample.env "u"
         (mkQuery None None None None (Some View.upcoming)) OrderSample.store)
    = ["c"; "a"].
Proof. split; vm_compute; reflexivity. Qed.

(** * Identity resolution *)

Lemma existsb_false {A} (f : A → bool) (l : list A) :
  existsb f l = false ↔ ∀ x, In x l → f x = false.
Proof.
  rewrite <-not_true_iff_false, existsb_exists. split.
  - intros H x Hx. destruct (f x) eqn:E; [|done]. destruct H; eauto.
  - intros H (x & Hx & Hfx). rewrite (H x Hx) in Hfx. done.
Qed.

Lemma user_email_is_spec email u : user_email_is email u = true ↔ User.email u = email.
Proof. unfold user_email_is. by rewrite bool_decide_eq_true. Qed.

Lemma user_googleId_is_spec g u :
  user_googleId_is g u = true ↔ User.googleId u = Some g.
Proof. unfold user_googleId_is. by rewrite bool_decide_eq_true. Qed.

Lemma user_is_spec id u : user_is id u = true ↔ User.id u = id.
Proof. unfold user_is. by rewrite bool_decide_eq_true. Qed.

Lemma email_selects s u :
  unique_users s → In u (users s) →
  selects (user_email_is (User.email u)) (users s) u.
Proof.
  intros (_ & Hemails & _) Hin. split_and!; [done|by apply user_email_is_spec|].
  intros x Hx Hxe. apply user_email_is_spec in Hxe. by apply Hemails.
Qed.

Lemma googleId_selects s u g :
  unique_users s → In u (users s) → User.googleId u = Some g →
  selects (user_googleId_is g) (users s) u.
Proof.
  intros (_ & _ & Hg) Hin Hu. split_and!; [done|by apply user_googleId_is_spec|].
  intros x Hx Hxg. apply user_googleId_is_spec in Hxg. eauto.
Qed.

Lemma unique_users_rows s : unique_users s → List.NoDup (users s).
Proof. intros (Hids & _). by eapply NoDup_key_rows. Qed.

Lemma same_user_id s u v :
  unique_users s → In u (users s) → In v (users s) → User.id u = User.id v → u = v.
Proof.
  intros (Hids & _) Hu Hv Hid.
  eapply (key_selects User.id (user_is (User.id v))); eauto.
  - by apply user_is_spec.
  - intros x. by rewrite user_is_spec.
  - by apply user_is_spec.
Qed.

Lemma updateMany_replace_user p f s u :
  unique_users s → selects p (users s) u → User.id (f u) = User.id u →
  updateMany p f (users s) = replace_user (f u) (users s).
Proof.
  intros Huniq (Hin & Hp & Honly) Hid. unfold updateMany, replace_user.
  apply map_ext_in. intros x Hx. rewrite Hid.
  destruct (p x) eqn:E.
  - rewrite (Honly x Hx E). by rewrite bool_decide_true.
  - rewrite bool_decide_false; [done|]. intros Hx'.
    assert (x = u) by (by eapply same_user_id). congruence.
Qed.

(** C9.  Local login.  No account under the lower-cased email: refused with
    [InvalidCredentials].  An account without password hash: refused with
    [PasswordLoginUnavailable].  A hash the password does not verify
    against: [InvalidCredentials].  Otherwise the callback hands over the
    projection made of id, email, name and avatar, and nothing else of the
    row. *)
Theorem C9_local_login compare email password s :
  unique_users s →
  ((∀ u, In u (users s) → User.email u ≠ toLowerCase email) →
     local_verify compare email password s = done_false InvalidCredentials)
  ∧ ∀ u, In u (users s) → User.email u = toLowerCase email →
      (stored_hash u = None →
         local_verify compare email password s = done_false PasswordLoginUnavailable)
      ∧ (∀ h, stored_hash u = Some h → compare password h = false →
           local_verify compare email password s = done_false InvalidCredentials)
      ∧ (∀ h, stored_hash u = Some h → compare password h = true →
           local_verify compare email password s
           = done_user (mkPublic (User.id u) (User.email u) (User.name u) (User.avatar u))).
Proof.
  intros Huniq. split.
  - intros Hnone. unfold local_verify.
    replace (findFirst _ _) with (@None User.t); [done|].
    symmetry. apply findFirst_None. intros x Hx.
    unfold user_email_is. apply bool_decide_eq_false. auto.
  - intros u Hin Hemail. unfold local_verify, stored_hash.
    rewrite <-Hemail, (selects_findFirst _ _ u) by (by apply email_selects).
    destruct (User.password u) as [h|]; [|by split_and!].
    destruct (truthy h); simpl; split_and!; try done.
    + by intros h' [= <-] ->.
    + by intros h' [= <-] ->.
Qed.

Lemma same_user_email s u v :
  unique_users s → In u (users s) → In v (users s) →
  User.email v = User.email u → v = u.
Proof.
  intros Huniq Hu Hv Hemail.
  eapply email_selects; [done..|by apply user_email_is_spec].
Qed.

Lemma same_user_googleId s u v g :
  unique_users s → In u (users s) → In v (users s) →
  User.googleId u = Some g → User.googleId v = Some g → v = u.
Proof. intros (_ & _ & Hg) ????. symmetry. eauto. Qed.

Lemma user_clash_false u v :
  User.id v = User.id u
  ∨ (User.email v ≠ User.email u
     ∧ (is_Some (User.googleId u) → User.googleId v ≠ User.googleId u)) →
  user_clash u v = false.
Proof.
  unfold user_clash.
  rewrite andb_false_iff, negb_false_iff, orb_false_iff, andb_false_iff,
    !bool_decide_eq_true, !bool_decide_eq_false.
  destruct (decide (is_Some (User.googleId u))); tauto.
Qed.

Lemma apply_refresh profile email u :
  UserData.apply
    (UserData.mk (Some email) None None (Some (displayName profile))
       (head (photos profile))) u
  = refreshed profile email u.
Proof. unfold refreshed, avatar_from, UserData.apply. simpl. by destruct (head _). Qed.

Lemma apply_link profile u :
  UserData.apply
    (UserData.mk None None (Some (pr_id profile)) (Some (displayName profile))
       (head (photos profile))) u
  = linked profile u.
Proof. unfold linked, avatar_from, UserData.apply. simpl. by destruct (head _). Qed.

Lemma replace_user_length u rows : length (replace_user u rows) = length rows.
Proof. unfold replace_user. apply length_map. Qed.

Section OAuth.
Variables (e : Env) (profile : Profile) (email : string) (rest : list string).
Variable s : Store.
Hypothesis Huniq : unique_users s.
Hypothesis Hemails : emails profile = email :: rest.

Lemma oauth_by_external_id u :
  In u (users s) → User.googleId u = Some (pr_id profile) →
  (∀ v, In v (users s) → User.email v = email → v = u) →
  google_verify e profile s
  = (with_users (replace_user (refreshed profile email u) (users s)) s,
     done_user (refreshed profile email u)).
Proof.
  intros Hin Hg Hfree. unfold google_verify, user_update.
  pose proof (googleId_selects s u _ Huniq Hin Hg) as Hsel.
  rewrite (selects_findFirst _ _ u Hsel), Hemails.
  change (head (email :: rest)) with (Some email); cbv iota.
  rewrite apply_refresh.
  replace (existsb _ _) with false.
  - rewrite (update_updateMany _ _ _ u), apply_refresh
      by (done || by apply unique_users_rows).
    by rewrite (updateMany_replace_user _ _ s u).
  - symmetry. apply existsb_false. intros v Hv. apply user_clash_false.
    destruct (decide (v = u)) as [->|Hne]; [by left|right]. simpl. split.
    + intros Hv'. by apply Hne, Hfree.
    + intros _ Hv'. apply Hne. eapply same_user_googleId; eauto. congruence.
Qed.

Lemma oauth_by_external_id_email_taken u v :
  In u (users s) → User.googleId u = Some (pr_id profile) →
  In v (users s) → User.email v = email → v ≠ u →
  google_verify e profile s = (s, done_error).
Proof.
  intros Hin Hg Hv Hemail Hne. unfold google_verify, user_update.
  pose proof (googleId_selects s u _ Huniq Hin Hg) as Hsel.
  rewrite (selects_findFirst _ _ u Hsel), Hemails.
  change (head (email :: rest)) with (Some email); cbv iota.
  rewrite apply_refresh.
  replace (existsb _ _) with true; [done|].
  symmetry. apply existsb_exists. exists v. split; [done|].
  unfold user_clash. simpl. apply andb_true_iff. split.
  - apply negb_true_iff, bool_decide_eq_false. intros Hid.
    apply Hne. by eapply same_user_id.
  - apply orb_true_iff. left. by apply bool_decide_eq_true.
Qed.

Hypothesis Hnew : ∀ v, In v (users s) → User.googleId v ≠ Some (pr_id profile).

Lemma oauth_no_external_match :
  findFirst (user_googleId_is (pr_id profile)) (users s) = None.
Proof.
  apply findFirst_None. intros v Hv. apply bool_decide_eq_false. auto.
Qed.

Lemma oauth_by_email u :
  In u (users s) → User.email u = email →
  google_verify e profile s
  = (with_users (replace_user (linked profile u) (users s)) s,
     done_user (linked profile u)).
Proof.
  intros Hin Hemail. unfold google_verify, user_update.
  rewrite oauth_no_external_match, Hemails.
  change (head (email :: rest)) with (Some email); cbv iota.
  pose proof (email_selects s u Huniq Hin) as Hsel. rewrite Hemail in Hsel.
  rewrite (selects_findFirst _ _ u Hsel), apply_link.
  replace (existsb _ _) with false.
  - rewrite (update_updateMany _ _ _ u), apply_link
      by (done || by apply unique_users_rows).
    by rewrite (updateMany_replace_user _ _ s u).
  - symmetry. apply existsb_false. intros v Hv. apply user_clash_false.
    destruct (decide (v = u)) as [->|Hne]; [by left|right]. simpl. split.
    + intros Hv'. apply Hne. by eapply same_user_email.
    + intros _. by apply Hnew.
Qed.

Lemma oauth_create :
  (∀ v, In v (users s) → User.email v ≠ email) →
  (∀ v, In v (users s) → User.id v ≠ newId e) →
  google_verify e profile s
  = (with_users (users s ++ [created e profile email]) s,
     done_user (created e profile email)).
Proof.
  intros Hnone Hfresh. unfold google_verify, user_create.
  rewrite oauth_no_external_match, Hemails.
  change (head (email :: rest)) with (Some email); cbv iota.
  replace (findFirst (user_email_is email) (users s)) with (@None User.t).
  2:{ symmetry. apply findFirst_None. intros v Hv. apply bool_decide_eq_false. auto. }
  fold (created e profile email).
  replace (existsb (user_is _) _) with false.
  2:{ symmetry. apply existsb_false. intros v Hv. apply bool_decide_eq_false.
      by apply Hfresh. }
  replace (existsb (user_clash _) _) with false; [done|].
  symmetry. apply existsb_false. intros v Hv. apply user_clash_false.
  right. simpl. split; [by apply Hnone|]. intros _. by apply Hnew.
Qed.
End OAuth.

(** C6, as stated, fails: Alice has a local account (password, no external
    id); a login arrives whose external id is Bob's and whose profile email
    is Alice's.  The external id takes precedence, the refresh of Bob's
    email hits the unique email column, and the login ends in an error:
    Bob's row is not refreshed and no account holds both a password hash and
    that external id. *)
Lemma C6_external_id_match_precludes_linking :
  In Sample.alice (users Sample.store)
  ∧ is_Some (User.password Sample.alice)
  ∧ User.googleId Sample.alice = None
  ∧ head (emails AuthSample.bob_as_alice) = Some (User.email Sample.alice)
  ∧ google_verify Sample.env AuthSample.bob_as_alice Sample.store
    = (Sample.store, done_error)
  ∧ ¬ ∃ u, In u (users (fst (google_verify Sample.env AuthSample.bob_as_alice Sample.store)))
          ∧ is_Some (User.password u)
          ∧ User.googleId u = Some (pr_id AuthSample.bob_as_alice).
Proof.
  split_and!; [simpl; tauto|by eexists|done|done|by vm_compute|].
  intros (u & Hin & Hpw & Hg).
  change (In u [Sample.alice; Sample.bob]) in Hin.
  destruct Hin as [<-|[<-|[]]].
  - discriminate Hg.
  - by destruct Hpw.
Qed.

(** C6, amended.  The profile carries at least one email.
    (1) An account with the external id wins: its name and email are
    overwritten from the profile, its avatar too when the profile has a
    photo (kept otherwise), and it is returned -- provided no other account
    holds the profile email; if one does, the login fails and the store is
    unchanged.
    (2) Otherwise an account with the profile email gets the external id,
    keeps its password hash, has name and avatar refreshed the same way, and
    is returned; no account is added.
    (3) Otherwise, the generated id being unused, an account is appended
    with the external id, the profile email, name and first photo, and no
    password. *)
Theorem C6_oauth_resolution_order e profile email rest s :
  unique_users s → emails profile = email :: rest →
  (∀ u, In u (users s) → User.googleId u = Some (pr_id profile) →
     ((∀ v, In v (users s) → User.email v = email → v = u) →
        google_verify e profile s
        = (with_users (replace_user (refreshed profile email u) (users s)) s,
           done_user (refreshed profile email u)))
     ∧ (∀ v, In v (users s) → User.email v = email → v ≠ u →
          google_verify e profile s = (s, done_error)))
  ∧ ((∀ v, In v (users s) → User.googleId v ≠ Some (pr_id profile)) →
     (∀ u, In u (users s) → User.email u = email →
        google_verify e profile s
        = (with_users (replace_user (linked profile u) (users s)) s,
           done_user (linked profile u))
        ∧ User.password (linked profile u) = User.password u
        ∧ User.googleId (linked profile u) = Some (pr_id profile)
        ∧ length (users (fst (google_verify e profile s))) = length (users s))
     ∧ ((∀ v, In v (users s) → User.email v ≠ email) →
        (∀ v, In v (users s) → User.id v ≠ newId e) →
        google_verify e profile s
        = (with_users (users s ++ [created e profile email]) s,
           done_user (created e profile email))
        ∧ User.password (created e profile email) = None)).
Proof.
  intros Huniq Hemails. split.
  - intros u Hin Hg. split.
    + by apply (oauth_by_external_id _ _ _ rest).
    + intros v ???. by apply (oauth_by_external_id_email_taken _ _ email rest _ Huniq Hemails u v).
  - intros Hnew. split.
    + intros u Hin Hemail.
      rewrite (oauth_by_email e profile email rest s Huniq Hemails Hnew u Hin Hemail).
      split_and!; [done..|]. simpl. apply replace_user_length.
    + intros Hnone Hfresh. split; [|done].
      by apply (oauth_create _ _ _ rest).
Qed.

Lemma C6_oauth_resolution_order_witness :
  unique_users Sample.store
  ∧ emails AuthSample.alice_google = ["alice@example.com"]
  ∧ google_verify Sample.env AuthSample.alice_google Sample.store
    = (with_users
         [User.mk "u-alice" "alice@example.com" (Some "$2a$12$hash") (Some "g-alice")
            "Alice A." (Some "https://img/alice.png") 1;
          Sample.bob]
         Sample.store,
       done_user
         (User.mk "u-alice" "alice@example.com" (Some "$2a$12$hash") (Some "g-alice")
            "Alice A." (Some "https://img/alice.png") 1)).
Proof.
  assert (Huniq : unique_users Sample.store).
  { split_and!; [simpl; solve_NoDup| |];
      intros u v; intros; simpl in *;
      repeat match goal with H : _ ∨ _ |- _ => destruct H as [<-|H] end;
      simpl in *; congruence || contradiction. }
  split_and!; [done|done|].
  destruct (C6_oauth_resolution_order Sample.env AuthSample.alice_google
              "alice@example.com" [] Sample.store Huniq eq_refl) as [_ Hrest].
  destruct Hrest as [Hlink _].
  { intros v Hv. simpl in Hv. destruct Hv as [<-|[<-|[]]]; simpl; congruence. }
  destruct (Hlink Sample.alice) as (Hres & _); [simpl; tauto|done|].
  exact Hres.
Defined.

Lemma Sample_unique_users : unique_users Sample.store.
Proof.
  split_and!; [simpl; solve_NoDup| |];
    intros u v; intros; simpl in *;
    repeat match goal with H : _ ∨ _ |- _ => destruct H as [<-|H] end;
    simpl in *; congruence || contradiction.
Qed.

Example oauth_sample_refresh_and_create :
  google_verify Sample.env AuthSample.bob_google Sample.store
  = (with_users [Sample.alice; refreshed AuthSample.bob_google "bob@example.com" Sample.bob]
       Sample.store,
     done_user (refreshed AuthSample.bob_google "bob@example.com" Sample.bob))
  ∧ google_verify Sample.env AuthSample.carol_google Sample.store
    = (with_users [Sample.alice; Sample.bob;
                   created Sample.env AuthSample.carol_google "carol@example.com"]
         Sample.store,
       done_user (created Sample.env AuthSample.carol_google "carol@example.com")).
Proof. split; vm_compute; reflexivity. Qed.

Lemma C9_local_login_witness :
  unique_users Sample.store
  ∧ local_verify AuthSample.compare "nobody@example.com" "secret" Sample.store
    = done_false InvalidCredentials
  ∧ local_verify AuthSample.compare "Bob@Example.com" "secret" Sample.store
    = done_false PasswordLoginUnavailable
  ∧ local_verify AuthSample.compare "Alice@Example.com" "guess" Sample.store
    = done_false InvalidCredentials
  ∧ local_verify AuthSample.compare "Alice@Example.com" "secret" Sample.store
    = done_user (mkPublic "u-alice" "alice@example.com" "Alice" None).
Proof.
  assert (Huniq : unique_users Sample.store).
  { split_and!; [simpl; solve_NoDup| |];
      intros u v; intros; simpl in *;
      repeat match goal with H : _ ∨ _ |- _ => destruct H as [<-|H] end;
      simpl in *; congruence || contradiction. }
  split; [done|].
  destruct (C9_local_login AuthSample.compare "nobody@example.com" "secret"
              Sample.store Huniq) as [Hnone _].
  destruct (C9_local_login AuthSample.compare "Bob@Example.com" "secret"
              Sample.store Huniq) as [_ Hbob].
  destruct (C9_local_login AuthSample.compare "Alice@Example.com" "guess"
              Sample.store Huniq) as [_ Hguess].
  destruct (C9_local_login AuthSample.compare "Alice@Example.com" "secret"
              Sample.store Huniq) as [_ Hok].
  split_and!.
  - apply Hnone. intros u Hu. simpl in Hu.
    destruct Hu as [<-|[<-|[]]]; by vm_compute.
  - destruct (Hbob Sample.bob) as [H _]; [simpl; tauto|by vm_compute|].
    by apply H.
  - destruct (Hguess Sample.alice) as (_ & H & _); [simpl; tauto|by vm_compute|].
    by apply (H "$2a$12$hash").
  - destruct (Hok Sample.alice) as (_ & _ & H); [simpl; tauto|by vm_compute|].
    by apply (H "$2a$12$hash").
Defined.

(** * Isolation between owners *)

Lemma find_task_absent j userId s :
  (∀ x, In x (tasks s) → Task.id x ≠ j) →
  findFirst (task_owned j userId) (tasks s) = None
  ∧ findFirst (task_in_trash j userId) (tasks s) = None.
Proof.
  intros Habs. split; apply findFirst_None; intros x Hx.
  - destruct (task_owned _ _ x) eqn:E; [|done].
    apply task_owned_spec in E as [E _]. by apply Habs in E.
  - destruct (task_in_trash _ _ x) eqn:E; [|done].
    apply task_in_trash_spec in E as [E _]. by apply Habs in E.
Qed.

Lemma find_project_absent j userId s :
  (∀ x, In x (projects s) → Project.id x ≠ j) →
  findFirst (project_owned j userId) (projects s) = None.
Proof.
  intros Habs. apply findFirst_None; intros x Hx.
  destruct (project_owned _ _ x) eqn:E; [|done].
  apply project_owned_spec in E as [E _]. by apply Habs in E.
Qed.

Lemma same_project_id s p x :
  unique_project_ids s → In p (projects s) → In x (projects s) →
  Project.id x = Project.id p → x = p.
Proof.
  intros Hids Hp Hx Hid.
  eapply (key_selects Project.id (project_is (Project.id p))); eauto.
  - by apply project_is_spec.
  - intros y. by rewrite project_is_spec.
  - by apply project_is_spec.
Qed.

Lemma find_project_not_owned s p userId :
  unique_project_ids s → In p (projects s) → Project.userId p ≠ userId →
  findFirst (project_owned (Project.id p) userId) (projects s) = None.
Proof.
  intros Hids Hin Hne. apply findFirst_None. intros x Hx.
  destruct (project_owned _ _ x) eqn:E; [|done].
  apply project_owned_spec in E as [Hid Hu].
  assert (x = p) as -> by (by eapply same_project_id). done.
Qed.

Lemma list_where_userId e userId q :
  Where.userId (list_where e userId q) = Some userId.
Proof.
  unfold list_where.
  destruct (q_view q) as [[]|], (q_status q) as [[]|], (q_priority q),
    (q_projectId q), (q_search q) as [se|]; simpl; try done;
    by destruct (truthy se).
Qed.

Lemma list_where_projectId e userId q :
  Where.projectId (list_where e userId q) = q_projectId q.
Proof.
  unfold list_where.
  destruct (q_view q) as [[]|], (q_status q) as [[]|], (q_priority q),
    (q_projectId q), (q_search q) as [se|]; simpl; try done;
    by destruct (truthy se).
Qed.

Lemma matches_userId w x userId :
  Where.userId w = Some userId → Where.matches w x = true → Task.userId x = userId.
Proof.
  unfold Where.matches. intros ->. rewrite !andb_true_iff. simpl.
  rewrite bool_decide_eq_true. tauto.
Qed.

Lemma matches_projectId w x p :
  Where.projectId w = Some p → Where.matches w x = true → Task.projectId x = Some p.
Proof.
  unfold Where.matches. intros ->. rewrite !andb_true_iff.
  rewrite bool_decide_eq_true. tauto.
Qed.

Lemma list_tasks_owner e userId q s x :
  In x (list_tasks e userId q s) → Task.userId x = userId.
Proof.
  rewrite list_tasks_matches. intros [_ Hm].
  eapply matches_userId; [apply list_where_userId|done].
Qed.

Lemma list_tasks_no_project e userId q s p :
  q_projectId q = Some p →
  (∀ x, In x (tasks s) → Task.userId x = userId → Task.projectId x ≠ Some p) →
  list_tasks e userId q s = [].
Proof.
  intros Hq Hnone.
  destruct (list_tasks e userId q s) as [|x l] eqn:E; [done|exfalso].
  assert (Hx : In x (list_tasks e userId q s)) by (rewrite E; by left).
  pose proof (list_tasks_owner _ _ _ _ _ Hx) as Hu.
  apply list_tasks_matches in Hx as [Hin Hm].
  eapply Hnone; [done..|].
  eapply matches_projectId; [|done]. by rewrite list_where_projectId.
Qed.

Section Isolation.
Variables (e : Env) (s : Store) (A : string).
Hypothesis Htasks : unique_task_ids s.
Hypothesis Hprojects : unique_project_ids s.
Hypothesis Hrefs : project_refs_owned s.

Lemma foreign_task_like_absent t j b h :
  In t (tasks s) → Task.userId t ≠ A →
  (∀ x, In x (tasks s) → Task.id x ≠ j) →
  In h (task_handlers e b) →
  h A (Task.id t) s = h A j s
  ∧ fst (h A (Task.id t) s) = s
  ∧ status (snd (h A (Task.id t) s)) = 404.
Proof.
  intros Hin Hne Habs Hh.
  destruct (find_task_absent j A s Habs) as [Hj Hjt].
  pose proof (find_task_not_owned s t Htasks Hin A Hne) as Ht.
  pose proof (find_task_not_in_trash s t Htasks Hin A (or_intror Hne)) as Htt.
  simpl in Hh.
  destruct Hh as [<-|[<-|[<-|[<-|[<-|[<-|[]]]]]]];
    unfold tasks_get_one, tasks_put, tasks_toggle, tasks_delete, tasks_restore,
      tasks_delete_permanent;
    rewrite ?Ht, ?Htt, ?Hj, ?Hjt; done.
Qed.

Lemma foreign_project_like_absent p j name color h :
  In p (projects s) → Project.userId p ≠ A →
  (∀ x, In x (projects s) → Project.id x ≠ j) →
  In h (project_handlers name color) →
  h A (Project.id p) s = h A j s
  ∧ fst (h A (Project.id p) s) = s
  ∧ status (snd (h A (Project.id p) s)) = 404.
Proof.
  intros Hin Hne Habs Hh.
  pose proof (find_project_absent j A s Habs) as Hj.
  pose proof (find_project_not_owned s p A Hprojects Hin Hne) as Hp.
  simpl in Hh.
  destruct Hh as [<-|[<-|[<-|[]]]];
    unfold projects_get_one, projects_put, projects_delete;
    rewrite ?Hp, ?Hj; done.
Qed.

Lemma foreign_project_reference_like_absent p j bp taskId bu q h :
  In p (projects s) → Project.userId p ≠ A →
  (∀ x, In x (projects s) → Project.id x ≠ j) →
  In h (project_referrers e bp taskId bu q) →
  h A (Project.id p) s = h A j s ∧ fst (h A (Project.id p) s) = s.
Proof.
  intros Hin Hne Habs Hh.
  pose proof (find_project_absent j A s Habs) as Hj.
  pose proof (find_project_not_owned s p A Hprojects Hin Hne) as Hp.
  simpl in Hh. destruct Hh as [<-|[<-|[<-|[]]]].
  - unfold tasks_post. simpl. rewrite Hp, Hj. done.
  - unfold tasks_put. simpl. rewrite Hp, Hj.
    by destruct (findFirst (task_owned taskId A) (tasks s)).
  - unfold tasks_get_all.
    rewrite (list_tasks_no_project e A _ s (Project.id p)),
      (list_tasks_no_project e A _ s j); [done|done| |done|].
    + intros x Hx Hu Hpx.
      destruct (Hrefs x j Hx Hpx) as (pr & Hpr & Hid & _). by eapply Habs.
    + intros x Hx Hu Hpx.
      destruct (Hrefs x _ Hx Hpx) as (pr & Hpr & Hid & Hown).
      assert (pr = p) as -> by (by eapply same_project_id). congruence.
Qed.
End Isolation.

(** C7.  Acting as user [A] on the id of a task or project that belongs to
    somebody else is indistinguishable from acting on an id that is not in
    the store: every handler addressed by id (fetch, update, toggle, soft
    delete, restore, purge; project fetch, update, delete) gives the same
    response, a 404, and leaves the store as it is; a foreign project id
    used as a reference (task creation, task update, list filter) is treated
    like an unknown one; and a listing only contains tasks owned by [A]. *)
Theorem C7_cross_owner_isolation e s A :
  unique_task_ids s → unique_project_ids s → project_refs_owned s →
  (∀ t j b h,
     In t (tasks s) → Task.userId t ≠ A →
     (∀ x, In x (tasks s) → Task.id x ≠ j) →
     In h (task_handlers e b) →
     h A (Task.id t) s = h A j s
     ∧ fst (h A (Task.id t) s) = s
     ∧ status (snd (h A (Task.id t) s)) = 404)
  ∧ (∀ p j name color h,
       In p (projects s) → Project.userId p ≠ A →
       (∀ x, In x (projects s) → Project.id x ≠ j) →
       In h (project_handlers name color) →
       h A (Project.id p) s = h A j s
       ∧ fst (h A (Project.id p) s) = s
       ∧ status (snd (h A (Project.id p) s)) = 404)
  ∧ (∀ p j bp taskId bu q h,
       In p (projects s) → Project.userId p ≠ A →
       (∀ x, In x (projects s) → Project.id x ≠ j) →
       In h (project_referrers e bp taskId bu q) →
       h A (Project.id p) s = h A j s ∧ fst (h A (Project.id p) s) = s)
  ∧ (∀ q x, In x (list_tasks e A q s) → Task.userId x = A).
Proof.
  intros Htasks Hprojects Hrefs. split_and!.
  - intros. by eapply foreign_task_like_absent.
  - intros. by eapply foreign_project_like_absent.
  - intros. by eapply foreign_project_reference_like_absent.
  - intros q x. apply list_tasks_owner.
Qed.

Lemma C7_cross_owner_isolation_witness :
  unique_task_ids Sample.store
  ∧ unique_project_ids Sample.store
  ∧ project_refs_owned Sample.store
  ∧ tasks_get_one "u-alice" "t-bob" Sample.store
    = tasks_get_one "u-alice" "no-such-id" Sample.store
  ∧ tasks_toggle "u-alice" "t-bob" Sample.store = (Sample.store, NotFound_task)
  ∧ projects_delete "u-alice" "p-lab" Sample.store
    = projects_delete "u-alice" "no-such-id" Sample.store
  ∧ Forall (λ x, Task.userId x = "u-alice")
      (list_tasks Sample.env "u-alice" no_query Sample.store).
Proof.
  assert (Htasks : unique_task_ids Sample.store)
    by (unfold unique_task_ids; simpl; solve_NoDup).
  assert (Hprojects : unique_project_ids Sample.store)
    by (unfold unique_project_ids; simpl; solve_NoDup).
  assert (Hrefs : project_refs_owned Sample.store).
  { intros t p Hin Hp. simpl in Hin.
    destruct Hin as [<-|[<-|[<-|[<-|[]]]]]; simpl in Hp; simplify_eq.
    - exists Sample.home. simpl. tauto.
    - exists Sample.lab. simpl. tauto. }
  destruct (C7_cross_owner_isolation Sample.env Sample.store "u-alice"
              Htasks Hprojects Hrefs) as (Htask & Hproject & _ & Hlist).
  assert (Hbob : In Sample.bobs_task (tasks Sample.store)) by (simpl; tauto).
  assert (Hlab : In Sample.lab (projects Sample.store)) by (simpl; tauto).
  assert (Hno_task : ∀ x, In x (tasks Sample.store) → Task.id x ≠ "no-such-id").
  { intros x Hx. simpl in Hx. destruct Hx as [<-|[<-|[<-|[<-|[]]]]]; done. }
  assert (Hno_project : ∀ x, In x (projects Sample.store) → Project.id x ≠ "no-such-id").
  { intros x Hx. simpl in Hx. destruct Hx as [<-|[<-|[]]]; done. }
  split_and!; [done|done|done|..].
  - apply (Htask Sample.bobs_task "no-such-id"
             (mkTaskPut None None None None None None) tasks_get_one);
      [done|done|done|simpl; tauto].
  - destruct (Htask Sample.bobs_task "no-such-id"
                (mkTaskPut None None None None None None) tasks_toggle)
      as (_ & Hsame & _); [done|done|done|simpl; tauto|].
    by vm_compute.
  - apply (Hproject Sample.lab "no-such-id" None None projects_delete);
      [done|done|done|simpl; tauto].
  - apply List.Forall_forall. intros x. apply Hlist.
Defined.

(** * The store invariant *)

Section MorePrismaFacts.
Context {A K : Type} (key : A → K).
Implicit Types (p : A → bool) (f : A → A) (rows : list A).

Lemma update_map_key p f rows rows' r' :
  (∀ x, key (f x) = key x) →
  update p f rows = Some (rows', r') →
  List.map key rows' = List.map key rows.
Proof.
  intros Hkey. revert rows'. induction rows as [|r0 rs IH]; intros rows'; simpl; [done|].
  destruct (p r0).
  - intros [= <- <-]. simpl. by rewrite Hkey.
  - destruct (update p f rs) as [[rs' r1]|]; [|done].
    intros [= <- <-]. simpl. by rewrite (IH _ eq_refl).
Qed.

Lemma update_In_fwd p f rows rows' r' x :
  update p f rows = Some (rows', r') → In x rows → In x rows' ∨ In (f x) rows'.
Proof.
  revert rows'. induction rows as [|r0 rs IH]; intros rows'; simpl; [done|].
  destruct (p r0).
  - intros [= <- <-] [<-|?]; [right; by left|left; by right].
  - destruct (update p f rs) as [[rs' r1]|]; [|done].
    intros [= <- <-] [<-|Hx]; [left; by left|].
    destruct (IH _ eq_refl Hx); [left|right]; by right.
Qed.

Lemma delete_NoDup_key p rows rows' :
  delete p rows = Some rows' →
  List.NoDup (List.map key rows) → List.NoDup (List.map key rows').
Proof.
  revert rows'. induction rows as [|r0 rs IH]; intros rows'; simpl; [done|].
  intros Hdel Hnd. inversion Hnd as [|?? Hnotin Hnd']; subst.
  destruct (p r0); [by injection Hdel as <-|].
  destruct (delete p rs) as [rs'|] eqn:E; [|done]. injection Hdel as <-.
  simpl. constructor; [|by apply IH].
  intros Hin. apply Hnotin. apply in_map_iff in Hin as (x & <- & Hx).
  apply in_map. by eapply delete_Some_incl.
Qed.

Lemma delete_In_fwd p rows rows' x :
  delete p rows = Some rows' → In x rows → p x = false → In x rows'.
Proof.
  revert rows'. induction rows as [|r0 rs IH]; intros rows'; simpl; [done|].
  destruct (p r0) eqn:E.
  - intros [= <-] [<-|?] ?; [congruence|done].
  - destruct (delete p rs) as [rs'|]; [|done].
    intros [= <-] [<-|?] ?; [by left|right; eauto].
Qed.

Lemma deleteMany_NoDup_key p rows :
  List.NoDup (List.map key rows) → List.NoDup (List.map key (deleteMany p rows)).
Proof.
  unfold deleteMany. induction rows as [|r0 rs IH]; simpl; [done|].
  intros Hnd. inversion Hnd as [|?? Hnotin Hnd']; subst.
  destruct (negb (p r0)); [|by apply IH].
  simpl. constructor; [|by apply IH].
  intros Hin. apply Hnotin. apply in_map_iff in Hin as (x & <- & Hx).
  apply in_map. by apply filter_In in Hx as [? _].
Qed.

Lemma append_NoDup_key rows r :
  List.NoDup (List.map key rows) → (∀ x, In x rows → key x ≠ key r) →
  List.NoDup (List.map key (rows ++ [r])).
Proof.
  intros Hnd Hfresh. rewrite map_app. simpl.
  apply NoDup_ListNoDup, NoDup_app. split_and!.
  - by apply NoDup_ListNoDup.
  - intros k Hk [<-|[]]%list_elem_of_In.
    apply list_elem_of_In, in_map_iff in Hk as (x & Hkx & Hx). by eapply Hfresh.
  - apply NoDup_ListNoDup. repeat constructor. by intros [].
Qed.
End MorePrismaFacts.

Lemma task_create_Some r rows rows' :
  task_create r rows = Some rows' →
  rows' = (rows ++ [r])%list ∧ ∀ x, In x rows → Task.id x ≠ Task.id r.
Proof.
  unfold task_create. destruct (existsb _ _) eqn:E; [done|]. intros [= <-].
  split; [done|]. intros x Hx Hid.
  rewrite existsb_false in E. specialize (E x Hx).
  apply task_is_spec in Hid. congruence.
Qed.

Lemma project_create_Some r rows rows' :
  project_create r rows = Some rows' →
  rows' = (rows ++ [r])%list ∧ ∀ x, In x rows → Project.id x ≠ Project.id r.
Proof.
  unfold project_create. destruct (existsb _ _) eqn:E; [done|]. intros [= <-].
  split; [done|]. intros x Hx Hid.
  rewrite existsb_false in E. specialize (E x Hx).
  apply project_is_spec in Hid. congruence.
Qed.

(** Rewriting one task row: ids and owners stay, the project reference is
    kept or points at a project of the owner, the trash stamp stays
    consistent. *)
Lemma wf_update_task s id f ts t' :
  wf s →
  update (task_is id) f (tasks s) = Some (ts, t') →
  (∀ x, Task.id (f x) = Task.id x) →
  (∀ x, Task.userId (f x) = Task.userId x) →
  (∀ x, In x (tasks s) → Task.id x = id →
     Task.projectId (f x) = Task.projectId x
     ∨ ∃ pr, In pr (projects s) ∧ Some (Project.id pr) = Task.projectId (f x)
             ∧ Project.userId pr = Task.userId x) →
  (∀ x, In x (tasks s) →
     (Task.isDeleted (f x) = false ↔ Task.deletedAt (f x) = None)) →
  wf (with_tasks ts s).
Proof.
  intros [Hids Hpids Husers Hrefs Htrash] Hupd Hid Hown Hproj Hstamp.
  destruct (update_Some_inv _ _ _ _ _ Hupd) as (r & Hfind & -> & _ & Hrows).
  apply findFirst_Some in Hfind as [Hr Hrid]. apply task_is_spec in Hrid.
  split; try done.
  - unfold unique_task_ids. simpl. by rewrite (update_map_key Task.id _ _ _ _ _ Hid Hupd).
  - intros x p Hx Hp. simpl in Hx. destruct (Hrows x Hx) as [->|Hold]; [|by eapply Hrefs].
    rewrite Hown. destruct (Hproj r Hr Hrid) as [Heq|(pr & ? & Heq & ?)].
    + rewrite Heq in Hp. by eapply Hrefs.
    + exists pr. rewrite Hp in Heq. by simplify_eq.
  - intros x Hx. simpl in Hx. destruct (Hrows x Hx) as [->|Hold]; [by apply Hstamp|by apply Htrash].
Qed.

Lemma update_In_new {A} (p : A → bool) (f : A → A) rows rows' r' :
  update p f rows = Some (rows', r') → In r' rows'.
Proof.
  revert rows'. induction rows as [|r0 rs IH]; intros rows'; simpl; [done|].
  destruct (p r0).
  - intros [= <- <-]. by left.
  - destruct (update p f rs) as [[rs' r1]|]; [|done].
    intros [= <- <-]. right. by apply IH.
Qed.

Lemma same_task_id s x y :
  unique_task_ids s → In x (tasks s) → In y (tasks s) → Task.id x = Task.id y → x = y.
Proof.
  intros Hids Hx Hy Hid.
  eapply (task_is_selects s y); [done..|by apply task_is_spec].
Qed.

Lemma project_ok_owned s p userId :
  bool_decide (is_Some (findFirst (project_owned p userId) (projects s))) = true →
  ∃ pr, In pr (projects s) ∧ Project.id pr = p ∧ Project.userId pr = userId.
Proof.
  intros [pr Hpr]%bool_decide_eq_true. apply findFirst_Some in Hpr as [? Hpr].
  apply project_owned_spec in Hpr as [? ?]. eauto.
Qed.

Lemma tasks_post_wf e userId b s : wf s → wf (fst (tasks_post e userId b s)).
Proof.
  intros Hwf. unfold tasks_post.
  destruct (negb _) eqn:Hok; [done|]. apply negb_false_iff in Hok.
  destruct (task_create _ _) as [ts|] eqn:Hc; [|done]. simpl.
  apply task_create_Some in Hc as [-> Hfresh].
  destruct Hwf as [Hids Hpids Husers Hrefs Htrash]. split; try done.
  - by apply (append_NoDup_key Task.id).
  - intros x p Hx Hp. simpl in Hx. apply in_app_iff in Hx as [Hx|[<-|[]]]; [by eapply Hrefs|].
    simpl in Hp. rewrite Hp in Hok. by apply project_ok_owned.
  - intros x Hx. simpl in Hx. apply in_app_iff in Hx as [Hx|[<-|[]]]; [by apply Htrash|done].
Qed.

Lemma tasks_put_wf userId id b s : wf s → wf (fst (tasks_put userId id b s)).
Proof.
  intros Hwf. unfold tasks_put.
  destruct (findFirst _ _) as [t0|] eqn:Hf; [|done].
  destruct (negb _) eqn:Hok; [done|]. apply negb_false_iff in Hok.
  destruct (update _ _ _) as [[ts t']|] eqn:Hu; [|done]. simpl.
  apply findFirst_Some in Hf as [Ht0 Hown]. apply task_owned_spec in Hown as [Hid0 Hu0].
  eapply wf_update_task; [done|exact Hu|done|done| |].
  - intros x Hx Hid. unfold Task.apply, updateData. simpl.
    destruct (tu_projectId b) as [p|]; simpl; [right|by left].
    destruct (project_ok_owned _ _ _ Hok) as (pr & ? & <- & ?).
    exists pr. split_and!; [done..|].
    assert (x = t0) as -> by (eapply same_task_id; [apply Hwf|done..|congruence]).
    congruence.
  - intros x Hx. simpl. by apply Hwf.
Qed.

Lemma tasks_toggle_wf userId id s : wf s → wf (fst (tasks_toggle userId id s)).
Proof.
  intros Hwf. unfold tasks_toggle.
  destruct (findFirst _ _) as [t0|] eqn:Hf; [|done].
  destruct (update _ _ _) as [[ts t']|] eqn:Hu; [|done]. simpl.
  eapply wf_update_task; [done|exact Hu|done|done|by left|].
  intros x Hx. simpl. by apply Hwf.
Qed.

Lemma tasks_delete_wf e userId id s : wf s → wf (fst (tasks_delete e userId id s)).
Proof.
  intros Hwf. unfold tasks_delete.
  destruct (findFirst _ _) as [t0|] eqn:Hf; [|done].
  destruct (update _ _ _) as [[ts t']|] eqn:Hu; [|done]. simpl.
  eapply wf_update_task; [done|exact Hu|done|done|by left|].
  intros x Hx. simpl. done.
Qed.

Lemma tasks_restore_wf userId id s : wf s → wf (fst (tasks_restore userId id s)).
Proof.
  intros Hwf. unfold tasks_restore.
  destruct (findFirst _ _) as [t0|] eqn:Hf; [|done].
  destruct (update _ _ _) as [[ts t']|] eqn:Hu; [|done]. simpl.
  eapply wf_update_task; [done|exact Hu|done|done|by left|].
  intros x Hx. simpl. done.
Qed.

Lemma tasks_delete_permanent_wf userId id s :
  wf s → wf (fst (tasks_delete_permanent userId id s)).
Proof.
  intros [Hids Hpids Husers Hrefs Htrash]. unfold tasks_delete_permanent.
  destruct (findFirst _ _) as [t0|] eqn:Hf; [|done].
  destruct (delete _ _) as [ts|] eqn:Hd; [|done]. simpl.
  pose proof (delete_Some_incl _ _ _ Hd) as Hincl.
  split; try done.
  - by eapply (delete_NoDup_key Task.id).
  - intros x p Hx. apply Hrefs. by apply Hincl.
  - intros x Hx. apply Htrash. by apply Hincl.
Qed.

Lemma projects_post_wf e userId name color s :
  wf s → wf (fst (projects_post e userId name color s)).
Proof.
  intros [Hids Hpids Husers Hrefs Htrash]. unfold projects_post.
  destruct (project_create _ _) as [ps|] eqn:Hc; [|done]. simpl.
  apply project_create_Some in Hc as [-> Hfresh]. split; try done.
  - by apply (append_NoDup_key Project.id).
  - intros x p Hx Hp. destruct (Hrefs x p Hx Hp) as (pr & ? & ? & ?).
    exists pr. split_and!; [|done..]. simpl. apply in_app_iff. by left.
Qed.

Lemma projects_put_wf userId id name color s :
  wf s → wf (fst (projects_put userId id name color s)).
Proof.
  intros [Hids Hpids Husers Hrefs Htrash]. unfold projects_put.
  destruct (findFirst _ _) as [p0|] eqn:Hf; [|done].
  destruct (update _ _ _) as [[ps p']|] eqn:Hu; [|done]. simpl.
  split; try done.
  - unfold unique_project_ids. simpl.
    by rewrite (update_map_key Project.id _ (project_apply (trim <$> name) color) _ _ _
          (λ _, eq_refl) Hu).
  - intros x p Hx Hp. destruct (Hrefs x p Hx Hp) as (pr & Hpr & ? & ?).
    destruct (update_In_fwd _ _ _ _ _ _ Hu Hpr); eauto.
Qed.

Lemma projects_delete_effect userId id s :
  (projects_delete userId id s = (s, NotFound_project)
   ∧ findFirst (project_owned id userId) (projects s) = None)
  ∨ ∃ ps,
      delete (project_is id) (projects s) = Some ps
      ∧ projects_delete userId id s
        = (mkStore (users s) ps
             (updateMany (task_in_project id) (Task.apply (data_projectId None)) (tasks s)),
           json (J_message "Project deleted successfully")).
Proof.
  unfold projects_delete.
  destruct (findFirst _ _) as [p0|] eqn:Hf; [right|by left].
  assert (Hsome : is_Some (delete (project_is id) (projects s))).
  { apply findFirst_Some in Hf as [Hin Hown].
    destruct (findFirst (project_is id) (projects s)) as [p1|] eqn:Hf1;
      [by eapply delete_is_Some|].
    rewrite findFirst_None in Hf1. specialize (Hf1 p0 Hin).
    apply project_owned_spec in Hown as [Hid _]. apply project_is_spec in Hid. congruence. }
  destruct Hsome as [ps Hps]. exists ps. split; [done|].
  simpl. by rewrite Hps.
Qed.

Lemma projects_delete_wf userId id s : wf s → wf (fst (projects_delete userId id s)).
Proof.
  intros Hwf.
  destruct (projects_delete_effect userId id s) as [[-> _]|(ps & Hd & ->)]; [done|].
  destruct Hwf as [Hids Hpids Husers Hrefs Htrash]. simpl. split; try done.
  - unfold unique_task_ids, updateMany. simpl. rewrite map_map.
    erewrite map_ext; [exact Hids|]. intros x. simpl. by destruct (task_in_project id x).
  - by eapply (delete_NoDup_key Project.id).
  - intros x' p Hx' Hp. simpl in Hx'.
    apply In_updateMany in Hx' as (x & Hx & ->).
    destruct (task_in_project id x) eqn:E; [done|].
    destruct (Hrefs x p Hx Hp) as (pr & Hpr & <- & ?).
    exists pr. split_and!; [|done..]. simpl.
    eapply delete_In_fwd; [done..|].
    destruct (project_is id pr) eqn:E'; [|done].
    apply project_is_spec in E'. subst id.
    apply task_in_project_spec in Hp. congruence.
  - intros x' Hx'. simpl in Hx'.
    apply In_updateMany in Hx' as (x & Hx & ->).
    destruct (task_in_project id x); [simpl|]; by apply Htrash.
Qed.

Lemma user_clash_false_inv u v :
  user_clash u v = false →
  User.id v = User.id u
  ∨ (User.email v ≠ User.email u
     ∧ (is_Some (User.googleId u) → User.googleId v ≠ User.googleId u)).
Proof.
  unfold user_clash.
  rewrite andb_false_iff, negb_false_iff, orb_false_iff, andb_false_iff,
    !bool_decide_eq_true, !bool_decide_eq_false.
  tauto.
Qed.

(** A row that clashes with no row of the table can take its place in it. *)
Lemma unique_users_new_row s us u' :
  unique_users s →
  List.NoDup (List.map User.id us) →
  In u' us →
  (∀ x, In x us → x = u' ∨ In x (users s)) →
  (∀ x, In x us → In x (users s) → User.id x = User.id u' → x = u') →
  existsb (user_clash u') (users s) = false →
  unique_users (with_users us s).
Proof.
  intros (Hids & Hemails & Hgoogle) Hids' Hnew Hrows Hsame Hclash.
  rewrite existsb_false in Hclash.
  assert (Hold : ∀ x, In x us → In x (users s) →
            x = u' ∨ (User.email x ≠ User.email u'
                      ∧ (is_Some (User.googleId u') →
                         User.googleId x ≠ User.googleId u'))).
  { intros x Hx Hxs.
    destruct (user_clash_false_inv _ _ (Hclash x Hxs)) as [?|?]; [left|by right].
    by apply Hsame. }
  split_and!; [done|..].
  - intros x y Hx Hy Heq. simpl in Hx, Hy.
    destruct (Hrows x Hx) as [->|Hxs], (Hrows y Hy) as [->|Hys]; [done|..].
    + destruct (Hold y Hy Hys) as [?|[? _]]; congruence.
    + destruct (Hold x Hx Hxs) as [?|[? _]]; congruence.
    + by apply Hemails.
  - intros x y g Hx Hy Hgx Hgy. simpl in Hx, Hy.
    destruct (Hrows x Hx) as [->|Hxs], (Hrows y Hy) as [->|Hys]; [done|..].
    + destruct (Hold y Hy Hys) as [?|[_ Hne]]; [done|].
      destruct Hne; [by eexists|congruence].
    + destruct (Hold x Hx Hxs) as [?|[_ Hne]]; [done|].
      destruct Hne; [by eexists|congruence].
    + by eapply Hgoogle.
Qed.

Lemma user_update_unique s p d us u' :
  unique_users s → user_update p d (users s) = Some (us, u') →
  unique_users (with_users us s).
Proof.
  intros Huniq. unfold user_update.
  destruct (findFirst p (users s)) as [u|] eqn:Hf; [|done].
  destruct (existsb _ _) eqn:Hclash; [done|]. intros Hu.
  destruct (update_Some_inv _ _ _ _ _ Hu) as (r & Hr & -> & _ & Hrows).
  assert (r = u) as -> by congruence.
  apply findFirst_Some in Hf as [Hin _].
  assert (Hids' : List.NoDup (List.map User.id us)).
  { rewrite (update_map_key User.id _ (UserData.apply d) _ _ _ (λ _, eq_refl) Hu).
    apply Huniq. }
  pose proof (update_In_new _ _ _ _ _ Hu) as Hnew.
  eapply unique_users_new_row; [done..| |done].
  intros x Hx Hxs Hid.
  eapply (key_selects User.id (user_is (User.id (UserData.apply d u))));
    [exact Hids'|exact Hnew|by apply user_is_spec| |done|by apply user_is_spec].
  intros y. by rewrite user_is_spec.
Qed.

Lemma user_create_unique s u us :
  unique_users s → user_create u (users s) = Some us →
  unique_users (with_users us s).
Proof.
  intros Huniq. unfold user_create.
  destruct (existsb (user_is _) _) eqn:Hid; [done|].
  destruct (existsb (user_clash _) _) eqn:Hclash; [done|]. simpl. intros [= <-].
  rewrite existsb_false in Hid.
  assert (Hfresh : ∀ x, In x (users s) → User.id x ≠ User.id u).
  { intros x Hx Heq. specialize (Hid x Hx). apply user_is_spec in Heq. congruence. }
  eapply (unique_users_new_row s _ u); [done| | | | |done].
  - apply (append_NoDup_key User.id); [apply Huniq|done].
  - apply in_app_iff. right. by left.
  - intros x [?|[<-|[]]]%in_app_iff; [by right|by left].
  - intros x _ Hxs Heq. by apply Hfresh in Heq.
Qed.

Lemma wf_with_users s us :
  wf s → unique_users (with_users us s) → wf (with_users us s).
Proof. intros [Hids Hpids Husers Hrefs Htrash] Hus. by split. Qed.

Lemma google_verify_wf e profile s : wf s → wf (fst (google_verify e profile s)).
Proof.
  intros Hwf. unfold google_verify.
  destruct (findFirst (user_googleId_is _) _); destruct (head _) as [email|]; try done.
  - destruct (user_update _ _ _) as [[us u]|] eqn:Hu; [|done]. simpl.
    apply wf_with_users; [done|]. eapply user_update_unique; [apply Hwf|done].
  - destruct (findFirst (user_email_is _) _).
    + destruct (user_update _ _ _) as [[us u]|] eqn:Hu; [|done]. simpl.
      apply wf_with_users; [done|]. eapply user_update_unique; [apply Hwf|done].
    + destruct (user_create _ _) as [us|] eqn:Hu; [|done]. simpl.
      apply wf_with_users; [done|]. eapply user_create_unique; [apply Hwf|done].
Qed.

Lemma user_delete_account_wf userId s : wf s → wf (fst (user_delete_account userId s)).
Proof.
  intros [Hids Hpids (Huids & Hemails & Hgoogle) Hrefs Htrash]. unfold user_delete_account.
  destruct (delete _ _) as [us|] eqn:Hd; [|by split]. simpl.
  pose proof (delete_Some_incl _ _ _ Hd) as Hincl.
  split.
  - by apply (deleteMany_NoDup_key Task.id).
  - by apply (deleteMany_NoDup_key Project.id).
  - split_and!; simpl.
    + by eapply (delete_NoDup_key User.id).
    + intros x y Hx Hy. apply Hemails; by apply Hincl.
    + intros x y g Hx Hy. apply Hgoogle; by apply Hincl.
  - intros x p Hx Hp. simpl in Hx. apply In_deleteMany in Hx as [Hx Hown].
    destruct (Hrefs x p Hx Hp) as (pr & Hpr & ? & Hu).
    exists pr. split_and!; [|done..]. simpl. apply In_deleteMany. split; [done|].
    unfold project_of_user. apply bool_decide_eq_false. rewrite Hu. intros Heq.
    unfold Where.matches in Hown. simpl in Hown.
    rewrite !andb_true_r, bool_decide_eq_false in Hown. done.
  - intros x Hx. simpl in Hx. apply In_deleteMany in Hx as [Hx _]. by apply Htrash.
Qed.

Section Reachable.
Variable bcrypt_hash : string → string → string.
Variable bcrypt_compare : string → string → bool.
Variable salt : Env → string.

Lemma auth_register_wf e email password name s :
  wf s → wf (fst (auth_register bcrypt_hash salt e email password name s)).
Proof.
  intros Hwf. unfold auth_register.
  destruct (findFirst _ _); [done|].
  destruct (user_create _ _) as [us|] eqn:Hu; [|done]. simpl.
  apply wf_with_users; [done|]. eapply user_create_unique; [apply Hwf|done].
Qed.

Lemma route_wf e userId r s :
  wf s → wf (fst (route bcrypt_hash bcrypt_compare salt e userId r s)).
Proof.
  intros Hwf. destruct r; simpl route.
  - done.
  - unfold tasks_get_one. by destruct (findFirst _ _).
  - by apply tasks_post_wf.
  - by apply tasks_put_wf.
  - by apply tasks_toggle_wf.
  - by apply tasks_delete_wf.
  - by apply tasks_restore_wf.
  - by apply tasks_delete_permanent_wf.
  - done.
  - unfold projects_get_one. by destruct (findFirst _ _).
  - by apply projects_post_wf.
  - by apply projects_put_wf.
  - by apply projects_delete_wf.
  - unfold user_get_profile. by destruct (findFirst _ _).
  - unfold user_put_profile.
    destruct (user_update _ _ _) as [[us u]|] eqn:Hu; [|done]. simpl.
    apply wf_with_users; [done|]. eapply user_update_unique; [apply Hwf|done].
  - unfold user_put_password.
    destruct (findFirst _ _) as [u|]; [|done].
    destruct (User.password u) as [h|]; [|done].
    destruct (negb (truthy h)); [done|].
    destruct (negb (bcrypt_compare _ _)); [done|].
    destruct (user_update _ _ _) as [[us u']|] eqn:Hu; [|done]. simpl.
    apply wf_with_users; [done|]. eapply user_update_unique; [apply Hwf|done].
  - by apply user_delete_account_wf.
Qed.

Lemma step_wf e c s :
  wf s → wf (fst (step bcrypt_hash bcrypt_compare salt e c s)).
Proof.
  intros Hwf. destruct c; simpl.
  - by apply auth_register_wf.
  - unfold auth_login.
  destruct (negb (truthy email) || negb (truthy password)); [done|].
  by destruct (local_verify _ _ _ _).
  - unfold auth_google_callback.
    pose proof (google_verify_wf e profile s Hwf) as H.
    by destruct (google_verify e profile s) as [s' []].
  - destruct (jwt_verify _ _); [|done..]. by apply route_wf.
Qed.

Lemma exec_wf trace s :
  wf s → wf (exec bcrypt_hash bcrypt_compare salt trace s).
Proof.
  revert s. induction trace as [|[e c] rest IH]; intros s Hwf; simpl; [done|].
  by apply IH, step_wf.
Qed.
End Reachable.

Lemma empty_store_wf : wf empty_store.
Proof.
  split; try (by constructor); try (by intros ?).
  split_and!; [by constructor|by intros ?|by intros ?].
Qed.

Lemma wf_no_dangling s : wf s → no_dangling s.
Proof.
  intros Hwf t p Ht Hp. destruct (wf_refs s Hwf t p Ht Hp) as (pr & ? & ? & _). eauto.
Qed.

(** * Deleting a project *)

Lemma delete_Some_find {A} (p : A → bool) rows rows' :
  delete p rows = Some rows' → is_Some (findFirst p rows).
Proof.
  revert rows'. induction rows as [|r0 rs IH]; intros rows'; simpl; [done|].
  destruct (p r0); [eauto|].
  destruct (delete p rs) as [rs'|]; [|done]. intros _. by eapply IH.
Qed.

Lemma delete_project_gone s id ps :
  unique_project_ids s → delete (project_is id) (projects s) = Some ps →
  ∀ pr, In pr ps → Project.id pr ≠ id.
Proof.
  intros Hids Hd pr Hpr.
  destruct (delete_Some_find _ _ _ Hd) as [p0 Hf].
  apply findFirst_Some in Hf as [Hin Hp0].
  assert (Hsel : selects (project_is id) (projects s) p0).
  { apply (key_selects Project.id); [done..|].
    intros x Hx. apply project_is_spec in Hx, Hp0. congruence. }
  rewrite (delete_deleteMany _ _ p0) in Hd by (done || by eapply NoDup_key_rows).
  injection Hd as <-. apply In_deleteMany in Hpr as [_ Hpr].
  intros Hid. apply project_is_spec in Hid. congruence.
Qed.

Lemma updateMany_detach id rows :
  updateMany (task_in_project id) (Task.apply (data_projectId None)) rows
  = List.map (λ t, if bool_decide (Task.projectId t = Some id) then detached t else t) rows.
Proof.
  unfold updateMany. apply map_ext. intros t.
  destruct (task_in_project id t) eqn:E.
  - apply task_in_project_spec in E. by rewrite bool_decide_true.
  - rewrite bool_decide_false; [done|]. intros Hp.
    apply task_in_project_spec in Hp. congruence.
Qed.

Lemma detach_idempotent id rows :
  List.map detached
    (List.map (λ t, if bool_decide (Task.projectId t = Some id) then detached t else t) rows)
  = List.map detached rows.
Proof. rewrite map_map. apply map_ext. intros t. by case_bool_decide. Qed.

Lemma projects_delete_not_found userId id s :
  findFirst (project_owned id userId) (projects s) = None →
  projects_delete userId id s = (s, NotFound_project).
Proof. unfold projects_delete. by intros ->. Qed.

Lemma projects_delete_found userId id s p0 :
  findFirst (project_owned id userId) (projects s) = Some p0 →
  ∃ ps,
    delete (project_is id) (projects s) = Some ps
    ∧ projects_delete userId id s
      = (mkStore (users s) ps
           (updateMany (task_in_project id) (Task.apply (data_projectId None)) (tasks s)),
         json (J_message "Project deleted successfully")).
Proof.
  intros Hf. destruct (projects_delete_effect userId id s) as [[_ Hn]|H]; [congruence|done].
Qed.

Lemma delete_project_filter s id ps :
  unique_project_ids s → delete (project_is id) (projects s) = Some ps →
  ps = List.filter (λ p, negb (bool_decide (Project.id p = id))) (projects s).
Proof.
  intros Hids Hd.
  destruct (delete_Some_find _ _ _ Hd) as [p0 Hf].
  apply findFirst_Some in Hf as [Hin Hp0].
  assert (Hsel : selects (project_is id) (projects s) p0).
  { apply (key_selects Project.id); [done..|].
    intros x Hx. apply project_is_spec in Hx, Hp0. congruence. }
  rewrite (delete_deleteMany _ _ p0) in Hd by (done || by eapply NoDup_key_rows).
  by injection Hd as <-.
Qed.

Lemma detach_keeps_references s id :
  no_dangling s →
  no_dangling
    (with_tasks
       (updateMany (task_in_project id) (Task.apply (data_projectId None)) (tasks s)) s).
Proof.
  intros Hs t p Ht Hp. simpl in Ht. rewrite updateMany_detach in Ht.
  apply in_map_iff in Ht as (x & <- & Hx).
  case_bool_decide; [done|]. by apply (Hs x).
Qed.

(** C5.  In every store the server can reach, no task refers to a project
    that is not stored.  Deleting a project there answers [NotFound] and
    changes nothing when the caller owns no project of that id; when the
    caller owns one, that project and no other is removed and the reference
    of exactly the tasks that pointed at it is cleared: afterwards no task
    points at the deleted id, no task has been removed, and no field of a
    task other than [projectId] has changed.  The references are cleared
    before the project is removed, so that not even the store between the
    two writes of the transaction holds a task that refers to a missing
    project. *)
Theorem C5_project_deletion_clears_references bcrypt_hash bcrypt_compare salt trace :
  let s := exec bcrypt_hash bcrypt_compare salt trace empty_store in
  no_dangling s
  ∧ ∀ userId id,
      let s' := fst (projects_delete userId id s) in
      no_dangling s'
      ∧ List.map detached (tasks s') = List.map detached (tasks s)
      ∧ ((∀ pr, In pr (projects s) → Project.id pr = id → Project.userId pr ≠ userId) →
         projects_delete userId id s = (s, NotFound_project))
      ∧ (∀ pr, In pr (projects s) → Project.id pr = id → Project.userId pr = userId →
         snd (projects_delete userId id s)
         = json (J_message "Project deleted successfully")
         ∧ users s' = users s
         ∧ projects s'
           = List.filter (λ p, negb (bool_decide (Project.id p = id))) (projects s)
         ∧ ¬ In pr (projects s')
         ∧ tasks s'
           = List.map
               (λ t, if bool_decide (Task.projectId t = Some id)
                     then detached t else t)
               (tasks s)
         ∧ (∀ t, In t (tasks s') → Task.projectId t ≠ Some id)
         ∧ transaction_states (projects_delete_writes id) s
           = [s;
              with_tasks
                (List.map
                   (λ t, if bool_decide (Task.projectId t = Some id)
                         then detached t else t)
                   (tasks s)) s;
              s']
         ∧ Forall no_dangling (transaction_states (projects_delete_writes id) s)).
Proof.
  intros s.
  assert (Hwf : wf s) by apply exec_wf, empty_store_wf.
  split; [by apply wf_no_dangling|]. intros userId id s'.
  split; [by apply wf_no_dangling, projects_delete_wf|].
  unfold s'.
  destruct (findFirst (project_owned id userId) (projects s)) as [p0|] eqn:Hf.
  - destruct (projects_delete_found _ _ _ _ Hf) as (ps & Hd & ->).
    cbn [fst snd users projects tasks]. rewrite updateMany_detach.
    pose proof (delete_project_filter s id ps (wf_project_ids s Hwf) Hd) as Hps.
    split; [apply detach_idempotent|]. split.
    { intros Hnone. apply findFirst_Some in Hf as [Hin Hown].
      apply project_owned_spec in Hown as [Hid Hu]. by destruct (Hnone p0 Hin Hid). }
    intros pr Hpr Hid Hu.
    assert (Hstates :
      transaction_states (projects_delete_writes id) s
      = [s;
         with_tasks
           (List.map
              (λ t, if bool_decide (Task.projectId t = Some id) then detached t else t)
              (tasks s)) s;
         mkStore (users s) ps
           (List.map
              (λ t, if bool_decide (Task.projectId t = Some id) then detached t else t)
              (tasks s))]).
    { unfold projects_delete_writes. cbn [transaction_states].
      rewrite updateMany_detach. cbn [projects with_tasks]. rewrite Hd. reflexivity. }
    split_and!; [done|done|done| |done| |done|].
    + intros Hin. by eapply (delete_project_gone s id ps (wf_project_ids s Hwf) Hd pr).
    + intros t Ht. apply in_map_iff in Ht as (x & <- & Hx).
      case_bool_decide; [done|]. done.
    + rewrite Hstates. repeat constructor.
      * by apply wf_no_dangling.
      * rewrite <-updateMany_detach. by apply detach_keeps_references, wf_no_dangling.
      * pose proof (projects_delete_wf userId id s Hwf) as Hwf'.
        destruct (projects_delete_found _ _ _ _ Hf) as (ps' & Hd' & Heq).
        rewrite Heq, updateMany_detach in Hwf'. simpl in Hwf'.
        assert (ps' = ps) as -> by congruence. by apply wf_no_dangling.
  - rewrite (projects_delete_not_found _ _ _ Hf). simpl.
    split; [done|]. split; [done|].
    intros pr Hpr Hid Hu. rewrite findFirst_None in Hf.
    specialize (Hf pr Hpr).
    assert (project_owned id userId pr = true) by by apply project_owned_spec.
    congruence.
Qed.

Lemma C5_project_deletion_clears_references_witness :
  let s := ProjectRun.store in
  let s' := fst (projects_delete "u-ann" "p-home" s) in
  In ProjectRun.home (projects s)
  ∧ Project.id ProjectRun.home = "p-home"
  ∧ Project.userId ProjectRun.home = "u-ann"
  ∧ snd (projects_delete "u-ann" "p-home" s)
    = json (J_message "Project deleted successfully")
  ∧ users s' = users s
  ∧ projects s'
    = List.filter (λ p, negb (bool_decide (Project.id p = "p-home"))) (projects s)
  ∧ ¬ In ProjectRun.home (projects s')
  ∧ tasks s'
    = List.map
        (λ t, if bool_decide (Task.projectId t = Some "p-home")
              then detached t else t)
        (tasks s)
  ∧ (∀ t, In t (tasks s') → Task.projectId t ≠ Some "p-home")
  ∧ transaction_states (projects_delete_writes "p-home") s
    = [s;
       with_tasks
         (List.map
            (λ t, if bool_decide (Task.projectId t = Some "p-home")
                  then detached t else t)
            (tasks s)) s;
       s']
  ∧ Forall no_dangling (transaction_states (projects_delete_writes "p-home") s).
Proof.
  intros s s'.
  assert (Hin : In ProjectRun.home (projects s)) by (vm_compute; tauto).
  split; [exact Hin|]. split; [reflexivity|]. split; [reflexivity|].
  exact (proj2 (proj2 (proj2
           (proj2 (C5_project_deletion_clears_references
                     ProjectRun.hash ProjectRun.compare (λ _, "salt") ProjectRun.trace)
              "u-ann" "p-home")))
           ProjectRun.home Hin eq_refl eq_refl).
Defined.

Example project_run_store :
  ProjectRun.store
  = mkStore
      [User.mk "u-ann" "ann@example.com" (Some "#secret1") None "ann" None 1]
      [ProjectRun.home]
      [Task.mk "t-paint" "Paint the fence" None None MEDIUM false false None
         (Some "p-home") "u-ann" 3;
       Task.mk "t-read" "Read" None (Some 9) LOW false false None None "u-ann" 4]
  ∧ fst (projects_delete "u-ann" "p-home" ProjectRun.store)
    = mkStore
        [User.mk "u-ann" "ann@example.com" (Some "#secret1") None "ann" None 1]
        []
        [Task.mk "t-paint" "Paint the fence" None None MEDIUM false false None
           None "u-ann" 3;
         Task.mk "t-read" "Read" None (Some 9) LOW false false None None "u-ann" 4].
Proof. split; vm_compute; reflexivity. Qed.

Example project_deletion_sample :
  projects_delete "u-alice" "p-home" Sample.store
  = (mkStore [Sample.alice; Sample.bob] [Sample.lab]
       [detached Sample.open_task; Sample.done_task; Sample.binned_task;
        Sample.bobs_task],
     json (J_message "Project deleted successfully")).
Proof. vm_compute. reflexivity. Qed.

(** The sample store satisfies the invariant of reachable stores. *)
Lemma Sample_wf : wf Sample.store.
Proof.
  split.
  - apply Sample_unique_task_ids.
  - unfold unique_project_ids; simpl. solve_NoDup.
  - apply Sample_unique_users.
  - intros t p Hin Hp. simpl in Hin.
    destruct Hin as [<-|[<-|[<-|[<-|[]]]]]; simpl in Hp; simplify_eq.
    + exists Sample.home. simpl. tauto.
    + exists Sample.lab. simpl. tauto.
  - apply Sample_trash_stamped.
Qed.

(** * What a listing contains *)

Ltac where_cases q :=
  unfold list_where, Where.matches;
  destruct (q_view q) as [[]|], (q_status q) as [[]|], (q_priority q),
    (q_projectId q), (q_search q) as [se|];
  try destruct (truthy se); simpl;
  rewrite ?andb_true_iff, ?bool_decide_eq_true.

(** A listing never crosses the trash boundary: the trash view lists only
    soft-deleted tasks, every other listing (whatever the view, status,
    priority, project and search) lists none. *)
Theorem listing_respects_trash_boundary e userId q s :
  Forall
    (λ x, Task.isDeleted x
          = match q_view q with Some View.trash => true | _ => false end)
    (list_tasks e userId q s).
Proof.
  apply List.Forall_forall. intros x.
  rewrite list_tasks_matches. intros [_ Hm]. revert Hm.
  where_cases q; tauto.
Qed.

Lemma In_default_listing e userId s x :
  In x (list_tasks e userId no_query s)
  ↔ In x (tasks s) ∧ Task.userId x = userId ∧ Task.isDeleted x = false.
Proof.
  rewrite list_tasks_matches. unfold list_where, Where.matches. simpl.
  rewrite !andb_true_r, !andb_true_iff, !bool_decide_eq_true. tauto.
Qed.

Lemma In_trash_listing e userId s x :
  In x (list_tasks e userId (mkQuery None None None None (Some View.trash)) s)
  ↔ In x (tasks s) ∧ Task.userId x = userId ∧ Task.isDeleted x = true.
Proof.
  rewrite list_tasks_matches. unfold list_where, Where.matches. simpl.
  rewrite !andb_true_r, !andb_true_iff, !bool_decide_eq_true. tauto.
Qed.

(** Without filters, the default listing is exactly the caller's tasks that
    are not in the trash, and the trash view exactly the caller's tasks that
    are: every task of a user is in one of the two and in no more. *)
Theorem active_and_trash_listings_partition e userId s x :
  (In x (list_tasks e userId no_query s)
   ↔ In x (tasks s) ∧ Task.userId x = userId ∧ Task.isDeleted x = false)
  ∧ (In x (list_tasks e userId (mkQuery None None None None (Some View.trash)) s)
     ↔ In x (tasks s) ∧ Task.userId x = userId ∧ Task.isDeleted x = true).
Proof. split; [apply In_default_listing|apply In_trash_listing]. Qed.








(** On the day the clocks go forward the window of [today] is 23 hours long:
    at noon UTC of a day whose change is at 01:00 UTC, the local day began
    one hour before midnight UTC and ends two hours before the next. *)
Example today_window_on_a_short_day :
  let e := mkEnv (10 * msPerDay + 12 * msPerHour)
             (spring_forward (10 * msPerDay + msPerHour)) "fresh-id" in
  startOfDay e = 10 * msPerDay - msPerHour
  ∧ nextDay e (startOfDay e) = 11 * msPerDay - 2 * msPerHour
  ∧ nextDay e (startOfDay e) = startOfDay e + 23 * msPerHour.
Proof. vm_compute. done. Qed.

Lemma lower_ascii_idempotent c : lower_ascii (lower_ascii c) = lower_ascii c.
Proof. destruct c as [[] [] [] [] [] [] [] []]; reflexivity. Qed.

Lemma toLowerCase_idempotent s : toLowerCase (toLowerCase s) = toLowerCase s.
Proof.
  induction s as [|c r IH]; simpl; [done|].
  by rewrite lower_ascii_idempotent, IH.
Qed.

Lemma truthy_toLowerCase s : truthy (toLowerCase s) = truthy s.
Proof. by destruct s. Qed.

(** The patterns of the text search *)

Lemma like_tokens_any rest :
  like_tokens (String "%" rest) = cons like_any <$> like_tokens rest.
Proof. reflexivity. Qed.

Lemma like_tokens_escape c rest :
  like_tokens (String backslash (String c rest)) = cons (like_char c) <$> like_tokens rest.
Proof. reflexivity. Qed.

Lemma like_tokens_cases c rest :
  like_tokens (String c rest)
  = if Ascii.eqb c "%" then cons like_any <$> like_tokens rest
    else if Ascii.eqb c "_" then cons like_one <$> like_tokens rest
    else if Ascii.eqb c backslash then
      match rest with
      | EmptyString => None
      | String c' rest' => cons (like_char c') <$> like_tokens rest'
      end
    else cons (like_char c) <$> like_tokens rest.
Proof. reflexivity. Qed.

Lemma like_tokens_open s :
  is_Some (like_tokens (s +:+ "%"))
  ∧ ∀ c, is_Some (like_tokens (String c (s +:+ "%"))).
Proof.
  induction s as [|a r [IH1 IH2]].
  - split; [by eexists|]. intros c. rewrite like_tokens_cases.
    change ("" +:+ "%") with "%".
    destruct (Ascii.eqb c "%"), (Ascii.eqb c "_"), (Ascii.eqb c backslash); by eexists.
  - assert (H1 : is_Some (like_tokens (String a r +:+ "%"))) by apply IH2.
    split; [done|]. intros c. rewrite like_tokens_cases.
    change (String a r +:+ "%") with (String a (r +:+ "%")) in *.
    destruct (Ascii.eqb c "%"), (Ascii.eqb c "_"), (Ascii.eqb c backslash);
      by apply fmap_is_Some.
Qed.

Lemma contains_pattern_accepted s : is_Some (like_tokens (Where.contains_pattern s)).
Proof.
  unfold Where.contains_pattern. change ("%" +:+ s +:+ "%") with (String "%" (s +:+ "%")).
  rewrite like_tokens_any. apply fmap_is_Some, like_tokens_open.
Qed.


Lemma lower_ascii_special c (x : ascii) :
  x = "%"%char ∨ x = "_"%char ∨ x = backslash →
  Ascii.eqb (lower_ascii c) x = Ascii.eqb c x.
Proof.
  intros [->|[->| ->]]; destruct c as [[] [] [] [] [] [] [] []]; reflexivity.
Qed.

Lemma like_tokens_toLowerCase p :
  like_tokens (toLowerCase p) = List.map lower_token <$> like_tokens p
  ∧ ∀ c, like_tokens (toLowerCase (String c p))
         = List.map lower_token <$> like_tokens (String c p).
Proof.
  induction p as [|a r [IH1 IH2]].
  - split; [done|]. intros c. cbn [toLowerCase]. rewrite !like_tokens_cases.
    rewrite !lower_ascii_special by auto.
    by destruct (Ascii.eqb c "%"), (Ascii.eqb c "_"), (Ascii.eqb c backslash).
  - split; [apply IH2|]. intros c.
    change (toLowerCase (String c (String a r)))
      with (String (lower_ascii c) (toLowerCase (String a r))).
    rewrite (like_tokens_cases (lower_ascii c)), (like_tokens_cases c).
    rewrite !lower_ascii_special by auto.
    rewrite IH2.
    change (toLowerCase (String a r)) with (String (lower_ascii a) (toLowerCase r)).
    cbv beta iota. rewrite IH1.
    destruct (Ascii.eqb c "%"), (Ascii.eqb c "_"), (Ascii.eqb c backslash);
      by destruct (like_tokens (String a r)), (like_tokens r).
Qed.

Lemma ilike_match_any rest text :
  ilike_match (like_any :: rest) text
  = ilike_match rest text ||
    match text with
    | EmptyString => false
    | String _ text' => ilike_match (like_any :: rest) text'
    end.
Proof. by destruct text. Qed.

Lemma ilike_match_lower tokens text :
  ilike_match (List.map lower_token tokens) text = ilike_match tokens text.
Proof.
  revert text. induction tokens as [|[| |c] rest IH]; intros text.
  - done.
  - change (List.map lower_token (like_any :: rest))
      with (like_any :: List.map lower_token rest).
    induction text as [|d text' IHt].
    + rewrite !ilike_match_any. by rewrite IH.
    + rewrite (ilike_match_any (List.map _ _)), (ilike_match_any rest).
      by rewrite IH, IHt.
  - destruct text; simpl; [done|apply IH].
  - destruct text as [|d text']; simpl; [done|].
    by rewrite lower_ascii_idempotent, IH.
Qed.

Lemma toLowerCase_app s t : toLowerCase (s +:+ t) = toLowerCase s +:+ toLowerCase t.
Proof. induction s as [|c r IH]; simpl; [done|]. by rewrite IH. Qed.

Lemma contains_insensitive_toLowerCase s field :
  Where.contains_insensitive (toLowerCase s) field = Where.contains_insensitive s field.
Proof.
  unfold Where.contains_insensitive, ilike.
  replace (Where.contains_pattern (toLowerCase s)) with (toLowerCase (Where.contains_pattern s))
    by (unfold Where.contains_pattern; by rewrite !toLowerCase_app).
  rewrite (proj1 (like_tokens_toLowerCase _)).
  destruct (like_tokens (Where.contains_pattern s)) as [ts|]; simpl; [|done].
  apply ilike_match_lower.
Qed.





Lemma list_tasks_ext e userId q q' s :
  (∀ x, Where.matches (list_where e userId q) x
        = Where.matches (list_where e userId q') x) →
  list_tasks e userId q s = list_tasks e userId q' s.
Proof.
  intros Hext. unfold list_tasks, findMany_orderBy, findMany.
  f_equal. by apply filter_ext.
Qed.








(** An empty search text filters nothing, and the letter case of the search
    text does not matter. *)
Theorem search_text_empty_or_recased e userId q s search :
  list_tasks e userId (with_search (Some "") q) s
  = list_tasks e userId (with_search None q) s
  ∧ list_tasks e userId (with_search (Some (toLowerCase search)) q) s
    = list_tasks e userId (with_search (Some search) q) s.
Proof.
  split; [done|]. apply list_tasks_ext. intros x.
  unfold with_search, list_where. simpl. rewrite truthy_toLowerCase.
  destruct (truthy search); [|done].
  unfold Where.matches.
  destruct (q_view q) as [[]|], (q_status q) as [[]|], (q_priority q),
    (q_projectId q); cbn -[Where.contains_insensitive];
    destruct (Task.description x);
    rewrite ?contains_insensitive_toLowerCase; done.
Qed.

(** * Composing the task operations *)

Lemma toggled_toggled t : toggled (toggled t) = t.
Proof. destruct t. unfold toggled. simpl. by rewrite negb_involutive. Qed.

Lemma tasks_toggle_owned s t :
  unique_task_ids s → In t (tasks s) →
  fst (tasks_toggle (Task.userId t) (Task.id t) s)
  = with_tasks (replace_task (toggled t) (tasks s)) s.
Proof.
  intros Hids Hin. unfold tasks_toggle.
  rewrite find_task_owned by done.
  rewrite update_task by done. reflexivity.
Qed.

Lemma tasks_delete_owned e s t :
  unique_task_ids s → In t (tasks s) →
  fst (tasks_delete e (Task.userId t) (Task.id t) s)
  = with_tasks (replace_task (trashed (now e) t) (tasks s)) s.
Proof.
  intros Hids Hin. unfold tasks_delete.
  rewrite find_task_owned by done.
  rewrite update_task by done. reflexivity.
Qed.

Lemma replace_task_unique s t t' :
  unique_task_ids s → Task.id t' = Task.id t →
  unique_task_ids (with_tasks (replace_task t' (tasks s)) s).
Proof. intros Hids _. unfold unique_task_ids. simpl. by rewrite replace_task_id. Qed.

(** Toggling a task twice gives back the store one started from. *)
Theorem toggle_twice_is_identity s t :
  unique_task_ids s → In t (tasks s) →
  fst (tasks_toggle (Task.userId t) (Task.id t)
         (fst (tasks_toggle (Task.userId t) (Task.id t) s)))
  = s.
Proof.
  intros Hids Hin. rewrite (tasks_toggle_owned s t) by done.
  set (s1 := with_tasks (replace_task (toggled t) (tasks s)) s).
  assert (Hids1 : unique_task_ids s1)
    by (unfold s1; by apply (replace_task_unique s t)).
  assert (Hin1 : In (toggled t) (tasks s1)) by (by apply (In_replace_task t)).
  pose proof (tasks_toggle_owned s1 (toggled t) Hids1 Hin1) as H.
  cbn [toggled Task.id Task.userId] in H. rewrite H, toggled_toggled.
  unfold s1. simpl. rewrite replace_task_back by done. by destruct s.
Qed.

Lemma toggle_twice_is_identity_witness :
  unique_task_ids Sample.store
  ∧ In Sample.done_task (tasks Sample.store)
  ∧ fst (tasks_toggle "u-alice" "t-done"
           (fst (tasks_toggle "u-alice" "t-done" Sample.store)))
    = Sample.store.
Proof.
  assert (Hids : unique_task_ids Sample.store)
    by (unfold unique_task_ids; simpl; solve_NoDup).
  assert (Hin : In Sample.done_task (tasks Sample.store)) by (simpl; tauto).
  split_and!; [done|done|].
  exact (toggle_twice_is_identity Sample.store Sample.done_task Hids Hin).
Defined.

Lemma In_replace_task_inv t' rows x :
  In x (replace_task t' rows) → x = t' ∨ (In x rows ∧ Task.id x ≠ Task.id t').
Proof.
  unfold replace_task. rewrite in_map_iff. intros (y & <- & Hy).
  case_bool_decide; [by left|by right].
Qed.

Lemma In_replace_task_other t' rows x :
  In x rows → Task.id x ≠ Task.id t' → In x (replace_task t' rows).
Proof.
  intros Hx Hne. unfold replace_task. apply in_map_iff. exists x.
  by rewrite bool_decide_false.
Qed.

(** Soft-deleting an active task moves it from the default listing of its
    owner to the trash view and leaves the listing of the other tasks as it
    was. *)
Theorem soft_delete_moves_task_to_trash_listing e e' s t :
  unique_task_ids s → In t (tasks s) → Task.isDeleted t = false →
  let s' := fst (tasks_delete e' (Task.userId t) (Task.id t) s) in
  In t (list_tasks e (Task.userId t) no_query s)
  ∧ In (trashed (now e') t)
       (list_tasks e (Task.userId t) (mkQuery None None None None (Some View.trash)) s')
  ∧ Forall (λ x, Task.id x ≠ Task.id t) (list_tasks e (Task.userId t) no_query s')
  ∧ ∀ x, Task.id x ≠ Task.id t →
      (In x (list_tasks e (Task.userId t) no_query s')
       ↔ In x (list_tasks e (Task.userId t) no_query s)).
Proof.
  intros Hids Hin Hactive s'. unfold s'.
  rewrite (tasks_delete_owned e' s t) by done.
  split_and!.
  - by apply In_default_listing.
  - apply In_trash_listing. split_and!; [|done..]. by apply (In_replace_task t).
  - apply List.Forall_forall. intros x [Hx [_ Hdel]]%In_default_listing.
    simpl in Hx. apply In_replace_task_inv in Hx as [->|[_ ?]]; done.
  - intros x Hne. rewrite !In_default_listing. simpl. split.
    + intros (Hx & ? & ?). apply In_replace_task_inv in Hx as [->|[? _]]; done.
    + intros (Hx & ? & ?). split; [|done]. by apply In_replace_task_other.
Qed.

Lemma soft_delete_moves_task_to_trash_listing_witness :
  unique_task_ids Sample.store
  ∧ In Sample.open_task (tasks Sample.store)
  ∧ Task.isDeleted Sample.open_task = false
  ∧ In Sample.open_task (list_tasks Sample.env "u-alice" no_query Sample.store)
  ∧ In (trashed 1000 Sample.open_task)
       (list_tasks Sample.env "u-alice"
          (mkQuery None None None None (Some View.trash))
          (fst (tasks_delete Sample.env "u-alice" "t-open" Sample.store))).
Proof.
  assert (Hids : unique_task_ids Sample.store)
    by (unfold unique_task_ids; simpl; solve_NoDup).
  assert (Hin : In Sample.open_task (tasks Sample.store)) by (simpl; tauto).
  destruct (soft_delete_moves_task_to_trash_listing Sample.env Sample.env
              Sample.store Sample.open_task Hids Hin eq_refl) as (H1 & H2 & _).
  split_and!; [done|done|done|exact H1|exact H2].
Defined.

Lemma findFirst_is_Some {A} (p : A → bool) rows x :
  In x rows → p x = true → is_Some (findFirst p rows).
Proof.
  intros Hin Hp. destruct (findFirst p rows) eqn:E; [eauto|].
  rewrite findFirst_None in E. rewrite (E x Hin) in Hp. done.
Qed.

Lemma findFirst_app_new {A} (p : A → bool) rows r :
  (∀ x, In x rows → p x = false) → p r = true →
  findFirst p (rows ++ [r]) = Some r.
Proof.
  intros Hnone Hr. induction rows as [|r0 rs IH]; simpl.
  - by rewrite Hr.
  - rewrite (Hnone r0) by (by left). apply IH. intros x Hx. apply Hnone. by right.
Qed.

(** Creating a task stores one new row after the existing ones -- title and
    description trimmed, priority MEDIUM unless given, not complete, not in
    the trash -- answers 201 with it, and a fetch of the new id by the
    creator returns it.  This needs the generated id to be unused and the
    project, if one is named, to be a project of the creator. *)
Theorem created_task_is_stored_and_fetched e userId b s :
  (∀ x, In x (tasks s) → Task.id x ≠ newId e) →
  (∀ p, tp_projectId b = Some p →
     ∃ pr, In pr (projects s) ∧ Project.id pr = p ∧ Project.userId pr = userId) →
  let r := new_task e userId b in
  let s' := with_tasks (tasks s ++ [r]) s in
  tasks_post e userId b s
  = (s', mkResponse 201 (J_task_message (include_project s' r) "Task created successfully"))
  ∧ tasks_get_one userId (newId e) s' = (s', json (J_task (include_project s' r)))
  ∧ Task.isComplete r = false ∧ Task.isDeleted r = false ∧ Task.deletedAt r = None
  ∧ (tp_priority b = None → Task.priority r = MEDIUM).
Proof.
  intros Hfresh Hproject r s'.
  split_and!; [| |done..|intros H; unfold r, new_task; simpl; by rewrite H].
  - unfold tasks_post. replace (negb _) with false.
    + fold (new_task e userId b). fold r. unfold task_create.
      replace (existsb _ _) with false; [done|].
      symmetry. apply existsb_false. intros x Hx.
      destruct (task_is _ x) eqn:E; [|done].
      apply task_is_spec in E. by apply Hfresh in E.
    + symmetry. apply negb_false_iff.
      destruct (tp_projectId b) as [p|]; [|done].
      destruct (Hproject p eq_refl) as (pr & Hpr & Hid & Hu).
      apply bool_decide_eq_true. eapply findFirst_is_Some; [done|].
      by apply project_owned_spec.
  - unfold tasks_get_one. simpl tasks.
    rewrite (findFirst_app_new _ _ r); [done| |by apply task_owned_spec].
    intros x Hx. destruct (task_owned _ _ x) eqn:E; [|done].
    apply task_owned_spec in E as [E _]. by apply Hfresh in E.
Qed.

Lemma created_task_is_stored_and_fetched_witness :
  (∀ x, In x (tasks Sample.store) → Task.id x ≠ "fresh-id")
  ∧ tasks (fst (tasks_post Sample.env "u-alice"
                  (mkTaskPost "  Water plants " None None None (Some "p-home"))
                  Sample.store))
    = (tasks Sample.store
       ++ [Task.mk "fresh-id" "Water plants" None None MEDIUM false false None
             (Some "p-home") "u-alice" 1000])%list.
Proof.
  assert (Hfresh : ∀ x, In x (tasks Sample.store) → Task.id x ≠ "fresh-id").
  { intros x Hx. simpl in Hx. destruct Hx as [<-|[<-|[<-|[<-|[]]]]]; done. }
  split; [done|].
  destruct (created_task_is_stored_and_fetched Sample.env "u-alice"
              (mkTaskPost "  Water plants " None None None (Some "p-home"))
              Sample.store Hfresh) as (Hpost & _).
  { intros p [= <-]. exists Sample.home. simpl. tauto. }
  rewrite Hpost. reflexivity.
Defined.

(** A task cannot be created under a project that is not the caller's: the
    request is answered with 400 "Invalid project ID" and nothing is
    stored. *)
Theorem task_creation_requires_owned_project e userId b s p :
  tp_projectId b = Some p →
  (∀ pr, In pr (projects s) → Project.id pr = p → Project.userId pr ≠ userId) →
  tasks_post e userId b s = (s, InvalidReference).
Proof.
  intros Hp Hnone. unfold tasks_post. rewrite Hp.
  replace (findFirst _ _) with (@None Project.t); [done|].
  symmetry. apply findFirst_None. intros pr Hpr.
  destruct (project_owned _ _ pr) eqn:E; [|done].
  apply project_owned_spec in E as [? ?]. by destruct (Hnone pr).
Qed.

Lemma task_creation_requires_owned_project_witness :
  (∀ pr, In pr (projects Sample.store) → Project.id pr = "p-lab" →
     Project.userId pr ≠ "u-alice")
  ∧ tasks_post Sample.env "u-alice"
      (mkTaskPost "Borrow pipette" None None None (Some "p-lab")) Sample.store
    = (Sample.store, InvalidReference).
Proof.
  assert (H : ∀ pr, In pr (projects Sample.store) → Project.id pr = "p-lab" →
                Project.userId pr ≠ "u-alice").
  { intros pr Hpr. simpl in Hpr. destruct Hpr as [<-|[<-|[]]]; done. }
  split; [done|].
  by apply (task_creation_requires_owned_project _ _ _ _ "p-lab").
Defined.

(** An update of a task's fields never reaches its id, owner, creation time
    or trash state, touches no other row, and removes or adds none: the
    frozen columns of the table are the same before and after, whatever the
    request. *)
Theorem task_update_keeps_frozen_columns userId id b s :
  List.map frozen (tasks (fst (tasks_put userId id b s))) = List.map frozen (tasks s)
  ∧ Forall (λ x, Task.id x = id ∨ In x (tasks s)) (tasks (fst (tasks_put userId id b s)))
  ∧ users (fst (tasks_put userId id b s)) = users s
  ∧ projects (fst (tasks_put userId id b s)) = projects s.
Proof.
  unfold tasks_put.
  destruct (findFirst _ _) as [t0|]; [|by rewrite List.Forall_forall; auto].
  destruct (negb _); [by rewrite List.Forall_forall; auto|].
  destruct (update _ _ _) as [[ts t']|] eqn:Hu; [|by rewrite List.Forall_forall; auto].
  simpl. split_and!; [|apply List.Forall_forall|done|done].
  - by apply (update_map_key frozen _ (Task.apply (updateData b)) _ _ _
              (λ _, eq_refl) Hu).
  - intros x Hx.
    destruct (update_Some_inv _ _ _ _ _ Hu) as (r & Hr & _ & _ & Hrows).
    apply findFirst_Some in Hr as [_ Hr]. apply task_is_spec in Hr.
    destruct (Hrows x Hx) as [->|?]; [by left|by right].
Qed.

Lemma apply_empty_put t : Task.apply (updateData empty_put) t = t.
Proof. by destruct t. Qed.

Lemma replace_task_same t rows :
  List.NoDup (List.map Task.id rows) → In t rows → replace_task t rows = rows.
Proof.
  intros Hnd Hin. unfold replace_task. rewrite <-(map_id rows) at 2.
  apply map_ext_in. intros x Hx. case_bool_decide as E; [|done].
  symmetry. eapply (key_selects Task.id (task_is (Task.id t))); eauto.
  - by apply task_is_spec.
  - intros y. by rewrite task_is_spec.
  - by apply task_is_spec.
Qed.

(** An update that names no field changes nothing and answers with the task
    as it is. *)
Theorem empty_update_changes_nothing s t :
  unique_task_ids s → In t (tasks s) →
  tasks_put (Task.userId t) (Task.id t) empty_put s
  = (s, json (J_task_message (include_project s t) "Task updated successfully")).
Proof.
  intros Hids Hin. unfold tasks_put.
  rewrite find_task_owned by done. simpl negb. cbv iota.
  rewrite update_task by done.
  rewrite apply_empty_put, replace_task_same by done.
  rewrite include_project_with_tasks. by destruct s.
Qed.

Lemma empty_update_changes_nothing_witness :
  unique_task_ids Sample.store
  ∧ In Sample.binned_task (tasks Sample.store)
  ∧ tasks_put "u-alice" "t-bin" empty_put Sample.store
    = (Sample.store,
       json (J_task_message (include_project Sample.store Sample.binned_task)
               "Task updated successfully")).
Proof.
  assert (Hids : unique_task_ids Sample.store)
    by (unfold unique_task_ids; simpl; solve_NoDup).
  assert (Hin : In Sample.binned_task (tasks Sample.store)) by (simpl; tauto).
  split_and!; [done|done|].
  exact (empty_update_changes_nothing Sample.store Sample.binned_task Hids Hin).
Defined.

(** * Requests change the caller's rows only *)

Section FilterFacts.
Context {A : Type}.
Implicit Types (p q : A → bool) (f : A → A) (rows : list A).

Lemma update_filter_other p q f rows rows' r' r :
  update p f rows = Some (rows', r') → findFirst p rows = Some r →
  q r = false → q (f r) = false →
  List.filter q rows' = List.filter q rows.
Proof.
  revert rows'. induction rows as [|r0 rs IH]; intros rows'; simpl; [done|].
  destruct (p r0) eqn:E.
  - intros [= <- <-] [= <-] Hr Hfr. simpl. by rewrite Hr, Hfr.
  - destruct (update p f rs) as [[rs' r1]|]; [|done].
    intros [= <- <-] Hfind Hr Hfr. simpl.
    by rewrite (IH _ eq_refl Hfind Hr Hfr).
Qed.

Lemma delete_filter_other p q rows rows' r :
  delete p rows = Some rows' → findFirst p rows = Some r → q r = false →
  List.filter q rows' = List.filter q rows.
Proof.
  revert rows'. induction rows as [|r0 rs IH]; intros rows'; simpl; [done|].
  destruct (p r0) eqn:E.
  - intros [= <-] [= <-] Hr. by rewrite Hr.
  - destruct (delete p rs) as [rs'|]; [|done].
    intros [= <-] Hfind Hr. simpl. by rewrite (IH _ eq_refl Hfind Hr).
Qed.

Lemma updateMany_filter_other p q f rows :
  (∀ x, In x rows → p x = true → q x = false ∧ q (f x) = false) →
  List.filter q (updateMany p f rows) = List.filter q rows.
Proof.
  unfold updateMany. induction rows as [|r0 rs IH]; intros H; simpl; [done|].
  rewrite IH by (intros x Hx; apply H; by right).
  destruct (p r0) eqn:E; [|done].
  destruct (H r0 (or_introl eq_refl) E) as [-> ->]. done.
Qed.

Lemma deleteMany_filter_other p q rows :
  (∀ x, In x rows → q x = true → p x = false) →
  List.filter q (deleteMany p rows) = List.filter q rows.
Proof.
  unfold deleteMany. induction rows as [|r0 rs IH]; intros H; simpl; [done|].
  specialize (IH (λ x Hx, H x (or_intror Hx))).
  destruct (q r0) eqn:Eq.
  - rewrite (H r0 (or_introl eq_refl) Eq). simpl. by rewrite Eq, IH.
  - destruct (negb (p r0)); simpl; by rewrite ?Eq, IH.
Qed.

Lemma filter_app_new q rows r :
  q r = false → List.filter q (rows ++ [r]) = List.filter q rows.
Proof. intros Hr. rewrite List.filter_app. simpl. rewrite Hr. apply app_nil_r. Qed.
End FilterFacts.

Lemma find_task_is_of_owned s id userId t0 :
  unique_task_ids s →
  findFirst (task_owned id userId) (tasks s) = Some t0 →
  findFirst (task_is id) (tasks s) = Some t0 ∧ Task.userId t0 = userId.
Proof.
  intros Hids Hf. apply findFirst_Some in Hf as [Hin Hown].
  apply task_owned_spec in Hown as [<- <-]. split; [|done].
  apply selects_findFirst. by apply task_is_selects.
Qed.

Lemma find_task_is_of_trash s id userId t0 :
  unique_task_ids s →
  findFirst (task_in_trash id userId) (tasks s) = Some t0 →
  findFirst (task_is id) (tasks s) = Some t0 ∧ Task.userId t0 = userId.
Proof.
  intros Hids Hf. apply findFirst_Some in Hf as [Hin Hown].
  apply task_in_trash_spec in Hown as (<- & <- & _). split; [|done].
  apply selects_findFirst. by apply task_is_selects.
Qed.

Lemma find_project_is_of_owned s id userId p0 :
  unique_project_ids s →
  findFirst (project_owned id userId) (projects s) = Some p0 →
  findFirst (project_is id) (projects s) = Some p0 ∧ Project.userId p0 = userId.
Proof.
  intros Hids Hf. apply findFirst_Some in Hf as [Hin Hown].
  apply project_owned_spec in Hown as [<- <-]. split; [|done].
  apply selects_findFirst, (key_selects Project.id); [done|done|by apply project_is_spec|].
  intros x. by rewrite project_is_spec.
Qed.

Lemma own_task_update_foreign s A id f ts t' t0 :
  findFirst (task_is id) (tasks s) = Some t0 → Task.userId t0 = A →
  update (task_is id) f (tasks s) = Some (ts, t') →
  (∀ x, Task.userId (f x) = Task.userId x) →
  foreign_tasks A (with_tasks ts s) = foreign_tasks A s.
Proof.
  intros Hf Hu Hupd Hown. unfold foreign_tasks. simpl.
  eapply update_filter_other; [done..| |].
  - by rewrite Hu, bool_decide_true.
  - by rewrite Hown, Hu, bool_decide_true.
Qed.

Section Foreign.
Variables (e : Env) (A : string) (s : Store).
Hypothesis Hwf : wf s.

Lemma tasks_post_foreign b :
  foreign_tasks A (fst (tasks_post e A b s)) = foreign_tasks A s.
Proof.
  unfold tasks_post. destruct (negb _); [done|].
  destruct (task_create _ _) as [ts|] eqn:Hc; [|done]. simpl.
  apply task_create_Some in Hc as [-> _]. unfold foreign_tasks. simpl.
  apply filter_app_new. simpl. by rewrite bool_decide_true.
Qed.

Lemma tasks_put_foreign id b :
  foreign_tasks A (fst (tasks_put A id b s)) = foreign_tasks A s.
Proof.
  unfold tasks_put. destruct (findFirst _ _) as [t0|] eqn:Hf; [|done].
  destruct (negb _); [done|].
  destruct (update _ _ _) as [[ts t']|] eqn:Hu; [|done]. simpl.
  destruct (find_task_is_of_owned s id A t0 (wf_task_ids s Hwf) Hf) as [Hf' Hown].
  by apply (own_task_update_foreign s A id _ ts t' t0 Hf' Hown Hu).
Qed.

Lemma tasks_toggle_foreign id :
  foreign_tasks A (fst (tasks_toggle A id s)) = foreign_tasks A s.
Proof.
  unfold tasks_toggle. destruct (findFirst _ _) as [t0|] eqn:Hf; [|done].
  destruct (update _ _ _) as [[ts t']|] eqn:Hu; [|done]. simpl.
  destruct (find_task_is_of_owned s id A t0 (wf_task_ids s Hwf) Hf) as [Hf' Hown].
  by apply (own_task_update_foreign s A id _ ts t' t0 Hf' Hown Hu).
Qed.

Lemma tasks_delete_foreign id :
  foreign_tasks A (fst (tasks_delete e A id s)) = foreign_tasks A s.
Proof.
  unfold tasks_delete. destruct (findFirst _ _) as [t0|] eqn:Hf; [|done].
  destruct (update _ _ _) as [[ts t']|] eqn:Hu; [|done]. simpl.
  destruct (find_task_is_of_owned s id A t0 (wf_task_ids s Hwf) Hf) as [Hf' Hown].
  by apply (own_task_update_foreign s A id _ ts t' t0 Hf' Hown Hu).
Qed.

Lemma tasks_restore_foreign id :
  foreign_tasks A (fst (tasks_restore A id s)) = foreign_tasks A s.
Proof.
  unfold tasks_restore. destruct (findFirst _ _) as [t0|] eqn:Hf; [|done].
  destruct (update _ _ _) as [[ts t']|] eqn:Hu; [|done]. simpl.
  destruct (find_task_is_of_trash s id A t0 (wf_task_ids s Hwf) Hf) as [Hf' Hown].
  by apply (own_task_update_foreign s A id _ ts t' t0 Hf' Hown Hu).
Qed.

Lemma tasks_delete_permanent_foreign id :
  foreign_tasks A (fst (tasks_delete_permanent A id s)) = foreign_tasks A s.
Proof.
  unfold tasks_delete_permanent. destruct (findFirst _ _) as [t0|] eqn:Hf; [|done].
  destruct (delete _ _) as [ts|] eqn:Hd; [|done]. simpl.
  destruct (find_task_is_of_trash s id A t0 (wf_task_ids s Hwf) Hf) as [Hf' Hown].
  unfold foreign_tasks. simpl. eapply delete_filter_other; [done..|].
  by rewrite Hown, bool_decide_true.
Qed.

Lemma projects_post_foreign name color :
  foreign_projects A (fst (projects_post e A name color s)) = foreign_projects A s.
Proof.
  unfold projects_post.
  destruct (project_create _ _) as [ps|] eqn:Hc; [|done]. simpl.
  apply project_create_Some in Hc as [-> _]. unfold foreign_projects. simpl.
  apply filter_app_new. simpl. by rewrite bool_decide_true.
Qed.

Lemma projects_put_foreign id name color :
  foreign_projects A (fst (projects_put A id name color s)) = foreign_projects A s.
Proof.
  unfold projects_put. destruct (findFirst _ _) as [p0|] eqn:Hf; [|done].
  destruct (update _ _ _) as [[ps p']|] eqn:Hu; [|done]. simpl.
  destruct (find_project_is_of_owned s id A p0 (wf_project_ids s Hwf) Hf) as [Hf' Hown].
  unfold foreign_projects. simpl. eapply update_filter_other; [done..| |];
    simpl; by rewrite Hown, bool_decide_true.
Qed.

Lemma projects_delete_foreign id :
  foreign_projects A (fst (projects_delete A id s)) = foreign_projects A s
  ∧ foreign_tasks A (fst (projects_delete A id s)) = foreign_tasks A s.
Proof.
  unfold projects_delete. destruct (findFirst _ _) as [p0|] eqn:Hf; [|done].
  simpl transaction. destruct (delete _ _) as [ps|] eqn:Hd; [|done]. simpl.
  destruct (find_project_is_of_owned s id A p0 (wf_project_ids s Hwf) Hf) as [Hf' Hown].
  split.
  - unfold foreign_projects. simpl. eapply delete_filter_other; [done..|].
    by rewrite Hown, bool_decide_true.
  - unfold foreign_tasks. simpl. apply updateMany_filter_other.
    intros x Hx Hp. apply task_in_project_spec in Hp.
    destruct (wf_refs s Hwf x id Hx Hp) as (pr & Hpr & Hid & Hu).
    apply findFirst_Some in Hf' as [Hp0 Hid0]. apply project_is_spec in Hid0.
    assert (pr = p0) as ->
      by (eapply same_project_id; [apply Hwf|done..|congruence]).
    simpl. rewrite <-Hu, Hown, bool_decide_true by done. done.
Qed.

Lemma user_delete_account_foreign :
  foreign_tasks A (fst (user_delete_account A s)) = foreign_tasks A s
  ∧ foreign_projects A (fst (user_delete_account A s)) = foreign_projects A s
  ∧ other_users A (fst (user_delete_account A s)) = other_users A s.
Proof.
  unfold user_delete_account. destruct (delete _ _) as [us|] eqn:Hd; [|done].
  simpl. split_and!.
  - unfold foreign_tasks. simpl. apply deleteMany_filter_other.
    intros x _ Hq. unfold Where.matches. simpl. rewrite !andb_true_r.
    by apply negb_true_iff in Hq.
  - unfold foreign_projects. simpl. apply deleteMany_filter_other.
    intros x _ Hq. by apply negb_true_iff in Hq.
  - unfold other_users. simpl.
    destruct (delete_Some_find _ _ _ Hd) as [u Hu].
    eapply delete_filter_other; [done..|].
    apply findFirst_Some in Hu as [_ Hu]. unfold user_is in Hu. by rewrite Hu.
Qed.

Lemma user_update_foreign d us u' :
  user_update (user_is A) d (users s) = Some (us, u') →
  other_users A (with_users us s) = other_users A s.
Proof.
  unfold user_update. destruct (findFirst _ _) as [u|] eqn:Hf; [|done].
  destruct (existsb _ _); [done|]. intros Hu.
  unfold other_users. simpl. eapply update_filter_other; [done..| |];
    apply findFirst_Some in Hf as [_ Hf]; unfold user_is in Hf; simpl;
    by rewrite Hf.
Qed.
End Foreign.

Ltac untouched :=
  unfold foreign_tasks, foreign_projects, other_users,
    tasks_get_all, tasks_get_one, tasks_post, tasks_put, tasks_toggle, tasks_delete,
    tasks_restore, tasks_delete_permanent, projects_get_all, projects_get_one,
    projects_post, projects_put, projects_delete, user_get_profile,
    user_put_profile, user_put_password, user_delete_account;
  simpl; repeat case_match; simpl; done.

(** A request served for user [A] changes rows of [A] only: the tasks and
    projects owned by anybody else, and the accounts of the other users, are
    the same before and after, row for row and in the same order. *)
Theorem requests_leave_foreign_rows bcrypt_hash bcrypt_compare salt e A r s :
  wf s →
  foreign_tasks A (fst (route bcrypt_hash bcrypt_compare salt e A r s)) = foreign_tasks A s
  ∧ foreign_projects A (fst (route bcrypt_hash bcrypt_compare salt e A r s))
    = foreign_projects A s
  ∧ other_users A (fst (route bcrypt_hash bcrypt_compare salt e A r s)) = other_users A s.
Proof.
  intros Hwf. destruct r; simpl route.
  - untouched.
  - split_and!; untouched.
  - split_and!; [by apply tasks_post_foreign|untouched..].
  - split_and!; [by apply tasks_put_foreign|untouched..].
  - split_and!; [by apply tasks_toggle_foreign|untouched..].
  - split_and!; [by apply tasks_delete_foreign|untouched..].
  - split_and!; [by apply tasks_restore_foreign|untouched..].
  - split_and!; [by apply tasks_delete_permanent_foreign|untouched..].
  - untouched.
  - split_and!; untouched.
  - split_and!; [untouched|by apply projects_post_foreign|untouched].
  - split_and!; [untouched|by apply projects_put_foreign|untouched].
  - destruct (projects_delete_foreign A s Hwf id) as [? ?].
    split_and!; [done|done|].
    by destruct (projects_delete_effect A id s) as [[-> _]|(ps & Hd & ->)].
  - split_and!; untouched.
  - unfold user_put_profile.
    destruct (user_update _ _ _) as [[us u]|] eqn:Hu; [|done].
    split_and!; [done|done|]. by eapply user_update_foreign.
  - unfold user_put_password.
    destruct (findFirst _ _) as [u|]; [|done].
    destruct (User.password u) as [h|]; [|done].
    destruct (negb (truthy h)); [done|].
    destruct (negb (bcrypt_compare _ _)); [done|].
    destruct (user_update _ _ _) as [[us u']|] eqn:Hu; [|done].
    split_and!; [done|done|]. by eapply user_update_foreign.
  - by apply user_delete_account_foreign.
Qed.

Lemma requests_leave_foreign_rows_witness :
  wf Sample.store
  ∧ foreign_tasks "u-alice"
      (fst (route (λ _ p, p) AuthSample.compare (λ _, "salt") Sample.env "u-alice"
              DELETE_user_account Sample.store))
    = [Sample.bobs_task]
  ∧ foreign_projects "u-alice"
      (fst (route (λ _ p, p) AuthSample.compare (λ _, "salt") Sample.env "u-alice"
              (DELETE_project "p-home") Sample.store))
    = [Sample.lab].
Proof.
  assert (Hwf : wf Sample.store).
  { split.
    - unfold unique_task_ids; simpl; solve_NoDup.
    - unfold unique_project_ids; simpl; solve_NoDup.
    - split_and!; [simpl; solve_NoDup| |];
        intros u v; intros; simpl in *;
        repeat match goal with H : _ ∨ _ |- _ => destruct H as [<-|H] end;
        simpl in *; congruence || contradiction.
    - intros t p Hin Hp. simpl in Hin.
      destruct Hin as [<-|[<-|[<-|[<-|[]]]]]; simpl in Hp; simplify_eq.
      + exists Sample.home. simpl. tauto.
      + exists Sample.lab. simpl. tauto.
    - intros t Hin. simpl in Hin.
      destruct Hin as [<-|[<-|[<-|[<-|[]]]]]; simpl; split; done. }
  split; [done|].
  destruct (requests_leave_foreign_rows (λ _ p, p) AuthSample.compare (λ _, "salt")
              Sample.env "u-alice" DELETE_user_account Sample.store Hwf) as (H1 & _).
  destruct (requests_leave_foreign_rows (λ _ p, p) AuthSample.compare (λ _, "salt")
              Sample.env "u-alice" (DELETE_project "p-home") Sample.store Hwf)
    as (_ & H2 & _).
  split; [rewrite H1|rewrite H2]; reflexivity.
Defined.

(** Every store the server reaches from the empty one has unique task,
    project and user keys, unique emails and external ids, tasks that refer
    only to existing projects of their own owner, and a deletion stamp on
    exactly the tasks in the trash. *)
Theorem reachable_stores_are_well_formed bcrypt_hash bcrypt_compare salt trace :
  let s := exec bcrypt_hash bcrypt_compare salt trace empty_store in
  unique_task_ids s ∧ unique_project_ids s ∧ unique_users s
  ∧ project_refs_owned s ∧ trash_stamped s.
Proof.
  intros s.
  destruct (exec_wf bcrypt_hash bcrypt_compare salt trace empty_store empty_store_wf).
  done.
Qed.

(** * Profile statistics and projects *)

Lemma task_counts_spec userId c d t :
  task_counts userId c d t
  = bool_decide (Task.userId t = userId)
    && match c with Some b => bool_decide (Task.isComplete t = b) | None => true end
    && bool_decide (Task.isDeleted t = d).
Proof.
  unfold task_counts, Where.matches. simpl. rewrite !andb_true_r.
  by destruct c.
Qed.

Lemma stats_partition userId rows :
  (count (task_counts userId (Some false) false) rows
   + count (task_counts userId (Some true) false) rows
   + count (task_counts userId None true) rows
   = count (λ t, bool_decide (Task.userId t = userId)) rows)%nat.
Proof.
  unfold count. induction rows as [|t rs IH]; simpl; [done|].
  rewrite !task_counts_spec.
  destruct (bool_decide (Task.userId t = userId)); simpl; [|done].
  destruct (Task.isComplete t), (Task.isDeleted t); simpl; lia.
Qed.

(** The three task counters of the profile add up to the number of tasks the
    user owns: every owned task is counted once, as pending, as completed or
    as trash item; the project counter is the number of owned projects. *)
Theorem profile_stats_count_every_task_once userId user s :
  findFirst (user_is userId) (users s) = Some user →
  ∃ st,
    user_get_profile userId s
    = (s, json (J_profile (public user) (User.createdAt user) st))
    ∧ (pendingTasks st + completedTasks st + trashItems st
       = length (List.filter (λ t, bool_decide (Task.userId t = userId)) (tasks s)))%nat
    ∧ projectsCount st
      = length (List.filter (λ p, bool_decide (Project.userId p = userId)) (projects s)).
Proof.
  intros Hf. unfold user_get_profile. rewrite Hf. eexists. split; [done|].
  simpl. split; [apply stats_partition|done].
Qed.

Lemma profile_stats_count_every_task_once_witness :
  findFirst (user_is "u-alice") (users Sample.store) = Some Sample.alice
  ∧ ∃ st,
      user_get_profile "u-alice" Sample.store
      = (Sample.store,
         json (J_profile (public Sample.alice) (User.createdAt Sample.alice) st))
      ∧ (pendingTasks st + completedTasks st + trashItems st
         = length (List.filter (λ t, bool_decide (Task.userId t = "u-alice"))
                     (tasks Sample.store)))%nat
      ∧ projectsCount st
        = length (List.filter (λ p, bool_decide (Project.userId p = "u-alice"))
                    (projects Sample.store)).
Proof.
  split; [reflexivity|].
  exact (profile_stats_count_every_task_once "u-alice" Sample.alice Sample.store
           eq_refl).
Defined.

#[local] Instance project_newer_total : Total project_newer.
Proof. intros a b. unfold project_newer. lia. Qed.

#[local] Instance project_newer_trans : Transitive project_newer.
Proof. intros a b c. unfold project_newer. lia. Qed.


Lemma count_active_spec id s :
  count_active id s
  = length (List.filter
              (λ t, bool_decide (Task.projectId t = Some id)
                    && bool_decide (Task.isDeleted t = false))
              (tasks s)).
Proof.
  unfold count_active, count. f_equal. apply filter_ext. intros t.
  unfold Where.matches. simpl. by rewrite !andb_true_r, andb_comm.
Qed.

Lemma project_tasks_spec id s x :
  In x (findMany_orderBy task_orderBy
          (Where.matches (Where.set_isDeleted false (Where.set_projectId id Where.empty)))
          (tasks s))
  ↔ In x (tasks s) ∧ shown_in_project id x.
Proof.
  unfold findMany_orderBy, findMany, shown_in_project.
  rewrite <-(and_iff_compat_l (In x (tasks s))
               (bool_decide_eq_true (Task.projectId x = Some id ∧ Task.isDeleted x = false))).
  split.
  - intros Hx. eapply Permutation_in in Hx; [|apply merge_sort_Permutation].
    apply filter_In in Hx as [? Hm]. split; [done|].
    revert Hm. unfold Where.matches. simpl.
    rewrite !andb_true_r, andb_true_iff, !bool_decide_eq_true. tauto.
  - intros [Hx Hm]. eapply Permutation_in; [symmetry; apply merge_sort_Permutation|].
    apply filter_In. split; [done|]. revert Hm. unfold Where.matches. simpl.
    rewrite !andb_true_r, andb_true_iff, !bool_decide_eq_true. tauto.
Qed.

Lemma project_tasks_sorted p rows :
  StronglySorted listed_before (findMany_orderBy task_orderBy p rows).
Proof.
  unfold findMany_orderBy.
  eapply StronglySorted_impl; [|by apply StronglySorted_merge_sort; apply _].
  intros a b. apply order_le_listed_before.
Qed.

(** Fetching an own project answers with the project and the tasks that
    refer to it and are not in the trash -- all of them, no others, in the
    order of the task listing; each of them belongs to the caller. *)
Theorem project_fetch_shows_its_active_tasks s p :
  unique_project_ids s → project_refs_owned s → In p (projects s) →
  ∃ ts,
    projects_get_one (Project.userId p) (Project.id p) s
    = (s, json (J_project (mkProjectOut p ts)))
    ∧ StronglySorted listed_before ts
    ∧ (∀ x, In x ts ↔ In x (tasks s) ∧ shown_in_project (Project.id p) x)
    ∧ Forall (λ x, Task.userId x = Project.userId p) ts.
Proof.
  intros Hids Hrefs Hin. eexists. split_and!.
  - unfold projects_get_one.
    rewrite (selects_findFirst _ _ p); [reflexivity|].
    apply (key_selects Project.id); [done|done|by apply project_owned_spec|].
    intros x. rewrite project_owned_spec. tauto.
  - apply project_tasks_sorted.
  - intros x. apply project_tasks_spec.
  - apply List.Forall_forall. intros x [Hx [Hp _]]%project_tasks_spec.
    destruct (Hrefs x _ Hx Hp) as (pr & Hpr & Hid & Hu).
    assert (pr = p) as -> by (by eapply same_project_id). done.
Qed.

Lemma project_fetch_shows_its_active_tasks_witness :
  unique_project_ids Sample.store
  ∧ project_refs_owned Sample.store
  ∧ In Sample.home (projects Sample.store)
  ∧ ∃ ts,
      projects_get_one "u-alice" "p-home" Sample.store
      = (Sample.store, json (J_project (mkProjectOut Sample.home ts)))
      ∧ StronglySorted listed_before ts
      ∧ (∀ x, In x ts ↔ In x (tasks Sample.store) ∧ shown_in_project "p-home" x)
      ∧ Forall (λ x, Task.userId x = "u-alice") ts.
Proof.
  assert (Hids : unique_project_ids Sample.store)
    by (unfold unique_project_ids; simpl; solve_NoDup).
  assert (Hrefs : project_refs_owned Sample.store).
  { intros t p Hin Hp. simpl in Hin.
    destruct Hin as [<-|[<-|[<-|[<-|[]]]]]; simpl in Hp; simplify_eq.
    - exists Sample.home. simpl. tauto.
    - exists Sample.lab. simpl. tauto. }
  assert (Hin : In Sample.home (projects Sample.store)) by (simpl; tauto).
  split_and!; [done..|].
  exact (project_fetch_shows_its_active_tasks Sample.store Sample.home
           Hids Hrefs Hin).
Defined.

Lemma filter_none {A} (f : A → bool) (l : list A) :
  (∀ x, In x l → f x = false) → List.filter f l = [].
Proof.
  induction l as [|x l IH]; intros H; simpl; [done|].
  rewrite (H x) by (by left). apply IH. intros y Hy. apply H. by right.
Qed.

(** Creating a project stores one new row after the existing ones -- name
    trimmed, the default blue unless a color is given -- and answers 201
    with a task count of zero; a fetch of the new id by the creator returns
    the project with no tasks.  This needs the generated id to be unused. *)
Theorem created_project_is_stored_and_fetched e userId name color s :
  project_refs_owned s →
  (∀ x, In x (projects s) → Project.id x ≠ newId e) →
  let r := new_project e userId name color in
  let s' := with_projects (projects s ++ [r]) s in
  projects_post e userId name color s
  = (s', mkResponse 201
           (J_project_message (mkProjectRow r 0) "Project created successfully"))
  ∧ projects_get_one userId (newId e) s' = (s', json (J_project (mkProjectOut r [])))
  ∧ (color = None → Project.color r = "#3B82F6").
Proof.
  intros Hrefs Hfresh r s'.
  assert (Hnone : ∀ x, In x (tasks s) → Task.projectId x ≠ Some (newId e)).
  { intros x Hx Hp. destruct (Hrefs x _ Hx Hp) as (pr & Hpr & Hid & _).
    by apply (Hfresh pr). }
  assert (Hfilter :
    List.filter
      (Where.matches (Where.set_isDeleted false (Where.set_projectId (newId e) Where.empty)))
      (tasks s) = []).
  { apply filter_none. intros x Hx.
    destruct (Where.matches _ x) eqn:E; [|done].
    eapply matches_projectId in E; [|done]. by apply Hnone in E. }
  split_and!.
  - unfold projects_post. fold (new_project e userId name color). fold r.
    unfold project_create. replace (existsb _ _) with false.
    + unfold count_active, count. simpl tasks. simpl Project.id.
      by rewrite Hfilter.
    + symmetry. apply existsb_false. intros x Hx.
      destruct (project_is _ x) eqn:E; [|done].
      apply project_is_spec in E. by apply Hfresh in E.
  - unfold projects_get_one. simpl projects.
    rewrite (findFirst_app_new _ _ r); [| |by apply project_owned_spec].
    + unfold findMany_orderBy, findMany. simpl tasks. by rewrite Hfilter.
    + intros x Hx. destruct (project_owned _ _ x) eqn:E; [|done].
      apply project_owned_spec in E as [E _]. by apply Hfresh in E.
  - by intros ->.
Qed.

Lemma created_project_is_stored_and_fetched_witness :
  project_refs_owned Sample.store
  ∧ (∀ x, In x (projects Sample.store) → Project.id x ≠ "fresh-id")
  ∧ projects_post Sample.env "u-bob" " Field work " None Sample.store
    = (with_projects
         [Sample.home; Sample.lab;
          Project.mk "fresh-id" "Field work" "#3B82F6" "u-bob" 1000]
         Sample.store,
       mkResponse 201
         (J_project_message
            (mkProjectRow (Project.mk "fresh-id" "Field work" "#3B82F6" "u-bob" 1000) 0)
            "Project created successfully")).
Proof.
  assert (Hrefs : project_refs_owned Sample.store).
  { intros t p Hin Hp. simpl in Hin.
    destruct Hin as [<-|[<-|[<-|[<-|[]]]]]; simpl in Hp; simplify_eq.
    - exists Sample.home. simpl. tauto.
    - exists Sample.lab. simpl. tauto. }
  assert (Hfresh : ∀ x, In x (projects Sample.store) → Project.id x ≠ "fresh-id").
  { intros x Hx. simpl in Hx. destruct Hx as [<-|[<-|[]]]; done. }
  split_and!; [done|done|].
  destruct (created_project_is_stored_and_fetched Sample.env "u-bob" " Field work "
              None Sample.store Hrefs Hfresh) as (Hpost & _).
  exact Hpost.
Defined.

(** Updating a project changes at most its name and color: the ids, owners
    and creation times of the projects are as before, row for row, and no
    task and no account is touched. *)
Theorem project_update_keeps_identity_and_tasks userId id name color s :
  List.map (λ p, (Project.id p, Project.userId p, Project.createdAt p))
    (projects (fst (projects_put userId id name color s)))
  = List.map (λ p, (Project.id p, Project.userId p, Project.createdAt p)) (projects s)
  ∧ tasks (fst (projects_put userId id name color s)) = tasks s
  ∧ users (fst (projects_put userId id name color s)) = users s.
Proof.
  unfold projects_put. destruct (findFirst _ _); [|done].
  destruct (update _ _ _) as [[ps p']|] eqn:Hu; [|done]. simpl.
  split_and!; [|done..].
  by apply (update_map_key (λ p, (Project.id p, Project.userId p, Project.createdAt p))
              _ (project_apply (trim <$> name) color) _ _ _ (λ _, eq_refl) Hu).
Qed.

(** * Registration, login and password change *)

(** Registration refuses an email that an account already has, whatever the
    letter case it is typed in, and stores nothing. *)
Theorem register_rejects_taken_email bcrypt_hash salt e email password name s u :
  In u (users s) → User.email u = toLowerCase email →
  auth_register bcrypt_hash salt e email password name s
  = (s, error 400 "User already exists with this email").
Proof.
  intros Hin Hemail. unfold auth_register.
  destruct (findFirst_is_Some (user_email_is (toLowerCase email)) (users s) u Hin)
    as [u' ->]; [by apply user_email_is_spec|done].
Qed.

Lemma register_rejects_taken_email_witness :
  In Sample.alice (users Sample.store)
  ∧ User.email Sample.alice = toLowerCase "ALICE@example.COM"
  ∧ auth_register (λ _ p, p) (λ _, "salt") Sample.env "ALICE@example.COM" "pw1234" None
      Sample.store
    = (Sample.store, error 400 "User already exists with this email").
Proof.
  split_and!; [simpl; tauto|reflexivity|].
  apply (register_rejects_taken_email _ _ _ _ _ _ _ Sample.alice);
    [simpl; tauto|reflexivity].
Defined.

Lemma register_stores bcrypt_hash salt e email password name s :
  (∀ u, In u (users s) → User.email u ≠ toLowerCase email) →
  (∀ u, In u (users s) → User.id u ≠ newId e) →
  let u := registered bcrypt_hash salt e email password name in
  auth_register bcrypt_hash salt e email password name s
  = (with_users (users s ++ [u]) s,
     mkResponse 201
       (J_session "User registered successfully" (public u) (generateToken (public u)))).
Proof.
  intros Hfree Hfresh u. unfold auth_register.
  replace (findFirst _ _) with (@None User.t).
  2:{ symmetry. apply findFirst_None. intros v Hv. apply bool_decide_eq_false. auto. }
  fold (registered bcrypt_hash salt e email password name). fold u.
  unfold user_create.
  replace (existsb (user_is _) _) with false.
  2:{ symmetry. apply existsb_false. intros v Hv. apply bool_decide_eq_false.
      by apply Hfresh. }
  replace (existsb (user_clash _) _) with false; [done|].
  symmetry. apply existsb_false. intros v Hv. apply user_clash_false.
  right. split; [by apply Hfree|]. by intros [? [=]].
Qed.

(** After a registration, a login with the same password and the same email
    in any letter case succeeds and returns the registered account's public
    fields and a token for its id and email.  This needs the email and the
    generated id to be unused, a non-empty hash, and a [compare] that
    accepts the password against its own hash. *)
Theorem register_then_login bcrypt_hash bcrypt_compare salt e email email' password name s :
  (∀ u, In u (users s) → User.email u ≠ toLowerCase email) →
  (∀ u, In u (users s) → User.id u ≠ newId e) →
  bcrypt_hash (salt e) password ≠ "" →
  bcrypt_compare password (bcrypt_hash (salt e) password) = true →
  password ≠ "" → email' ≠ "" → toLowerCase email' = toLowerCase email →
  let u := registered bcrypt_hash salt e email password name in
  let s' := fst (auth_register bcrypt_hash salt e email password name s) in
  users s' = (users s ++ [u])%list
  ∧ auth_login bcrypt_compare email' password s'
    = (s', json (J_session "Login successful" (public u) (mkToken (newId e) (toLowerCase email)))).
Proof.
  intros Hfree Hfresh Hhash Hcmp Hpw Hemail' Hsame u s'.
  unfold s'. rewrite register_stores by done. simpl fst. split; [done|].
  unfold auth_login, local_verify.
  replace (truthy email') with true
    by (symmetry; by apply negb_true_iff, bool_decide_eq_false).
  replace (truthy password) with true
    by (symmetry; by apply negb_true_iff, bool_decide_eq_false).
  simpl negb. simpl orb. cbv iota. simpl users.
  rewrite Hsame, (findFirst_app_new _ _ u);
    [| |by apply user_email_is_spec].
  - simpl User.password. cbv iota.
    replace (truthy _) with true
      by (symmetry; by apply negb_true_iff, bool_decide_eq_false).
    simpl negb. cbv iota. by rewrite Hcmp.
  - intros v Hv. apply bool_decide_eq_false. by apply Hfree.
Qed.

Lemma register_then_login_witness :
  (∀ u, In u (users Sample.store) → User.email u ≠ toLowerCase "Carol@Example.com")
  ∧ (∀ u, In u (users Sample.store) → User.id u ≠ "fresh-id")
  ∧ auth_login (λ p h, bool_decide (h = "#" +:+ p)) "CAROL@example.com" "pw1234"
      (fst (auth_register (λ _ p, "#" +:+ p) (λ _, "salt") Sample.env
              "Carol@Example.com" "pw1234" None Sample.store))
    = (fst (auth_register (λ _ p, "#" +:+ p) (λ _, "salt") Sample.env
              "Carol@Example.com" "pw1234" None Sample.store),
       json (J_session "Login successful"
               (mkPublic "fresh-id" "carol@example.com" "Carol" None)
               (mkToken "fresh-id" "carol@example.com"))).
Proof.
  assert (Hfree : ∀ u, In u (users Sample.store) →
                    User.email u ≠ toLowerCase "Carol@Example.com").
  { intros u Hu. simpl in Hu. destruct Hu as [<-|[<-|[]]]; by vm_compute. }
  assert (Hfresh : ∀ u, In u (users Sample.store) → User.id u ≠ "fresh-id").
  { intros u Hu. simpl in Hu. destruct Hu as [<-|[<-|[]]]; done. }
  split_and!; [done|done|].
  destruct (register_then_login (λ _ p, "#" +:+ p) (λ p h, bool_decide (h = "#" +:+ p))
              (λ _, "salt") Sample.env "Carol@Example.com" "CAROL@example.com"
              "pw1234" None Sample.store Hfree Hfresh) as [_ Hlogin];
    [done|done|done|done|reflexivity|].
  exact Hlogin.
Defined.

Lemma id_selects s u :
  unique_users s → In u (users s) → selects (user_is (User.id u)) (users s) u.
Proof.
  intros (Hids & _) Hin.
  apply (key_selects User.id); [done|done|by apply user_is_spec|].
  intros x. by rewrite user_is_spec.
Qed.

Lemma no_clash_after_own_change s u u' :
  unique_users s → In u (users s) →
  User.id u' = User.id u → User.email u' = User.email u →
  User.googleId u' = User.googleId u →
  existsb (user_clash u') (users s) = false.
Proof.
  intros Huniq Hin Hid Hemail Hg. apply existsb_false. intros v Hv.
  apply user_clash_false. rewrite Hid, Hemail, Hg.
  destruct (decide (v = u)) as [->|Hne]; [by left|right]. split.
  - intros Heq. apply Hne. by eapply same_user_email.
  - intros [g Hgu] Heq. apply Hne. eapply same_user_googleId; eauto. congruence.
Qed.

(** Changing the password: an account without password hash is refused, a
    wrong current password is refused, and in both cases nothing is stored;
    with the right current password the account's hash, and nothing else in
    the store, is replaced by the hash of the new password. *)
Theorem password_change_guards bcrypt_hash bcrypt_compare salt e s u current new :
  unique_users s → In u (users s) →
  (stored_hash u = None →
     user_put_password bcrypt_hash bcrypt_compare salt e (User.id u) current new s
     = (s, error 400 "Cannot change password for OAuth accounts"))
  ∧ (∀ h, stored_hash u = Some h → bcrypt_compare current h = false →
       user_put_password bcrypt_hash bcrypt_compare salt e (User.id u) current new s
       = (s, error 400 "Current password is incorrect"))
  ∧ (∀ h, stored_hash u = Some h → bcrypt_compare current h = true →
       user_put_password bcrypt_hash bcrypt_compare salt e (User.id u) current new s
       = (with_users
            (replace_user (with_password (bcrypt_hash (salt e) new) u) (users s)) s,
          json (J_message "Password changed successfully"))).
Proof.
  intros Huniq Hin. unfold user_put_password, stored_hash.
  rewrite (selects_findFirst _ _ u) by (by apply id_selects).
  destruct (User.password u) as [h|]; [|by split_and!].
  destruct (truthy h); simpl; split_and!; try done.
  - by intros h' [= <-] ->.
  - intros h' [= <-] ->. simpl. unfold user_update.
    rewrite (selects_findFirst _ _ u) by (by apply id_selects).
    rewrite (no_clash_after_own_change s u) by done.
    rewrite (update_updateMany _ _ _ u)
      by (by apply unique_users_rows || by apply id_selects).
    by rewrite (updateMany_replace_user _ _ s u) by (done || by apply id_selects).
Qed.

Lemma password_change_guards_witness :
  unique_users Sample.store
  ∧ In Sample.alice (users Sample.store) ∧ In Sample.bob (users Sample.store)
  ∧ user_put_password (λ _ p, "#" +:+ p) AuthSample.compare (λ _, "salt") Sample.env
      "u-bob" "secret" "new-secret" Sample.store
    = (Sample.store, error 400 "Cannot change password for OAuth accounts")
  ∧ user_put_password (λ _ p, "#" +:+ p) AuthSample.compare (λ _, "salt") Sample.env
      "u-alice" "guess" "new-secret" Sample.store
    = (Sample.store, error 400 "Current password is incorrect")
  ∧ user_put_password (λ _ p, "#" +:+ p) AuthSample.compare (λ _, "salt") Sample.env
      "u-alice" "secret" "new-secret" Sample.store
    = (with_users [with_password "#new-secret" Sample.alice; Sample.bob] Sample.store,
       json (J_message "Password changed successfully")).
Proof.
  assert (Huniq : unique_users Sample.store).
  { split_and!; [simpl; solve_NoDup| |];
      intros u v; intros; simpl in *;
      repeat match goal with H : _ ∨ _ |- _ => destruct H as [<-|H] end;
      simpl in *; congruence || contradiction. }
  assert (Ha : In Sample.alice (users Sample.store)) by (simpl; tauto).
  assert (Hb : In Sample.bob (users Sample.store)) by (simpl; tauto).
  split_and!; [done|done|done|..].
  - destruct (password_change_guards (λ _ p, "#" +:+ p) AuthSample.compare
                (λ _, "salt") Sample.env Sample.store Sample.bob "secret" "new-secret"
                Huniq Hb) as (H & _).
    by apply H.
  - destruct (password_change_guards (λ _ p, "#" +:+ p) AuthSample.compare
                (λ _, "salt") Sample.env Sample.store Sample.alice "guess" "new-secret"
                Huniq Ha) as (_ & H & _).
    by apply (H "$2a$12$hash").
  - destruct (password_change_guards (λ _ p, "#" +:+ p) AuthSample.compare
                (λ _, "salt") Sample.env Sample.store Sample.alice "secret" "new-secret"
                Huniq Ha) as (_ & _ & H).
    by apply (H "$2a$12$hash").
Defined.

(** Deleting an account removes the user together with every task and
    project it owns; afterwards a request carrying a token of that user is
    answered 401 and changes nothing. *)
Theorem account_deletion_removes_owned_rows bcrypt_hash bcrypt_compare salt s u :
  unique_users s → In u (users s) →
  let s' := fst (user_delete_account (User.id u) s) in
  snd (user_delete_account (User.id u) s) = json (J_message "Account deleted successfully")
  ∧ Forall (λ v, User.id v ≠ User.id u) (users s')
  ∧ Forall (λ t, Task.userId t ≠ User.id u) (tasks s')
  ∧ Forall (λ p, Project.userId p ≠ User.id u) (projects s')
  ∧ ∀ e r, step bcrypt_hash bcrypt_compare salt e (bearer (User.id u) r) s'
           = (s', error 401 "Unauthorized").
Proof.
  intros Huniq Hin s'. unfold s', user_delete_account.
  rewrite (delete_deleteMany _ _ u)
    by (by apply unique_users_rows || by apply id_selects).
  simpl.
  assert (Hgone : ∀ v, In v (deleteMany (user_is (User.id u)) (users s)) →
                    User.id v ≠ User.id u).
  { intros v [_ Hv]%In_deleteMany Heq. apply user_is_spec in Heq. congruence. }
  split_and!; [done|..].
  - by apply List.Forall_forall.
  - apply List.Forall_forall. intros t [_ Ht]%In_deleteMany Heq.
    revert Ht. unfold Where.matches. simpl. by rewrite !andb_true_r, bool_decide_true.
  - apply List.Forall_forall. intros p [_ Hp]%In_deleteMany Heq.
    revert Hp. unfold project_of_user. by rewrite bool_decide_true.
  - intros e r. unfold jwt_verify. simpl.
    replace (findFirst _ _) with (@None User.t); [done|].
    symmetry. apply findFirst_None. intros v Hv. apply bool_decide_eq_false.
    by apply Hgone.
Qed.

Lemma account_deletion_removes_owned_rows_witness :
  unique_users Sample.store
  ∧ In Sample.alice (users Sample.store)
  ∧ fst (user_delete_account "u-alice" Sample.store)
    = mkStore [Sample.bob] [Sample.lab] [Sample.bobs_task]
  ∧ Forall (λ t, Task.userId t ≠ "u-alice")
      (tasks (fst (user_delete_account "u-alice" Sample.store))).
Proof.
  assert (Huniq : unique_users Sample.store).
  { split_and!; [simpl; solve_NoDup| |];
      intros u v; intros; simpl in *;
      repeat match goal with H : _ ∨ _ |- _ => destruct H as [<-|H] end;
      simpl in *; congruence || contradiction. }
  assert (Ha : In Sample.alice (users Sample.store)) by (simpl; tauto).
  split_and!; [done|done|reflexivity|].
  destruct (account_deletion_removes_owned_rows (λ _ p, p) AuthSample.compare
              (λ _, "salt") Sample.store Sample.alice Huniq Ha) as (_ & _ & H & _).
  exact H.
Defined.

(** * Repeated and mixed-case OAuth logins *)

Lemma user_update_Some p d rows us u' :
  user_update p d rows = Some (us, u') →
  ∃ u0, findFirst p rows = Some u0 ∧ u' = UserData.apply d u0 ∧ In u' us.
Proof.
  unfold user_update. destruct (findFirst p rows) as [u0|] eqn:Hf; [|done].
  destruct (existsb _ _); [done|]. intros Hu. exists u0.
  destruct (update_Some_inv _ _ _ _ _ Hu) as (r & Hr & -> & _).
  assert (r = u0) as -> by congruence.
  split_and!; [done|done|]. by eapply update_In_new.
Qed.

Lemma avatar_from_idempotent profile old :
  avatar_from profile (avatar_from profile old) = avatar_from profile old.
Proof. unfold avatar_from. by destruct (head _). Qed.

Lemma google_verify_result e profile email rest s s1 u :
  unique_users s → emails profile = email :: rest →
  google_verify e profile s = (s1, done_user u) →
  unique_users s1 ∧ In u (users s1)
  ∧ User.googleId u = Some (pr_id profile) ∧ User.email u = email
  ∧ User.name u = displayName profile
  ∧ avatar_from profile (User.avatar u) = User.avatar u.
Proof.
  intros Huniq Hemails. unfold google_verify. rewrite Hemails.
  change (head (email :: rest)) with (Some email).
  destruct (findFirst (user_googleId_is _) _) as [u0|] eqn:Hg.
  - destruct (user_update _ _ _) as [[us u']|] eqn:Hu; [|done]. intros [= <- <-].
    split; [by eapply user_update_unique|].
    apply user_update_Some in Hu as (u1 & Hf & -> & Hin).
    assert (u1 = u0) as -> by congruence.
    apply findFirst_Some in Hg as [_ Hg]. apply user_googleId_is_spec in Hg.
    rewrite apply_refresh in *. split_and!; try done.
    apply avatar_from_idempotent.
  - destruct (findFirst (user_email_is _) _) as [u0|] eqn:He.
    + destruct (user_update _ _ _) as [[us u']|] eqn:Hu; [|done]. intros [= <- <-].
      split; [by eapply user_update_unique|].
      apply user_update_Some in Hu as (u1 & Hf & -> & Hin).
      assert (u1 = u0) as -> by congruence.
      apply findFirst_Some in He as [_ He]. apply user_email_is_spec in He.
      rewrite apply_link in *. split_and!; try done.
      apply avatar_from_idempotent.
    + destruct (user_create _ _) as [us|] eqn:Hu; [|done]. intros [= <- <-].
      split; [by eapply user_create_unique|].
      unfold user_create in Hu. destruct (_ || _); [done|]. injection Hu as <-.
      split_and!; try done.
      * simpl. apply in_app_iff. right. by left.
      * unfold avatar_from. simpl. by destruct (head _).
Qed.

Lemma replace_user_same s u :
  unique_users s → In u (users s) → replace_user u (users s) = users s.
Proof.
  intros Huniq Hin. unfold replace_user. rewrite <-(map_id (users s)) at 2.
  apply map_ext_in. intros x Hx. case_bool_decide as E; [|done].
  symmetry. by eapply same_user_id.
Qed.

(** OAuth login is idempotent: once a login with a profile has succeeded, a
    second login with the same profile returns the same account and leaves
    the store as the first login left it. *)
Theorem oauth_login_idempotent e e2 profile email rest s s1 u :
  unique_users s → emails profile = email :: rest →
  google_verify e profile s = (s1, done_user u) →
  google_verify e2 profile s1 = (s1, done_user u).
Proof.
  intros Huniq Hemails Hfirst.
  destruct (google_verify_result _ _ _ _ _ _ _ Huniq Hemails Hfirst)
    as (Huniq1 & Hin & Hg & Hemail & Hname & Havatar).
  rewrite (oauth_by_external_id e2 profile email rest s1 Huniq1 Hemails u Hin Hg).
  - assert (refreshed profile email u = u) as ->.
    { unfold refreshed. rewrite Havatar, <-Hname, <-Hemail. by destruct u. }
    rewrite replace_user_same by done. by destruct s1.
  - intros v Hv Hve. eapply same_user_email; [done..|congruence].
Qed.

Lemma oauth_login_idempotent_witness :
  unique_users Sample.store
  ∧ emails AuthSample.alice_google = ["alice@example.com"]
  ∧ google_verify Sample.env AuthSample.alice_google
      (fst (google_verify Sample.env AuthSample.alice_google Sample.store))
    = google_verify Sample.env AuthSample.alice_google Sample.store.
Proof.
  assert (Huniq : unique_users Sample.store).
  { split_and!; [simpl; solve_NoDup| |];
      intros u v; intros; simpl in *;
      repeat match goal with H : _ ∨ _ |- _ => destruct H as [<-|H] end;
      simpl in *; congruence || contradiction. }
  split_and!; [done|done|].
  exact (oauth_login_idempotent Sample.env Sample.env AuthSample.alice_google
           "alice@example.com" [] Sample.store _ _ Huniq eq_refl eq_refl).
Defined.

(** Password login lower-cases the email it looks up, the OAuth email match
    does not: an account stored under the lower-cased address is the one a
    password login in capitals reaches, but an OAuth login whose profile
    email has capitals (and whose external id is new) does not link to it
    and creates a second account. *)
Theorem oauth_email_match_is_exact e profile email rest s u :
  unique_users s → emails profile = email :: rest →
  In u (users s) → User.email u = toLowerCase email →
  (∀ v, In v (users s) → User.email v ≠ email) →
  (∀ v, In v (users s) → User.googleId v ≠ Some (pr_id profile)) →
  (∀ v, In v (users s) → User.id v ≠ newId e) →
  findFirst (user_email_is (toLowerCase email)) (users s) = Some u
  ∧ google_verify e profile s
    = (with_users (users s ++ [created e profile email]) s,
       done_user (created e profile email))
  ∧ created e profile email ≠ u.
Proof.
  intros Huniq Hemails Hin Hlower Hexact Hnew Hfresh. split_and!.
  - rewrite <-Hlower. by apply selects_findFirst, email_selects.
  - by apply (oauth_create e profile email rest s Hemails Hnew).
  - intros Heq. apply (Hfresh u Hin). by rewrite <-Heq.
Qed.

Lemma oauth_email_match_is_exact_witness :
  unique_users Sample.store
  ∧ In Sample.alice (users Sample.store)
  ∧ User.email Sample.alice = toLowerCase "Alice@Example.com"
  ∧ users (fst (google_verify Sample.env
                  (mkProfile "g-alice" "Alice A." [] ["Alice@Example.com"])
                  Sample.store))
    = [Sample.alice; Sample.bob;
       User.mk "fresh-id" "Alice@Example.com" None (Some "g-alice") "Alice A." None 1000].
Proof.
  assert (Huniq : unique_users Sample.store).
  { split_and!; [simpl; solve_NoDup| |];
      intros u v; intros; simpl in *;
      repeat match goal with H : _ ∨ _ |- _ => destruct H as [<-|H] end;
      simpl in *; congruence || contradiction. }
  assert (Ha : In Sample.alice (users Sample.store)) by (simpl; tauto).
  split_and!; [done|done|reflexivity|].
  destruct (oauth_email_match_is_exact Sample.env
              (mkProfile "g-alice" "Alice A." [] ["Alice@Example.com"])
              "Alice@Example.com" [] Sample.store Sample.alice Huniq eq_refl Ha eq_refl)
    as (_ & Hcreate & _).
  - intros v Hv. simpl in Hv. destruct Hv as [<-|[<-|[]]]; done.
  - intros v Hv. simpl in Hv. destruct Hv as [<-|[<-|[]]]; done.
  - intros v Hv. simpl in Hv. destruct Hv as [<-|[<-|[]]]; done.
  - rewrite Hcreate. reflexivity.
Defined.

(** * The seed script *)

Lemma extends_refl {A} (l : list A) : extends l l.
Proof. exists []. by rewrite app_nil_r. Qed.

Lemma extends_trans {A} (l1 l2 l3 : list A) :
  extends l1 l2 → extends l2 l3 → extends l1 l3.
Proof. intros [a ->] [b ->]. exists (a ++ b)%list. by rewrite app_assoc. Qed.

Lemma findFirst_app_l {A} (p : A → bool) l l' r :
  findFirst p l = Some r → findFirst p (l ++ l') = Some r.
Proof.
  induction l as [|x l IH]; simpl; [done|]. destruct (p x); [done|apply IH].
Qed.

Section Upsert.
Context {A : Type} (p : A → bool) (create : list A → option (list A)) (r : A).
Hypothesis Hcreate : ∀ rows rows', create rows = Some rows' → rows' = (rows ++ [r])%list.
Hypothesis Hkey : p r = true.

Lemma upsert_extends rows rows' r' :
  upsert p create r rows = Some (rows', r') → extends rows rows'.
Proof.
  unfold upsert. destruct (findFirst p rows).
  - intros [= <- <-]. apply extends_refl.
  - destruct (create rows) as [rows''|] eqn:E; [|done]. intros [= <- <-].
    exists [r]. by apply Hcreate.
Qed.

Lemma upsert_again rows rows' r' create2 r2 rows2 :
  upsert p create r rows = Some (rows', r') → extends rows' rows2 →
  upsert p create2 r2 rows2 = Some (rows2, r').
Proof.
  unfold upsert. intros Hup [ext ->].
  destruct (findFirst p rows) as [found|] eqn:Hf.
  - injection Hup as <- <-. by rewrite (findFirst_app_l _ _ _ _ Hf).
  - destruct (create rows) as [rows''|] eqn:E; [|done]. injection Hup as <- <-.
    rewrite (Hcreate _ _ E).
    rewrite (findFirst_app_l p (rows ++ [r]) ext r); [done|].
    apply findFirst_app_new; [|done]. by apply findFirst_None.
Qed.
End Upsert.

Lemma user_create_appends u rows rows' :
  user_create u rows = Some rows' → rows' = (rows ++ [u])%list.
Proof. unfold user_create. destruct (_ || _); [done|]. by intros [= <-]. Qed.

Lemma project_create_appends p rows rows' :
  project_create p rows = Some rows' → rows' = (rows ++ [p])%list.
Proof. intros H. by apply project_create_Some in H as [-> _]. Qed.

Lemma task_create_appends t rows rows' :
  task_create t rows = Some rows' → rows' = (rows ++ [t])%list.
Proof. intros H. by apply task_create_Some in H as [-> _]. Qed.

Lemma grows_refl s : grows s s.
Proof. split_and!; apply extends_refl. Qed.

Lemma grows_trans s1 s2 s3 : grows s1 s2 → grows s2 s3 → grows s1 s3.
Proof.
  intros (? & ? & ?) (? & ? & ?). split_and!; by eapply extends_trans.
Qed.

Lemma user_upsert_grows email u s s' o :
  user_upsert email u s = (s', o) → grows s s'.
Proof.
  unfold user_upsert. destruct (upsert _ _ _ _) as [[us r]|] eqn:E.
  - intros [= <- <-]. split_and!; simpl; [|apply extends_refl..].
    eapply upsert_extends; [|done]. apply user_create_appends.
  - intros [= <- <-]. apply grows_refl.
Qed.

Lemma project_upsert_grows p s s' o : project_upsert p s = (s', o) → grows s s'.
Proof.
  unfold project_upsert. destruct (upsert _ _ _ _) as [[ps r]|] eqn:E.
  - intros [= <- <-]. split_and!; simpl; [apply extends_refl| |apply extends_refl].
    eapply upsert_extends; [|done]. apply project_create_appends.
  - intros [= <- <-]. apply grows_refl.
Qed.

Lemma task_upsert_grows t s s' o : task_upsert t s = (s', o) → grows s s'.
Proof.
  unfold task_upsert. destruct (upsert _ _ _ _) as [[ts r]|] eqn:E.
  - intros [= <- <-]. split_and!; simpl; [apply extends_refl..|].
    eapply upsert_extends; [|done]. apply task_create_appends.
  - intros [= <- <-]. apply grows_refl.
Qed.

Lemma user_upsert_again email u u2 s s' r s2 :
  user_upsert email u s = (s', Some r) → User.email u = email → grows s' s2 →
  user_upsert email u2 s2 = (s2, Some r).
Proof.
  unfold user_upsert. destruct (upsert _ _ _ _) as [[us r']|] eqn:E; [|done].
  intros [= <- <-] <- (Hext & _). simpl in Hext.
  erewrite (upsert_again _ _ u); [by destruct s2| |by apply user_email_is_spec|done..].
  apply user_create_appends.
Qed.

Lemma project_upsert_again p p2 s s' r s2 :
  project_upsert p s = (s', Some r) → Project.id p2 = Project.id p → grows s' s2 →
  project_upsert p2 s2 = (s2, Some r).
Proof.
  unfold project_upsert. destruct (upsert _ _ _ _) as [[ps r']|] eqn:E; [|done].
  intros [= <- <-] -> (_ & Hext & _). simpl in Hext.
  erewrite (upsert_again _ _ p); [by destruct s2| |by apply project_is_spec|done..].
  apply project_create_appends.
Qed.

Lemma task_upsert_again t t2 s s' r s2 :
  task_upsert t s = (s', Some r) → Task.id t2 = Task.id t → grows s' s2 →
  task_upsert t2 s2 = (s2, Some r).
Proof.
  unfold task_upsert. destruct (upsert _ _ _ _) as [[ts r']|] eqn:E; [|done].
  intros [= <- <-] -> (_ & _ & Hext). simpl in Hext.
  erewrite (upsert_again _ _ t); [by destruct s2| |by apply task_is_spec|done..].
  apply task_create_appends.
Qed.

Lemma project_upsert_id p s s' r :
  project_upsert p s = (s', Some r) → Project.id r = Project.id p.
Proof.
  unfold project_upsert, upsert.
  destruct (findFirst _ _) as [found|] eqn:Hf.
  - intros [= <- <-]. apply findFirst_Some in Hf as [_ Hf]. by apply project_is_spec.
  - destruct (project_create _ _); [|done]. by intros [= <- <-].
Qed.

Lemma project_upsert_total p s : ∃ s' r, project_upsert p s = (s', Some r).
Proof.
  unfold project_upsert, upsert, project_create.
  destruct (findFirst _ _) as [found|] eqn:Hf; [eauto|].
  replace (existsb _ _) with false; [simpl; eauto|].
  symmetry. apply existsb_false. by apply findFirst_None.
Qed.

Lemma task_upsert_total t s : ∃ s' r, task_upsert t s = (s', Some r).
Proof.
  unfold task_upsert, upsert, task_create.
  destruct (findFirst _ _) as [found|] eqn:Hf; [eauto|].
  replace (existsb _ _) with false; [simpl; eauto|].
  symmetry. apply existsb_false. by apply findFirst_None.
Qed.

(** The seed script only adds rows: whether it finishes or throws, every
    table afterwards is the table before with rows appended; no existing
    row is changed or removed. *)
Theorem seed_only_appends bcrypt_hash salt e s :
  grows s (fst (seed bcrypt_hash salt e s)).
Proof.
  unfold seed, script_bind, script_ret.
  destruct (user_upsert _ _ s) as [s1 [demoUser|]] eqn:H1;
    apply user_upsert_grows in H1; [|done].
  destruct (project_upsert _ s1) as [s2 [workProject|]] eqn:H2;
    apply project_upsert_grows in H2; [|by eapply grows_trans].
  destruct (project_upsert _ s2) as [s3 [personalProject|]] eqn:H3;
    apply project_upsert_grows in H3; [|by do 2 (eapply grows_trans; [|done])].
  assert (H03 : grows s s3) by (by do 2 (eapply grows_trans; [|done])).
  destruct (task_upsert _ s3) as [s4 [?|]] eqn:H4;
    apply task_upsert_grows in H4; [|by eapply grows_trans].
  destruct (task_upsert _ s4) as [s5 [?|]] eqn:H5;
    apply task_upsert_grows in H5; [|by do 2 (eapply grows_trans; [|done])].
  destruct (task_upsert _ s5) as [s6 [?|]] eqn:H6;
    apply task_upsert_grows in H6; [|by do 3 (eapply grows_trans; [|done])].
  assert (H06 : grows s s6) by (by do 3 (eapply grows_trans; [|done])).
  destruct (task_upsert _ s6) as [s7 [?|]] eqn:H7;
    apply task_upsert_grows in H7; [|by eapply grows_trans].
  destruct (task_upsert _ s7) as [s8 [?|]] eqn:H8;
    apply task_upsert_grows in H8; simpl; by do 2 (eapply grows_trans; [|done]).
Qed.

(** Running the seed script again after a run that finished changes
    nothing: every upsert finds its row and leaves it as it is. *)
Theorem seed_rerun_changes_nothing bcrypt_hash salt e e2 s s' :
  seed bcrypt_hash salt e s = (s', Some tt) →
  seed bcrypt_hash salt e2 s' = (s', Some tt).
Proof.
  unfold seed, script_bind, script_ret.
  destruct (user_upsert _ _ s) as [s1 [demoUser|]] eqn:H1; [|done].
  destruct (project_upsert _ s1) as [s2 [workProject|]] eqn:H2; [|done].
  destruct (project_upsert _ s2) as [s3 [personalProject|]] eqn:H3; [|done].
  destruct (task_upsert _ s3) as [s4 [t1|]] eqn:H4; [|done].
  destruct (task_upsert _ s4) as [s5 [t2|]] eqn:H5; [|done].
  destruct (task_upsert _ s5) as [s6 [t3|]] eqn:H6; [|done].
  destruct (task_upsert _ s6) as [s7 [t4|]] eqn:H7; [|done].
  destruct (task_upsert _ s7) as [s8 [t5|]] eqn:H8; [|done].
  intros [= <-].
  pose proof (project_upsert_grows _ _ _ _ H2) as G2.
  pose proof (project_upsert_grows _ _ _ _ H3) as G3.
  pose proof (task_upsert_grows _ _ _ _ H4) as G4.
  pose proof (task_upsert_grows _ _ _ _ H5) as G5.
  pose proof (task_upsert_grows _ _ _ _ H6) as G6.
  pose proof (task_upsert_grows _ _ _ _ H7) as G7.
  pose proof (task_upsert_grows _ _ _ _ H8) as G8.
  assert (G78 : grows s7 s8) by done.
  assert (G68 : grows s6 s8) by (by eapply grows_trans).
  assert (G58 : grows s5 s8) by (by eapply grows_trans).
  assert (G48 : grows s4 s8) by (by eapply grows_trans).
  assert (G38 : grows s3 s8) by (by eapply grows_trans).
  assert (G28 : grows s2 s8) by (by eapply grows_trans).
  assert (G18 : grows s1 s8) by (by eapply grows_trans).
  erewrite user_upsert_again; [|exact H1|reflexivity|exact G18]. cbv beta iota.
  erewrite project_upsert_again; [|exact H2|reflexivity|exact G28]. cbv beta iota.
  erewrite project_upsert_again; [|exact H3|reflexivity|exact G38]. cbv beta iota.
  erewrite task_upsert_again; [|exact H4|reflexivity|exact G48]. cbv beta iota.
  erewrite task_upsert_again; [|exact H5|reflexivity|exact G58]. cbv beta iota.
  erewrite task_upsert_again; [|exact H6|reflexivity|exact G68]. cbv beta iota.
  erewrite task_upsert_again; [|exact H7|reflexivity|exact G78]. cbv beta iota.
  erewrite task_upsert_again; [|exact H8|reflexivity|exact (grows_refl s8)].
  done.
Qed.

Lemma seed_rerun_changes_nothing_witness :
  seed (λ _ p, "#" +:+ p) (λ _, "salt") Sample.env Sample.store
  = (fst (seed (λ _ p, "#" +:+ p) (λ _, "salt") Sample.env Sample.store), Some tt)
  ∧ seed (λ _ p, "#" +:+ p) (λ _, "salt") (mkEnv 2000 (fixed_zone 0) "other-id")
      (fst (seed (λ _ p, "#" +:+ p) (λ _, "salt") Sample.env Sample.store))
    = (fst (seed (λ _ p, "#" +:+ p) (λ _, "salt") Sample.env Sample.store), Some tt).
Proof.
  assert (H : seed (λ _ p, "#" +:+ p) (λ _, "salt") Sample.env Sample.store
              = (fst (seed (λ _ p, "#" +:+ p) (λ _, "salt") Sample.env Sample.store),
                 Some tt)) by (vm_compute; reflexivity).
  split; [exact H|].
  exact (seed_rerun_changes_nothing _ _ Sample.env (mkEnv 2000 (fixed_zone 0) "other-id") _ _ H).
Defined.

(** Seeding a store that has no demo account creates it, the run finishes,
    and the demo credentials then pass the password login.  This needs the
    generated id to be unused, a non-empty hash and a [compare] that accepts
    the demo password against its own hash. *)
Theorem seed_makes_demo_login_work bcrypt_hash bcrypt_compare salt e s :
  (∀ u, In u (users s) → User.email u ≠ "demo@taskflow.com") →
  (∀ u, In u (users s) → User.id u ≠ newId e) →
  bcrypt_hash (salt e) "demo123" ≠ "" →
  bcrypt_compare "demo123" (bcrypt_hash (salt e) "demo123") = true →
  ∃ s',
    seed bcrypt_hash salt e s = (s', Some tt)
    ∧ local_verify bcrypt_compare "demo@taskflow.com" "demo123" s'
      = done_user (mkPublic (newId e) "demo@taskflow.com" "Demo User" None).
Proof.
  intros Hfree Hfresh Hhash Hcmp.
  set (demo := User.mk (newId e) "demo@taskflow.com"
                 (Some (bcrypt_hash (salt e) "demo123")) None "Demo User" None (now e)).
  assert (H1 : user_upsert "demo@taskflow.com" demo s
               = (with_users (users s ++ [demo]) s, Some demo)).
  { unfold user_upsert, upsert, user_create.
    replace (findFirst _ _) with (@None User.t).
    2:{ symmetry. apply findFirst_None. intros v Hv. apply bool_decide_eq_false. auto. }
    replace (existsb (user_is _) _) with false.
    2:{ symmetry. apply existsb_false. intros v Hv. apply bool_decide_eq_false.
        by apply Hfresh. }
    replace (existsb (user_clash _) _) with false; [done|].
    symmetry. apply existsb_false. intros v Hv. apply user_clash_false.
    right. split; [by apply Hfree|]. by intros [? [=]]. }
  unfold seed, script_bind, script_ret. fold demo. rewrite H1.
  set (s1 := with_users (users s ++ [demo]) s).
  destruct (project_upsert_total
              (Project.mk "clx1234567890work" "Work Projects" "#3B82F6"
                 (User.id demo) (now e)) s1) as (s2 & workProject & H2).
  rewrite H2.
  destruct (project_upsert_total
              (Project.mk "clx1234567890personal" "Personal Tasks" "#10B981"
                 (User.id demo) (now e)) s2) as (s3 & personalProject & H3).
  rewrite H3.
  repeat match goal with
  | |- context [task_upsert ?t ?s0] =>
      let H := fresh "H" in
      destruct (task_upsert_total t s0) as (? & ? & H); rewrite H;
      apply task_upsert_grows in H
  end.
  eexists. split; [done|].
  apply project_upsert_grows in H2, H3.
  assert (Hgrows : grows s1 x7)
    by (repeat (eapply grows_trans; [done|]); done).
  destruct Hgrows as ([added Husers] & _).
  unfold local_verify. rewrite Husers.
  change (toLowerCase "demo@taskflow.com") with "demo@taskflow.com".
  rewrite (findFirst_app_l _ _ _ demo).
  - simpl User.password. cbv iota.
    replace (truthy _) with true
      by (symmetry; by apply negb_true_iff, bool_decide_eq_false).
    simpl negb. cbv iota. by rewrite Hcmp.
  - apply findFirst_app_new; [|done].
    intros v Hv. apply bool_decide_eq_false. by apply Hfree.
Qed.

Lemma seed_makes_demo_login_work_witness :
  (∀ u, In u (users Sample.store) → User.email u ≠ "demo@taskflow.com")
  ∧ (∀ u, In u (users Sample.store) → User.id u ≠ "fresh-id")
  ∧ ∃ s',
      seed (λ _ p, "#" +:+ p) (λ _, "salt") Sample.env Sample.store = (s', Some tt)
      ∧ local_verify (λ p h, bool_decide (h = "#" +:+ p)) "demo@taskflow.com" "demo123" s'
        = done_user (mkPublic "fresh-id" "demo@taskflow.com" "Demo User" None).
Proof.
  assert (Hfree : ∀ u, In u (users Sample.store) → User.email u ≠ "demo@taskflow.com").
  { intros u Hu. simpl in Hu. destruct Hu as [<-|[<-|[]]]; done. }
  assert (Hfresh : ∀ u, In u (users Sample.store) → User.id u ≠ "fresh-id").
  { intros u Hu. simpl in Hu. destruct Hu as [<-|[<-|[]]]; done. }
  split_and!; [done|done|].
  apply (seed_makes_demo_login_work (λ _ p, "#" +:+ p)
           (λ p h, bool_decide (h = "#" +:+ p)) (λ _, "salt") Sample.env Sample.store);
    done.
Defined.
